(** * coredns-dockerdiscovery: registry, DNS answers and Cloudflare reconciliation

    A shallow embedding of the Go sources
    - [dockerdiscovery.go]: the container registry, [containerInfoByDomain],
      [ServeDNS], [getContainerAddress], [updateContainerInfo];
    - [resolvers.go]: the domain resolvers;
    - [cloudflare.go]: [CloudflareSyncer] ([SyncDomains], [RemoveDomains],
      [findZoneForDomain], [upsertRecord], [deleteRecord]);
    - [tunnel.go]: [TunnelSyncer] ([AddRoutes], [RemoveRoutes]);
    - [cloudflare_test.go]: [mockCloudflareAPI], the in-memory provider.

    Conventions.  Go strings are byte strings and are modelled by [string];
    a Go map is a [gmap]; a nil slice and an empty slice are both [[]] (the
    code only ever takes [len] of them); [net.IP] is a byte slice whose nil
    value is [None].  The order in which a [range] visits a map is not fixed
    by the language: it is taken from the world ([RangeOrder], [Extern]), as
    are the library functions the repository does not hold.  Log lines are
    not modelled.  Several of them print
    [container.ID[:12]]; container IDs are the 64 hexadecimal digits docker
    assigns, so that slice is always in range. *)

From Stdlib Require Import ZArith String Ascii List Lia Bool.
From Stdlib Require Import DecimalString.
From stdpp Require Import base option list gmap strings sorting.

Local Open Scope string_scope.
Local Open Scope list_scope.

(* ===================================================================== *)
(** * Part I: definitions                                                 *)
(* ===================================================================== *)

(** ** Go string primitives *)

Module GoString.

(** [s[i:]] for [i <= len(s)]. *)
Fixpoint from (i : nat) (s : string) : string :=
  match i, s with
  | O, _ => s
  | S i', String _ s' => from i' s'
  | S _, EmptyString => EmptyString
  end.

(** [strings.HasPrefix]. *)
Definition HasPrefix (s p : string) : bool := String.prefix p s.

(** [strings.HasSuffix]:
    [len(s) >= len(suffix) && s[len(s)-len(suffix):] == suffix]. *)
Definition HasSuffix (s suffix : string) : bool :=
  (String.length suffix <=? String.length s)%nat
  && String.eqb (from (String.length s - String.length suffix) s) suffix.

(** [s[i]], a byte; [None] stands for the index-out-of-range panic. *)
Definition index (s : string) (i : nat) : option ascii := String.get i s.

Definition is_empty (s : string) : bool := String.eqb s "".

End GoString.

(** ** The docker API structures the plugin reads *)

Definition IP := list Byte.byte.

Record ContainerNetwork := {
  net_IPAddress : string;
  net_GlobalIPv6Address : string;
  net_Aliases : list string;
}.

Record Container := {
  ID : string;
  Name : string;
  Config_Hostname : string;
  Config_Labels : gmap string string;
  HostConfig_NetworkMode : string;
  NetworkSettings_IPAddress : string;
  NetworkSettings_GlobalIPv6Address : string;
  NetworkSettings_Networks : gmap string ContainerNetwork;
}.

(** The order in which one [range] statement visits a Go map.  The language
    leaves it open and it changes from one execution to the next: any
    arrangement of the map's entries. *)
Record RangeOrder := {
  rangeLabels : gmap string string -> list (string * string);
  rangeLabels_perm : forall m, rangeLabels m ≡ₚ map_to_list m;
  rangeNetworks :
    gmap string ContainerNetwork -> list (string * ContainerNetwork);
  rangeNetworks_perm : forall m, rangeNetworks m ≡ₚ map_to_list m;
}.

(** What the plugin takes from outside the repository: [net.ParseIP] (nil,
    here [None], when the text is not an address); the docker client's
    [InspectContainerWithOptions] (a container or an error);
    [strings.Map(unicode.ToLower, s)], the path [strings.ToLower] takes for
    text that is not pure ASCII; and the order of the [range] statement of
    the [n]-th resolver called while the domains of one container are
    resolved. *)
Record Extern := {
  ParseIP : string -> option IP;
  InspectContainer : string -> Container + string;
  MapToLower : string -> string;
  RangeAt : nat -> RangeOrder;
}.

(** ** Domain resolvers ([resolvers.go]) *)

(** [strings.TrimLeft(s, "/")]. *)
Fixpoint trimLeftSlash (s : string) : string :=
  match s with
  | String c s' => if Ascii.eqb c "/" then trimLeftSlash s' else s
  | EmptyString => EmptyString
  end.

Definition normalizeContainerName (c : Container) : string :=
  trimLeftSlash (Name c).

(** The interface [ContainerDomainResolver]: [resolve] returns the domains
    (without trailing dot) and an error.  A call is made in a world [w] and
    ranges over a map, if it does, in the order [o]. *)
Definition ContainerDomainResolver : Type :=
  Extern -> RangeOrder -> Container -> list string * option string.

Definition SubDomainContainerNameResolver (domain : string)
  : ContainerDomainResolver :=
  fun _ _ c => ([normalizeContainerName c +:+ "." +:+ domain], None).

Definition SubDomainHostResolver (domain : string) : ContainerDomainResolver :=
  fun _ _ c => ([Config_Hostname c +:+ "." +:+ domain], None).

(** The loop stops at the first (and, keys being unique, only) label equal to
    [hostLabel]. *)
Definition LabelResolver (hostLabel : string) : ContainerDomainResolver :=
  fun _ _ c =>
    match Config_Labels c !! hostLabel with
    | Some value => ([value], None)
    | None => ([], None)
    end.

Definition ComposeResolver (domain : string) : ContainerDomainResolver :=
  fun _ _ c =>
    match Config_Labels c !! "com.docker.compose.project",
          Config_Labels c !! "com.docker.compose.service" with
    | Some project, Some service =>
        ([service +:+ "." +:+ project +:+ "." +:+ domain], None)
    | _, _ => ([], None)
    end.

(** With no network configured the aliases of all networks are collected in
    the order the range visits them. *)
Definition NetworkAliasesResolver (network : string) : ContainerDomainResolver :=
  fun _ o c =>
    if negb (GoString.is_empty network) then
      match NetworkSettings_Networks c !! network with
      | Some n => (net_Aliases n, None)
      | None => ([], None)
      end
    else
      (flat_map (fun kv => net_Aliases kv.2)
                (rangeNetworks o (NetworkSettings_Networks c)), None).

(** [isTraefikRouterRule]: labels like [traefik.http.routers.<name>.rule]. *)
Definition isTraefikRouterRule (label : string) : bool :=
  GoString.HasPrefix label "traefik.http.routers."
  && GoString.HasSuffix label ".rule".

(** The longest run of bytes other than a backtick, and what follows it. *)
Fixpoint spanNoBacktick (s : string) : string * string :=
  match s with
  | String c s' =>
      if Ascii.eqb c "`" then (EmptyString, s)
      else let '(run, rest) := spanNoBacktick s' in (String c run, rest)
  | EmptyString => (EmptyString, EmptyString)
  end.

(** A match of [traefikHostMatcher], the expression
    [Host(?:SNI)?\(`([^`]+)`\)], at the start of [s]: the text captured and
    what follows the match.  After [(`] the class [[^`]+] can only end at the
    next backtick, so the match is determined. *)
Definition matchHostAt (s : string) : option (string * string) :=
  if GoString.HasPrefix s "Host" then
    let s1 := GoString.from 4 s in
    let s2 := if GoString.HasPrefix s1 "SNI" then GoString.from 3 s1 else s1 in
    if GoString.HasPrefix s2 "(`" then
      let '(host, rest) := spanNoBacktick (GoString.from 2 s2) in
      if negb (GoString.is_empty host) && GoString.HasPrefix rest "`)"
      then Some (host, GoString.from 2 rest) else None
    else None
  else None.

(** [FindAllStringSubmatch(value, -1)], first group: the successive leftmost
    matches, each search resuming where the last match ended. *)
Fixpoint findAllHosts (fuel : nat) (s : string) : list string :=
  match fuel with
  | O => []
  | S fuel' =>
      match matchHostAt s with
      | Some (host, rest) => host :: findAllHosts fuel' rest
      | None =>
          match s with
          | String _ s' => findAllHosts fuel' s'
          | EmptyString => []
          end
      end
  end.

(** [strings.ToLower].  Text made of ASCII bytes only has its letters [A] to
    [Z] lowered byte by byte; any other text goes through
    [strings.Map(unicode.ToLower, s)], which lowers by the Unicode tables and
    is taken from the world. *)
Definition lowerAscii (c : ascii) : ascii :=
  let n := nat_of_ascii c in
  if (65 <=? n)%nat && (n <=? 90)%nat then ascii_of_nat (n + 32) else c.

Fixpoint lowerBytes (s : string) : string :=
  match s with
  | String c s' => String (lowerAscii c) (lowerBytes s')
  | EmptyString => EmptyString
  end.

(** Every byte is below [utf8.RuneSelf]. *)
Fixpoint isASCII (s : string) : bool :=
  match s with
  | String c s' => (nat_of_ascii c <? 128)%nat && isASCII s'
  | EmptyString => true
  end.

Definition ToLower (w : Extern) (s : string) : string :=
  if isASCII s then lowerBytes s else MapToLower w s.

(** The hosts of one label value that are not in [seen] yet. *)
Fixpoint addUnseen (w : Extern) (hosts seen : list string) : list string :=
  match hosts with
  | [] => seen
  | h :: rest =>
      let host := ToLower w h in
      if existsb (String.eqb host) seen then addUnseen w rest seen
      else addUnseen w rest (seen ++ [host])
  end.

(** [TraefikLabelResolver.resolve]; the labels are visited in the order the
    range takes. *)
Definition TraefikLabelResolver : ContainerDomainResolver :=
  fun w o c =>
    (fold_left
       (fun domains kv =>
          if isTraefikRouterRule kv.1
          then addUnseen w (findAllHosts (S (String.length kv.2)) kv.2) domains
          else domains)
       (rangeLabels o (Config_Labels c)) [],
     None).

(** ** The registry ([dockerdiscovery.go]) *)

Record ContainerInfo := {
  container : Container;
  address : option IP;
  address6 : option IP;
  domains : list string;       (* resolved domains (A/AAAA records) *)
  cnameDomains : list string;  (* domains resolved via traefik labels *)
}.

(** The plugin.  [traefikResolver] is [None] for the nil pointer;
    [cloudflareSyncer] records whether a syncer is configured. *)
Record DockerDiscovery := {
  resolvers : list ContainerDomainResolver;
  containerInfoMap : gmap string ContainerInfo;
  ttl : Z;
  traefikResolver : option ContainerDomainResolver;
  traefikCNAME : string;
  traefikA : option IP;
  cloudflareSyncer : bool;
}.

Definition set_containerInfoMap (dd : DockerDiscovery)
    (m : gmap string ContainerInfo) : DockerDiscovery :=
  {| resolvers := resolvers dd; containerInfoMap := m; ttl := ttl dd;
     traefikResolver := traefikResolver dd; traefikCNAME := traefikCNAME dd;
     traefikA := traefikA dd; cloudflareSyncer := cloudflareSyncer dd |}.

(** [resolveDomainsByContainer]: every resolver's domains are appended, an
    error is only logged; the traefik domains are kept apart.  The resolver at
    position [i] of the chain ranges in the order [RangeAt w i], the traefik
    resolver in the order after the chain's. *)
Definition resolveDomainsByContainer (w : Extern) (dd : DockerDiscovery)
    (c : Container) : list string * list string :=
  let domains :=
    concat (imap (fun i resolver => (resolver w (RangeAt w i) c).1)
                 (resolvers dd)) in
  let cnameDomains :=
    match traefikResolver dd with
    | Some t => (t w (RangeAt w (length (resolvers dd))) c).1
    | None => []
    end in
  (domains, cnameDomains).

Record DomainLookupResult := {
  containerInfo : ContainerInfo;
  isCNAME : bool;
}.

(** The inner loops of [containerInfoByDomain]:
    [for _, d := range ds { if fmt.Sprintf("%s.", d) == requestName {...} }]. *)
Definition matchesAny (ds : list string) (requestName : string) : bool :=
  existsb (fun d => String.eqb (d +:+ ".") requestName) ds.

(** [containerInfoByDomain].  Go ranges over [dd.containerInfoMap] in an
    unspecified order; [entries] is the sequence of values in the order this
    call happens to visit them.  [None] is the [nil] result. *)
Fixpoint containerInfoByDomain (entries : list ContainerInfo)
    (requestName : string) : option DomainLookupResult :=
  match entries with
  | [] => None
  | ci :: rest =>
      if matchesAny (domains ci) requestName then
        Some {| containerInfo := ci; isCNAME := false |}
      else if matchesAny (cnameDomains ci) requestName then
        Some {| containerInfo := ci; isCNAME := true |}
      else containerInfoByDomain rest requestName
  end.

(** The visiting orders a range over the registry can take. *)
Definition iteration_of (dd : DockerDiscovery)
    (entries : list ContainerInfo) : Prop :=
  entries ≡ₚ (map_to_list (containerInfoMap dd)).*2.

(** ** DNS answers ([ServeDNS]) *)

Definition TypeA : Z := 1.
Definition TypeCNAME : Z := 5.
Definition TypeAAAA : Z := 28.
Definition RcodeSuccess : Z := 0.

Inductive RR :=
| RR_A (name : string) (ttl : Z) (a : option IP)
| RR_AAAA (name : string) (ttl : Z) (aaaa : option IP)
| RR_CNAME (name : string) (ttl : Z) (target : string).

Record Msg := {
  Authoritative : bool;
  RecursionAvailable : bool;
  Compress : bool;
  Rcode : Z;
  Answer : list RR;
}.

(** What [ServeDNS] does with a query: hand it to the next plugin
    ([plugin.NextOrFailure]), or build a reply and return a code.
    [WriteMsg m rc] carries the message [m] as the handler builds it.  On its
    way to the client [m] goes through [state.SizeAndDo] and [state.Scrub] of
    the CoreDNS library, which fit it to the client's buffer: they decide on
    the compression of the message written and drop records that do not fit.
    Those two belong to no file of the repository and are not modelled. *)
Inductive Served :=
| NextOrFailure
| WriteMsg (m : Msg) (rc : Z).

Definition getCNAMEAnswer (zone target : string) (ttl : Z) : list RR :=
  let target := if GoString.HasSuffix target "." then target else target +:+ "." in
  [RR_CNAME zone ttl target].

Definition getAnswer (zone : string) (ips : list (option IP)) (ttl : Z)
    (v6 : bool) : list RR :=
  map (fun ip => if v6 then RR_AAAA zone ttl ip else RR_A zone ttl ip) ips.

(** The query as [request.Request] presents it: [QType()], [QName()] (the
    name as sent) and [Name()] (the name used in the answer's header). *)
Record Request := {
  QType : Z;
  QName : string;
  ReqName : string;
}.

(** [m.SetReply(r)] then the flags the handler sets on the message it
    builds. *)
Definition reply (compress : bool) (answers : list RR) : Msg :=
  {| Authoritative := true; RecursionAvailable := false; Compress := compress;
     Rcode := RcodeSuccess; Answer := answers |}.

(** The [switch] of [ServeDNS]: the answers collected ([inr]), or the reply
    the AAAA case writes itself before returning ([inl]). *)
Definition collectAnswers (dd : DockerDiscovery) (entries : list ContainerInfo)
    (r : Request) : Served + list RR :=
  let result := containerInfoByDomain entries (QName r) in
  if (QType r =? TypeA)%Z then
    match result with
    | Some res =>
        if isCNAME res then
          if negb (GoString.is_empty (traefikCNAME dd)) then
            inr (getCNAMEAnswer (ReqName r) (traefikCNAME dd) (ttl dd))
          else
            match traefikA dd with
            | Some ip => inr (getAnswer (ReqName r) [Some ip] (ttl dd) false)
            | None => inr []
            end
        else
          inr (getAnswer (ReqName r) [address (containerInfo res)] (ttl dd) false)
    | None => inr []
    end
  else if (QType r =? TypeAAAA)%Z then
    match result with
    | Some res =>
        if isCNAME res then
          if negb (GoString.is_empty (traefikCNAME dd)) then
            inr (getCNAMEAnswer (ReqName r) (traefikCNAME dd) (ttl dd))
          else inr []
        else
          match address6 (containerInfo res), address (containerInfo res) with
          | Some ip6, _ => inr (getAnswer (ReqName r) [Some ip6] (ttl dd) true)
          | None, Some _ => inl (WriteMsg (reply false []) RcodeSuccess)
          | None, None => inr []
          end
    | None => inr []
    end
  else if (QType r =? TypeCNAME)%Z then
    match result with
    | Some res =>
        if isCNAME res && negb (GoString.is_empty (traefikCNAME dd)) then
          inr (getCNAMEAnswer (ReqName r) (traefikCNAME dd) (ttl dd))
        else inr []
    | None => inr []
    end
  else inr [].

Definition ServeDNS (dd : DockerDiscovery) (entries : list ContainerInfo)
    (r : Request) : Served :=
  match collectAnswers dd entries r with
  | inl early => early
  | inr answers =>
      if (length answers =? 0)%nat then NextOrFailure
      else WriteMsg (reply true answers) RcodeSuccess
  end.

(** ** Address resolution ([getContainerAddress]) *)

(** One result of [getContainerAddress]: the address (nil is [None]) and the
    error. *)
Definition AddressResult : Type := option IP * option string.

(** The [for] loop: it returns ([inl]) or breaks with the container reached and
    its network mode ([inr]).  A chain of [container:<id>] network modes can be
    cyclic, so the loop is cut by [fuel]; [None] is a run that has not left the
    loop within [fuel] rounds. *)
Fixpoint addressLoop (w : Extern) (fuel : nat) (hasNetName v6 : bool)
    (c : Container) : option (AddressResult + Container * string) :=
  match fuel with
  | O => None
  | S fuel' =>
      if negb (GoString.is_empty (NetworkSettings_IPAddress c))
         && negb hasNetName && negb v6 then
        Some (inl (ParseIP w (NetworkSettings_IPAddress c), None))
      else if negb (GoString.is_empty (NetworkSettings_GlobalIPv6Address c))
              && negb hasNetName && v6 then
        Some (inl (ParseIP w (NetworkSettings_GlobalIPv6Address c), None))
      else
        let networkMode := HostConfig_NetworkMode c in
        if String.eqb networkMode "host" then Some (inl (None, None))
        else if GoString.HasPrefix networkMode "container:" then
          let otherID := GoString.from (String.length "container:") networkMode in
          match InspectContainer w otherID with
          | inr err => Some (inl (None, Some err))
          | inl c' => addressLoop w fuel' hasNetName v6 c'
          end
        else Some (inr (c, networkMode))
  end.

(** The network the address is read from: the one named by the label, or the
    only one. *)
Definition selectNetwork (netName : option string) (c : Container)
  : option ContainerNetwork :=
  match netName with
  | Some n => NetworkSettings_Networks c !! n
  | None =>
      match map_to_list (NetworkSettings_Networks c) with
      | [(_, network)] => Some network
      | _ => None
      end
  end.

Definition getContainerAddress (w : Extern) (fuel : nat) (c : Container)
    (v6 : bool) : option AddressResult :=
  let netName := Config_Labels c !! "coredns.dockerdiscovery.network" in
  match addressLoop w fuel (bool_decide (is_Some netName)) v6 c with
  | None => None
  | Some (inl res) => Some res
  | Some (inr (c', networkMode)) =>
      match selectNetwork netName c' with
      | None =>
          Some (None, Some ("unable to find network settings for the network "
                            +:+ networkMode))
      | Some network =>
          if negb v6 then Some (ParseIP w (net_IPAddress network), None)
          else if (0 <? String.length (net_GlobalIPv6Address network))%nat then
            Some (ParseIP w (net_GlobalIPv6Address network), None)
          else Some (None, None)
      end
  end.

(** ** Registry updates *)

(** [updateContainerInfo].  Besides the new plugin state it yields the domains
    handed to the goroutine [go dd.cloudflareSyncer.SyncDomains(cnameDomains)],
    if one is started.  [None]: address resolution has not returned within
    [fuel] rounds. *)
Definition updateContainerInfo (w : Extern) (fuel : nat) (dd : DockerDiscovery)
    (c : Container) : option (DockerDiscovery * option (list string)) :=
  let isExist := bool_decide (is_Some (containerInfoMap dd !! ID c)) in
  let m := if isExist then delete (ID c) (containerInfoMap dd)
           else containerInfoMap dd in
  let '(domains, cnameDomains) := resolveDomainsByContainer w dd c in
  match getContainerAddress w fuel c false with
  | None => None
  | Some (containerAddress, err) =>
      let second :=
        match containerAddress with
        | Some _ => getContainerAddress w fuel c true
        | None => Some (None, None)
        end in
      match second with
      | None => None
      | Some (containerAddress6, _) =>
          let domains :=
            match containerAddress with
            | None => if (0 <? length domains)%nat then [] else domains
            | Some _ => domains
            end in
          if (0 <? length domains)%nat || (0 <? length cnameDomains)%nat then
            let info := {| container := c; address := containerAddress;
                           address6 := containerAddress6; domains := domains;
                           cnameDomains := cnameDomains |} in
            Some (set_containerInfoMap dd (<[ID c := info]> m),
                  if cloudflareSyncer dd && (0 <? length cnameDomains)%nat
                  then Some cnameDomains else None)
          else Some (set_containerInfoMap dd m, None)
      end
  end.

(** [removeContainerInfo], with the domains handed to
    [go dd.cloudflareSyncer.RemoveDomains(domainsToRemove)]. *)
Definition removeContainerInfo (dd : DockerDiscovery) (containerID : string)
  : DockerDiscovery * option (list string) :=
  match containerInfoMap dd !! containerID with
  | None => (dd, None)
  | Some info =>
      (set_containerInfoMap dd (delete containerID (containerInfoMap dd)),
       if cloudflareSyncer dd && (0 <? length (cnameDomains info))%nat
       then Some (cnameDomains info) else None)
  end.

(** [NewDockerDiscovery]: an empty registry and the default TTL. *)
Definition NewDockerDiscovery : DockerDiscovery :=
  {| resolvers := []; containerInfoMap := ∅; ttl := 3600;
     traefikResolver := None; traefikCNAME := ""; traefikA := None;
     cloudflareSyncer := false |}.

(** ** The Cloudflare provider ([cloudflare.go], [tunnel.go]) *)

Record DNSRecord := {
  rec_ID : string;
  rec_Type : string;
  rec_Name : string;
  rec_Content : string;
  rec_Proxied : option bool;
  rec_TTL : Z;
}.

(** An ingress rule; the plugin reads and writes [Hostname] and [Service]. *)
Record UnvalidatedIngressRule := {
  Hostname : string;
  Service : string;
}.

(** [WarpRouting] and [OriginRequest] are passed through untouched. *)
Record TunnelConfiguration := {
  Ingress : list UnvalidatedIngressRule;
  WarpRouting : option string;
  OriginRequest : string;
}.

Record CloudflareZone := {
  Domain : string;
  ZoneID : string;
}.

Record CloudflareConfig := {
  TargetDomain : string;
  Proxied : bool;
  ExcludeDomains : gmap string bool;
  Zones : list CloudflareZone;
}.

Record TunnelConfig := {
  TunnelID : string;
  AccountID : string;
}.

(** [m[key]] on a [map[string]bool]: [false] for a missing key. *)
Definition mapBool (m : gmap string bool) (key : string) : bool :=
  default false (m !! key).

(** Computations against the provider: a state monad over the provider's
    state. *)
Definition M (St A : Type) : Type := St -> A * St.

Definition ret {St A} (a : A) : M St A := fun s => (a, s).

Definition bind {St A B} (c : M St A) (k : A -> M St B) : M St B :=
  fun s => let '(a, s') := c s in k a s'.

Notation "'do' x <- c ; k" := (bind c (fun x => k))
  (at level 10, x name, c at level 100, k at level 200).

(** [for _, x := range xs { body }]. *)
Fixpoint forEach {St A} (xs : list A) (body : A -> M St unit) : M St unit :=
  match xs with
  | [] => ret tt
  | x :: rest => do _ <- body x; forEach rest body
  end.

(** The interface [CloudflareAPI] (DNS records and tunnel configuration). *)
Class CloudflareAPI (St : Type) := {
  ListDNSRecords : string -> DNSRecord -> M St (list DNSRecord + string);
  CreateDNSRecord : string -> DNSRecord -> M St (DNSRecord + string);
  UpdateDNSRecord : string -> string -> DNSRecord -> M St (option string);
  DeleteDNSRecord : string -> string -> M St (option string);
  GetTunnelConfiguration :
    string -> string -> M St (TunnelConfiguration + string);
  UpdateTunnelConfiguration :
    string -> string -> TunnelConfiguration -> M St (TunnelConfiguration + string);
}.

(** [cloudflare.DNSRecord{Type: "CNAME", Name: domain}]. *)
Definition cnameFilter (domain : string) : DNSRecord :=
  {| rec_ID := ""; rec_Type := "CNAME"; rec_Name := domain; rec_Content := "";
     rec_Proxied := None; rec_TTL := 0 |}.

Definition cnameRecord (domain content : string) (proxied : bool) : DNSRecord :=
  {| rec_ID := ""; rec_Type := "CNAME"; rec_Name := domain;
     rec_Content := content; rec_Proxied := Some proxied; rec_TTL := 1 |}.

(** *** Zone selection *)

(** The test of [CloudflareSyncer.findZoneForDomain]. *)
Definition zoneMatches (domain : string) (zone : CloudflareZone) : bool :=
  String.eqb domain (Domain zone)
  || GoString.HasSuffix domain ("." +:+ Domain zone).

(** The test of [TunnelSyncer.findZoneForDomain], written with indices. *)
Definition zoneMatchesTunnel (domain : string) (zone : CloudflareZone) : bool :=
  let ld := String.length domain in
  let lz := String.length (Domain zone) in
  String.eqb domain (Domain zone)
  || ((lz <? ld)%nat
      && match GoString.index domain (ld - lz - 1) with
         | Some c => Ascii.eqb c "."
         | None => false
         end
      && String.eqb (GoString.from (ld - lz) domain) (Domain zone)).

(** One round of the loop over the zones; the accumulator is
    [(bestMatch, bestZoneID)]. *)
Definition zoneStep (matches : string -> CloudflareZone -> bool)
    (domain : string) (best : string * string) (zone : CloudflareZone)
  : string * string :=
  if matches domain zone then
    if (String.length best.1 <? String.length (Domain zone))%nat
    then (Domain zone, ZoneID zone) else best
  else best.

Definition findZoneWith (matches : string -> CloudflareZone -> bool)
    (zones : list CloudflareZone) (domain : string) : string :=
  (fold_left (zoneStep matches domain) zones ("", "")).2.

(** [CloudflareSyncer.findZoneForDomain]. *)
Definition findZoneForDomain (config : CloudflareConfig) (domain : string)
  : string :=
  findZoneWith zoneMatches (Zones config) domain.

(** [TunnelSyncer.findZoneForDomain]. *)
Definition tunnelFindZoneForDomain (cf : CloudflareConfig) (domain : string)
  : string :=
  findZoneWith zoneMatchesTunnel (Zones cf) domain.

(** *** [CloudflareSyncer] *)

Section Syncer.
Context {St : Type} {API : CloudflareAPI St}.

(** [upsertRecord]; the result is the error returned. *)
Definition upsertRecord (config : CloudflareConfig) (zoneID domain : string)
  : M St (option string) :=
  do existing <- ListDNSRecords zoneID (cnameFilter domain);
  match existing with
  | inr err => ret (Some ("listing records for " +:+ domain +:+ ": " +:+ err))
  | inl existing =>
      let record := cnameRecord domain (TargetDomain config) (Proxied config) in
      match existing with
      | rec :: _ =>
          if String.eqb (rec_Content rec) (TargetDomain config) then ret None
          else UpdateDNSRecord zoneID (rec_ID rec) record
      | [] =>
          do created <- CreateDNSRecord zoneID record;
          match created with
          | inr err => ret (Some err)
          | inl _ => ret None
          end
      end
  end.

(** The loop of [deleteRecord]: it stops at the first failed deletion. *)
Fixpoint deleteEach (zoneID : string) (existing : list DNSRecord)
  : M St (option string) :=
  match existing with
  | [] => ret None
  | rec :: rest =>
      do err <- DeleteDNSRecord zoneID (rec_ID rec);
      match err with
      | Some e => ret (Some ("deleting record " +:+ rec_ID rec +:+ ": " +:+ e))
      | None => deleteEach zoneID rest
      end
  end.

Definition deleteRecord (zoneID domain : string) : M St (option string) :=
  do existing <- ListDNSRecords zoneID (cnameFilter domain);
  match existing with
  | inr err => ret (Some ("listing records for " +:+ domain +:+ ": " +:+ err))
  | inl existing => deleteEach zoneID existing
  end.

(** The body of the loop of [SyncDomains]. *)
Definition syncDomain (config : CloudflareConfig) (domain : string)
  : M St unit :=
  if mapBool (ExcludeDomains config) domain then ret tt
  else
    let zoneID := findZoneForDomain config domain in
    if GoString.is_empty zoneID then ret tt
    else do _ <- upsertRecord config zoneID domain; ret tt.

Definition SyncDomains (config : CloudflareConfig) (domains : list string)
  : M St unit :=
  forEach domains (syncDomain config).

(** The body of the loop of [RemoveDomains]. *)
Definition removeDomain (config : CloudflareConfig) (domain : string)
  : M St unit :=
  if mapBool (ExcludeDomains config) domain then ret tt
  else
    let zoneID := findZoneForDomain config domain in
    if GoString.is_empty zoneID then ret tt
    else do _ <- deleteRecord zoneID domain; ret tt.

Definition RemoveDomains (config : CloudflareConfig) (domains : list string)
  : M St unit :=
  forEach domains (removeDomain config).

End Syncer.

(** *** [TunnelSyncer] *)

(** The inner loop of [AddRoutes]: the first rule with this hostname, if any,
    gets the service URL.  [Some (ingress', changed)] when [exists] is set,
    [None] when the loop ends without a match. *)
Fixpoint updateExisting (hostname serviceURL : string)
    (ingress : list UnvalidatedIngressRule)
  : option (list UnvalidatedIngressRule * bool) :=
  match ingress with
  | [] => None
  | rule :: rest =>
      if String.eqb (Hostname rule) hostname then
        if String.eqb (Service rule) serviceURL then Some (rule :: rest, false)
        else Some ({| Hostname := Hostname rule; Service := serviceURL |} :: rest,
                   true)
      else
        match updateExisting hostname serviceURL rest with
        | Some (rest', changed) => Some (rule :: rest', changed)
        | None => None
        end
  end.

Definition catchAllRule : UnvalidatedIngressRule :=
  {| Hostname := ""; Service := "http_status:404" |}.

(** The [!exists] branch:
    [append(ingress[:len(ingress)-1], newRule, ingress[len(ingress)-1])], or
    the rule and a catch-all when there is no rule yet. *)
Definition insertRule (newRule : UnvalidatedIngressRule)
    (ingress : list UnvalidatedIngressRule) : list UnvalidatedIngressRule :=
  if (0 <? length ingress)%nat then
    take (length ingress - 1) ingress
      ++ newRule :: drop (length ingress - 1) ingress
  else ingress ++ [newRule; catchAllRule].

(** One round of the loop over the hostnames; the accumulator is
    [(ingress, modified)]. *)
Definition addRoute (cf : CloudflareConfig) (serviceURL : string)
    (acc : list UnvalidatedIngressRule * bool) (hostname : string)
  : list UnvalidatedIngressRule * bool :=
  if mapBool (ExcludeDomains cf) hostname then acc
  else
    match updateExisting hostname serviceURL acc.1 with
    | Some (ingress', changed) => (ingress', acc.2 || changed)
    | None =>
        (insertRule {| Hostname := hostname; Service := serviceURL |} acc.1, true)
    end.

Definition addIngress (cf : CloudflareConfig) (hostnames : list string)
    (serviceURL : string) (ingress : list UnvalidatedIngressRule)
  : list UnvalidatedIngressRule * bool :=
  fold_left (addRoute cf serviceURL) hostnames (ingress, false).

(** [removeSet] of [RemoveRoutes]. *)
Definition buildRemoveSet (cf : CloudflareConfig) (hostnames : list string)
  : gmap string bool :=
  fold_left (fun removeSet h =>
               if negb (mapBool (ExcludeDomains cf) h)
               then <[h := true]> removeSet else removeSet)
            hostnames ∅.

(** The filtering loop of [RemoveRoutes]; the accumulator is
    [(filtered, modified)]. *)
Definition filterRule (removeSet : gmap string bool)
    (acc : list UnvalidatedIngressRule * bool) (rule : UnvalidatedIngressRule)
  : list UnvalidatedIngressRule * bool :=
  if mapBool removeSet (Hostname rule) then (acc.1, true)
  else (acc.1 ++ [rule], acc.2).

Definition removeIngress (cf : CloudflareConfig) (hostnames : list string)
    (ingress : list UnvalidatedIngressRule)
  : list UnvalidatedIngressRule * bool :=
  fold_left (filterRule (buildRemoveSet cf hostnames)) ingress ([], false).

Section Tunnel.
Context {St : Type} {API : CloudflareAPI St}.

(** [upsertTunnelDNS]: errors are logged, nothing is returned. *)
Definition upsertTunnelDNS (cf : CloudflareConfig)
    (hostname cnameTarget : string) : M St unit :=
  let zoneID := tunnelFindZoneForDomain cf hostname in
  if GoString.is_empty zoneID then ret tt
  else
    do existing <- ListDNSRecords zoneID (cnameFilter hostname);
    match existing with
    | inr _ => ret tt
    | inl existing =>
        let record := cnameRecord hostname cnameTarget (Proxied cf) in
        match existing with
        | rec :: _ =>
            if String.eqb (rec_Content rec) cnameTarget then ret tt
            else do _ <- UpdateDNSRecord zoneID (rec_ID rec) record; ret tt
        | [] => do _ <- CreateDNSRecord zoneID record; ret tt
        end
    end.

(** [deleteTunnelDNS]: a failed deletion is logged and the loop goes on. *)
Definition deleteTunnelDNS (cf : CloudflareConfig) (hostname : string)
  : M St unit :=
  let zoneID := tunnelFindZoneForDomain cf hostname in
  if GoString.is_empty zoneID then ret tt
  else
    do existing <- ListDNSRecords zoneID (cnameFilter hostname);
    match existing with
    | inr _ => ret tt
    | inl existing =>
        forEach existing
          (fun rec => do _ <- DeleteDNSRecord zoneID (rec_ID rec); ret tt)
    end.

(** The push of the configuration when [modified] is set; [false] when the
    push fails and the function returns early. *)
Definition pushIfModified (tunnel : TunnelConfig) (fetched : TunnelConfiguration)
    (ingress : list UnvalidatedIngressRule) (modified : bool) : M St bool :=
  if modified then
    do r <- UpdateTunnelConfiguration (AccountID tunnel) (TunnelID tunnel)
              {| Ingress := ingress; WarpRouting := WarpRouting fetched;
                 OriginRequest := OriginRequest fetched |};
    match r with
    | inr _ => ret false
    | inl _ => ret true
    end
  else ret true.

(** [AddRoutes] (the version that also maintains the CNAME records). *)
Definition AddRoutes (tunnel : TunnelConfig) (cf : CloudflareConfig)
    (hostnames : list string) (serviceURL : string) : M St unit :=
  do result <- GetTunnelConfiguration (AccountID tunnel) (TunnelID tunnel);
  match result with
  | inr _ => ret tt
  | inl fetched =>
      let '(ingress, modified) :=
        addIngress cf hostnames serviceURL (Ingress fetched) in
      do pushed <- pushIfModified tunnel fetched ingress modified;
      if pushed then
        let cnameTarget := TunnelID tunnel +:+ ".cfargotunnel.com" in
        forEach hostnames
          (fun hostname =>
             if mapBool (ExcludeDomains cf) hostname then ret tt
             else upsertTunnelDNS cf hostname cnameTarget)
      else ret tt
  end.

(** [RemoveRoutes]. *)
Definition RemoveRoutes (tunnel : TunnelConfig) (cf : CloudflareConfig)
    (hostnames : list string) : M St unit :=
  do result <- GetTunnelConfiguration (AccountID tunnel) (TunnelID tunnel);
  match result with
  | inr _ => ret tt
  | inl fetched =>
      let '(filtered, modified) :=
        removeIngress cf hostnames (Ingress fetched) in
      do pushed <- pushIfModified tunnel fetched filtered modified;
      if pushed then
        forEach hostnames
          (fun hostname =>
             if mapBool (ExcludeDomains cf) hostname then ret tt
             else deleteTunnelDNS cf hostname)
      else ret tt
  end.

End Tunnel.

(** ** The in-memory provider ([mockCloudflareAPI], [cloudflare_test.go]) *)

Record mockCloudflareAPI := {
  records : gmap string (list DNSRecord);                  (* zoneID -> records *)
  tunnelIngress : gmap string (list UnvalidatedIngressRule); (* tunnelID -> rules *)
  tunnelOrigin : gmap string string;
  tunnelWarp : gmap string (option string);
  nextID : Z;
}.

Definition newMockCloudflareAPI : mockCloudflareAPI :=
  {| records := ∅; tunnelIngress := ∅; tunnelOrigin := ∅; tunnelWarp := ∅;
     nextID := 1 |}.

Definition set_records (m : mockCloudflareAPI)
    (r : gmap string (list DNSRecord)) : mockCloudflareAPI :=
  {| records := r; tunnelIngress := tunnelIngress m;
     tunnelOrigin := tunnelOrigin m; tunnelWarp := tunnelWarp m;
     nextID := nextID m |}.

(** [m.records[zoneID]]: the nil slice for a missing zone. *)
Definition zoneRecords (m : mockCloudflareAPI) (zoneID : string)
  : list DNSRecord :=
  default [] (records m !! zoneID).

Definition filterMatches (filter rec : DNSRecord) : bool :=
  (GoString.is_empty (rec_Type filter)
   || String.eqb (rec_Type rec) (rec_Type filter))
  && (GoString.is_empty (rec_Name filter)
      || String.eqb (rec_Name rec) (rec_Name filter)).

(** Go's [int] is 64 bits wide here; [nextID++] wraps. *)
Definition wrapInt (z : Z) : Z :=
  ((z + 2 ^ 63) mod 2 ^ 64 - 2 ^ 63)%Z.

(** [fmt.Sprintf("rec_%d", n)]. *)
Definition recID (n : Z) : string :=
  "rec_" +:+ NilZero.string_of_int (Z.to_int n).

Definition withID (recordID : string) (r : DNSRecord) : DNSRecord :=
  {| rec_ID := recordID; rec_Type := rec_Type r; rec_Name := rec_Name r;
     rec_Content := rec_Content r; rec_Proxied := rec_Proxied r;
     rec_TTL := rec_TTL r |}.

(** The loop of the mock's [UpdateDNSRecord]: the first record with this ID is
    replaced; [None] when there is none. *)
Fixpoint replaceByID (recordID : string) (record : DNSRecord)
    (recs : list DNSRecord) : option (list DNSRecord) :=
  match recs with
  | [] => None
  | r :: rest =>
      if String.eqb (rec_ID r) recordID then Some (withID recordID record :: rest)
      else option_map (cons r) (replaceByID recordID record rest)
  end.

(** The loop of the mock's [DeleteDNSRecord]: the first record with this ID is
    cut out. *)
Fixpoint removeByID (recordID : string) (recs : list DNSRecord)
  : option (list DNSRecord) :=
  match recs with
  | [] => None
  | r :: rest =>
      if String.eqb (rec_ID r) recordID then Some rest
      else option_map (cons r) (removeByID recordID rest)
  end.

#[export] Instance mockAPI : CloudflareAPI mockCloudflareAPI := {
  ListDNSRecords zoneID filter := fun m =>
    (inl (List.filter (filterMatches filter) (zoneRecords m zoneID)), m);
  CreateDNSRecord zoneID record := fun m =>
    let record := withID (recID (nextID m)) record in
    (inl record,
     {| records := <[zoneID := zoneRecords m zoneID ++ [record]]> (records m);
        tunnelIngress := tunnelIngress m; tunnelOrigin := tunnelOrigin m;
        tunnelWarp := tunnelWarp m; nextID := wrapInt (nextID m + 1) |});
  UpdateDNSRecord zoneID recordID record := fun m =>
    match replaceByID recordID record (zoneRecords m zoneID) with
    | Some recs => (None, set_records m (<[zoneID := recs]> (records m)))
    | None => (Some ("record " +:+ recordID +:+ " not found"), m)
    end;
  DeleteDNSRecord zoneID recordID := fun m =>
    match removeByID recordID (zoneRecords m zoneID) with
    | Some recs => (None, set_records m (<[zoneID := recs]> (records m)))
    | None => (Some ("record " +:+ recordID +:+ " not found"), m)
    end;
  GetTunnelConfiguration accountID tunnelID := fun m =>
    (inl {| Ingress := default [] (tunnelIngress m !! tunnelID);
            WarpRouting := default None (tunnelWarp m !! tunnelID);
            OriginRequest := default "" (tunnelOrigin m !! tunnelID) |}, m);
  UpdateTunnelConfiguration accountID tunnelID config := fun m =>
    (inl config,
     {| records := records m;
        tunnelIngress := <[tunnelID := Ingress config]> (tunnelIngress m);
        tunnelOrigin := <[tunnelID := OriginRequest config]> (tunnelOrigin m);
        tunnelWarp := <[tunnelID := WarpRouting config]> (tunnelWarp m);
        nextID := nextID m |});
}.

(** ** Recording the calls made to a provider *)

Inductive Call :=
| CallList (zoneID : string) (filter : DNSRecord) (result : list DNSRecord + string)
| CallCreate (zoneID : string) (record : DNSRecord)
| CallUpdate (zoneID recordID : string) (record : DNSRecord)
| CallDelete (zoneID recordID : string)
| CallGetTunnel (accountID tunnelID : string)
                (result : TunnelConfiguration + string)
| CallPutTunnel (accountID tunnelID : string) (config : TunnelConfiguration).

(** A provider together with the calls it has received, oldest first. *)
Definition Traced (St : Type) : Type := St * list Call.

Definition traced {St A} (call : A -> Call) (c : M St A) : M (Traced St) A :=
  fun '(s, log) => let '(a, s') := c s in (a, (s', log ++ [call a])).

#[export] Instance tracedAPI {St} `{CloudflareAPI St} : CloudflareAPI (Traced St) := {
  ListDNSRecords zoneID filter :=
    traced (fun r => CallList zoneID filter r) (ListDNSRecords zoneID filter);
  CreateDNSRecord zoneID record :=
    traced (fun _ => CallCreate zoneID record) (CreateDNSRecord zoneID record);
  UpdateDNSRecord zoneID recordID record :=
    traced (fun _ => CallUpdate zoneID recordID record)
           (UpdateDNSRecord zoneID recordID record);
  DeleteDNSRecord zoneID recordID :=
    traced (fun _ => CallDelete zoneID recordID)
           (DeleteDNSRecord zoneID recordID);
  GetTunnelConfiguration accountID tunnelID :=
    traced (fun r => CallGetTunnel accountID tunnelID r)
           (GetTunnelConfiguration accountID tunnelID);
  UpdateTunnelConfiguration accountID tunnelID config :=
    traced (fun _ => CallPutTunnel accountID tunnelID config)
           (UpdateTunnelConfiguration accountID tunnelID config);
}.

(** The entry [updateContainerInfo] computes from the two address results. *)
Definition entryFor (w : Extern) (dd : DockerDiscovery) (c : Container)
    (a a6 : option IP) : ContainerInfo :=
  {| container := c; address := a; address6 := a6;
     domains := match a with
                | Some _ => (resolveDomainsByContainer w dd c).1
                | None => []
                end;
     cnameDomains := (resolveDomainsByContainer w dd c).2 |}.

(** ** Registry states *)

(** The states the registry goes through: it starts empty and is written by
    [updateContainerInfo] and [removeContainerInfo] only.  The docker daemon
    may answer differently at every update. *)
Inductive reachable : DockerDiscovery -> Prop :=
| reach_new dd : containerInfoMap dd = ∅ -> reachable dd
| reach_update w fuel dd c dd' spawned :
    reachable dd ->
    updateContainerInfo w fuel dd c = Some (dd', spawned) ->
    reachable dd'
| reach_remove dd containerID :
    reachable dd -> reachable (removeContainerInfo dd containerID).1.

(** No AAAA record among the answers written. *)
Definition noAAAA (s : Served) : Prop :=
  match s with
  | NextOrFailure => True
  | WriteMsg m _ => forall name t ip, ~ In (RR_AAAA name t ip) (Answer m)
  end.

(** ** Configured zones ([createPlugin], the [cf_zone] property) *)

(** One [cf_zone DOMAIN ZONE_ID] line: it is skipped unless it has exactly two
    non-empty arguments. *)
Definition cfZone (zones : list CloudflareZone) (args : list string)
  : list CloudflareZone :=
  match args with
  | [domain; zoneID] =>
      if GoString.is_empty domain || GoString.is_empty zoneID then zones
      else zones ++ [{| Domain := domain; ZoneID := zoneID |}]
  | _ => zones
  end.

(** The zone list the configuration block gives, one argument list per
    [cf_zone] line. *)
Definition configuredZones (lines : list (list string)) : list CloudflareZone :=
  fold_left cfZone lines [].

(** ** Reasoning about provider computations *)

(** A Hoare triple for the state monad. *)
Definition hoare {St A} (P : St -> Prop) (c : M St A) (Q : A -> St -> Prop)
  : Prop :=
  forall s, P s -> Q (c s).1 (c s).2.

(** [c] keeps the state property [I]. *)
Definition preserves {St A} (I : St -> Prop) (c : M St A) : Prop :=
  hoare I c (fun _ => I).

(** ** Ingress lists *)

(** The service of the first rule with this hostname. *)
Fixpoint firstService (hostname : string) (ingress : list UnvalidatedIngressRule)
  : option string :=
  match ingress with
  | [] => None
  | rule :: rest =>
      if String.eqb (Hostname rule) hostname then Some (Service rule)
      else firstService hostname rest
  end.

(** What the mock's [GetTunnelConfiguration] returns for a tunnel. *)
Definition mockTunnelConfig (m : mockCloudflareAPI) (tunnelID : string)
  : TunnelConfiguration :=
  {| Ingress := default [] (tunnelIngress m !! tunnelID);
     WarpRouting := default None (tunnelWarp m !! tunnelID);
     OriginRequest := default "" (tunnelOrigin m !! tunnelID) |}.

Definition withIngress (config : TunnelConfiguration)
    (ingress : list UnvalidatedIngressRule) : TunnelConfiguration :=
  {| Ingress := ingress; WarpRouting := WarpRouting config;
     OriginRequest := OriginRequest config |}.

(** The calls [AddRoutes] and [RemoveRoutes] make on the tunnel: the fetch, and
    the push when the list was modified. *)
Definition tunnelCalls (tunnel : TunnelConfig) (fetched : TunnelConfiguration)
    (result : list UnvalidatedIngressRule * bool) : list Call :=
  CallGetTunnel (AccountID tunnel) (TunnelID tunnel) (inl fetched)
  :: (if result.2
      then [CallPutTunnel (AccountID tunnel) (TunnelID tunnel)
                          (withIngress fetched result.1)]
      else []).

(** The rules that stay when [RemoveRoutes] filters. *)
Definition keptRule (removeSet : gmap string bool) (rule : UnvalidatedIngressRule)
  : bool :=
  negb (mapBool removeSet (Hostname rule)).

(** The calls that concern DNS records (not the tunnel configuration). *)
Definition isDNSCall (c : Call) : Prop :=
  match c with
  | CallGetTunnel _ _ _ | CallPutTunnel _ _ _ => False
  | _ => True
  end.

(** On the recorded mock: the ingress table is [table] and, since the log was
    [pre], only DNS calls have been made. *)
Definition ingressUntouched (table : gmap string (list UnvalidatedIngressRule))
    (pre : list Call) (st : Traced mockCloudflareAPI) : Prop :=
  tunnelIngress st.1 = table
  /\ exists calls, st.2 = pre ++ calls /\ Forall isDNSCall calls.

(** ** The upsert, as the specification words it *)

(** The write the specification asks for after the listing: none when the
    listing fails; a creation when nothing is listed; nothing when the first
    record listed already has the target as content; else an update of that
    record, by its ID. *)
Definition upsertWrites (config : CloudflareConfig) (zoneID domain : string)
    (listed : list DNSRecord + string) : list Call :=
  let record := cnameRecord domain (TargetDomain config) (Proxied config) in
  match listed with
  | inr _ => []
  | inl [] => [CallCreate zoneID record]
  | inl (rec :: _) =>
      if String.eqb (rec_Content rec) (TargetDomain config) then []
      else [CallUpdate zoneID (rec_ID rec) record]
  end.

(** The calls of one upsert run from the provider state [s]. *)
Definition upsertCalls {St} `{CloudflareAPI St} (config : CloudflareConfig)
    (zoneID domain : string) (s : St) : list Call :=
  let listed := (ListDNSRecords zoneID (cnameFilter domain) s).1 in
  CallList zoneID (cnameFilter domain) listed
  :: upsertWrites config zoneID domain listed.

(** A name [SyncDomains] works on: not excluded, and some zone matches. *)
Definition managed (config : CloudflareConfig) (domain : string) : Prop :=
  mapBool (ExcludeDomains config) domain = false
  /\ findZoneForDomain config domain <> "".

(** The CNAME records the mock holds for a name, in the name's zone. *)
Definition cnameRecords (config : CloudflareConfig) (m : mockCloudflareAPI)
    (domain : string) : list DNSRecord :=
  List.filter (filterMatches (cnameFilter domain))
              (zoneRecords m (findZoneForDomain config domain)).

(** Exactly one CNAME record for the name, pointing at the target. *)
Definition synced (config : CloudflareConfig) (m : mockCloudflareAPI)
    (domain : string) : Prop :=
  exists rec, cnameRecords config m domain = [rec]
              /\ rec_Content rec = TargetDomain config.

Definition isListCall (c : Call) : Prop :=
  match c with
  | CallList _ _ _ => True
  | _ => False
  end.

(** The same configuration with another target. *)
Definition withTarget (config : CloudflareConfig) (target : string)
  : CloudflareConfig :=
  {| TargetDomain := target; Proxied := Proxied config;
     ExcludeDomains := ExcludeDomains config; Zones := Zones config |}.

(** The record IDs of every zone are pairwise distinct. *)
Definition uniqueIDs (m : mockCloudflareAPI) : Prop :=
  forall zoneID, NoDup (map rec_ID (zoneRecords m zoneID)).

(** The update of the mock, when IDs are distinct: the record with this ID
    takes the new fields. *)
Definition replaceRecord (recordID : string) (record r : DNSRecord) : DNSRecord :=
  if String.eqb (rec_ID r) recordID then withID recordID record else r.

(** ** Calls and excluded names *)

(** The rules with an excluded hostname are, in the list pushed, those of the
    list fetched, in the same order; an empty fetched list may have gained the
    catch-all rule [AddRoutes] makes up. *)
Definition excludedRulesKept (excluded : string -> bool)
    (fetched pushed : list UnvalidatedIngressRule) : Prop :=
  let ex := fun rule => excluded (Hostname rule) in
  List.filter ex pushed = List.filter ex fetched
  \/ (fetched = [] /\ List.filter ex pushed = List.filter ex [catchAllRule]).

(** A sequence of calls in which no excluded name is the subject of a call:
    listings, creations and updates carry a name that is not excluded; a
    deletion removes a record returned by an earlier listing for such a name;
    a pushed tunnel configuration keeps the excluded hostnames' rules of the
    configuration fetched before. *)
Inductive justified (excluded : string -> bool) : list Call -> Prop :=
| just_nil : justified excluded []
| just_list calls zoneID filter result :
    justified excluded calls ->
    excluded (rec_Name filter) = false ->
    justified excluded (calls ++ [CallList zoneID filter result])
| just_create calls zoneID record :
    justified excluded calls ->
    excluded (rec_Name record) = false ->
    justified excluded (calls ++ [CallCreate zoneID record])
| just_update calls zoneID recordID record :
    justified excluded calls ->
    excluded (rec_Name record) = false ->
    justified excluded (calls ++ [CallUpdate zoneID recordID record])
| just_delete calls zoneID recordID filter listed :
    justified excluded calls ->
    In (CallList zoneID filter (inl listed)) calls ->
    excluded (rec_Name filter) = false ->
    In recordID (map rec_ID listed) ->
    justified excluded (calls ++ [CallDelete zoneID recordID])
| just_get calls accountID tunnelID result :
    justified excluded calls ->
    justified excluded (calls ++ [CallGetTunnel accountID tunnelID result])
| just_put calls accountID tunnelID fetched config :
    justified excluded calls ->
    In (CallGetTunnel accountID tunnelID (inl fetched)) calls ->
    excludedRulesKept excluded (Ingress fetched) (Ingress config) ->
    justified excluded (calls ++ [CallPutTunnel accountID tunnelID config]).

(** On a recorded provider: since the log was [pre] the calls made are
    justified, and the calls [known] are among them. *)
Definition callsJustified {St} (excluded : string -> bool)
    (pre known : list Call) (st : Traced St) : Prop :=
  exists calls, st.2 = pre ++ calls
                /\ justified excluded calls /\ incl known calls.

(** The names that are not excluded. *)
Definition notExcluded (config : CloudflareConfig) (names : list string)
  : list string :=
  List.filter (fun name => negb (mapBool (ExcludeDomains config) name)) names.

(** What [justified] says of one call [c] among [calls]. *)
Definition subjectNotExcluded (excluded : string -> bool) (calls : list Call)
    (c : Call) : Prop :=
  match c with
  | CallList _ filter _ => excluded (rec_Name filter) = false
  | CallCreate _ record => excluded (rec_Name record) = false
  | CallUpdate _ _ record => excluded (rec_Name record) = false
  | CallDelete zoneID recordID =>
      exists filter listed,
        In (CallList zoneID filter (inl listed)) calls
        /\ excluded (rec_Name filter) = false
        /\ In recordID (map rec_ID listed)
  | CallGetTunnel _ _ _ => True
  | CallPutTunnel accountID tunnelID config =>
      exists fetched,
        In (CallGetTunnel accountID tunnelID (inl fetched)) calls
        /\ excludedRulesKept excluded (Ingress fetched) (Ingress config)
  end.

(** The outcome of an operation run on a recorded provider whose log was
    [pre]: it returns, and the calls it has added are justified. *)
Definition runsJustified {St} (excluded : string -> bool)
    (op : M (Traced St) unit) (s : St) (pre : list Call) : Prop :=
  exists s' calls,
    op (s, pre) = (tt, (s', pre ++ calls))
    /\ justified excluded calls
    /\ Forall (subjectNotExcluded excluded calls) calls.


(** ** Sample data *)

(** A range that visits the entries in the order of [map_to_list]. *)
Definition sampleOrder : RangeOrder :=
  {| rangeLabels := map_to_list;
     rangeLabels_perm := fun m => Permutation_refl (map_to_list m);
     rangeNetworks := map_to_list;
     rangeNetworks_perm := fun m => Permutation_refl (map_to_list m) |}.

(** The values of [net.ParseIP] on the addresses the examples use; the docker
    client of the examples knows no other container; the names of the
    examples are ASCII, so that [MapToLower] is never reached. *)
Definition sampleExtern : Extern :=
  {| ParseIP := fun s =>
       if String.eqb s "172.18.0.5" then
         Some [Byte.x00; Byte.x00; Byte.x00; Byte.x00; Byte.x00; Byte.x00;
               Byte.x00; Byte.x00; Byte.x00; Byte.x00; Byte.xff; Byte.xff;
               Byte.xac; Byte.x12; Byte.x00; Byte.x05]
       else if String.eqb s "fd00::5" then
         Some [Byte.xfd; Byte.x00; Byte.x00; Byte.x00; Byte.x00; Byte.x00;
               Byte.x00; Byte.x00; Byte.x00; Byte.x00; Byte.x00; Byte.x00;
               Byte.x00; Byte.x00; Byte.x00; Byte.x05]
       else None;
     InspectContainer := fun _ => inr "No such container";
     MapToLower := fun s => s;
     RangeAt := fun _ => sampleOrder |}.

Definition sampleIP4 : IP :=
  [Byte.x00; Byte.x00; Byte.x00; Byte.x00; Byte.x00; Byte.x00;
   Byte.x00; Byte.x00; Byte.x00; Byte.x00; Byte.xff; Byte.xff;
   Byte.xac; Byte.x12; Byte.x00; Byte.x05].

(** The plugin of [TestCnamePriorityOverARecord]:
    [domain 177cpt.com], [network_aliases proxy],
    [traefik_cname infravm.177cpt.com]. *)
Definition priorityPlugin : DockerDiscovery :=
  {| resolvers := [LabelResolver "coredns.dockerdiscovery.host";
                   SubDomainContainerNameResolver "177cpt.com";
                   NetworkAliasesResolver "proxy"];
     containerInfoMap := ∅; ttl := 3600;
     traefikResolver := Some TraefikLabelResolver;
     traefikCNAME := "infravm.177cpt.com"; traefikA := None;
     cloudflareSyncer := false |}.

Definition proxyNetwork : gmap string ContainerNetwork :=
  {[ "proxy" := {| net_IPAddress := "172.18.0.5"; net_GlobalIPv6Address := "";
                   net_Aliases := [] |} ]}.

(** A container named [traefik] that routes its own dashboard:
    the label [traefik.http.routers.dash.rule=Host(`traefik.177cpt.com`)]. *)
Definition traefikContainer : Container :=
  {| ID := "aa155d6fd141e29256c286070d2d44b3f45f1e46822578f1e7d66c1e7981e6c7";
     Name := "traefik"; Config_Hostname := "traefik";
     Config_Labels :=
       {[ "traefik.http.routers.dash.rule" := "Host(`traefik.177cpt.com`)" ]};
     HostConfig_NetworkMode := "proxy";
     NetworkSettings_IPAddress := ""; NetworkSettings_GlobalIPv6Address := "";
     NetworkSettings_Networks := proxyNetwork |}.

Definition traefikInfo : ContainerInfo :=
  {| container := traefikContainer; address := Some sampleIP4;
     address6 := None; domains := ["traefik.177cpt.com"];
     cnameDomains := ["traefik.177cpt.com"] |}.

Definition queryFor (qtype : Z) (name : string) : Request :=
  {| QType := qtype; QName := name; ReqName := lowerBytes name |}.

(** The second container of [TestCnamePriorityOverARecord]: [whoami], whose
    router rule names [traefik.177cpt.com]. *)
Definition whoamiContainer : Container :=
  {| ID := "bb255d6fd141e29256c286070d2d44b3f45f1e46822578f1e7d66c1e7981e6c7";
     Name := "whoami"; Config_Hostname := "whoami";
     Config_Labels :=
       {[ "traefik.enable" := "true";
          "traefik.http.routers.dash.rule" := "Host(`traefik.177cpt.com`)";
          "coredns.dockerdiscovery.host" := "" ]};
     HostConfig_NetworkMode := "proxy";
     NetworkSettings_IPAddress := ""; NetworkSettings_GlobalIPv6Address := "";
     NetworkSettings_Networks := proxyNetwork |}.

(** The first container of that test: [traefik], without a router rule. *)
Definition plainTraefikContainer : Container :=
  {| ID := "aa155d6fd141e29256c286070d2d44b3f45f1e46822578f1e7d66c1e7981e6c7";
     Name := "traefik"; Config_Hostname := "traefik";
     Config_Labels := {[ "coredns.dockerdiscovery.host" := "" ]};
     HostConfig_NetworkMode := "proxy";
     NetworkSettings_IPAddress := ""; NetworkSettings_GlobalIPv6Address := "";
     NetworkSettings_Networks := proxyNetwork |}.

Definition plainTraefikInfo : ContainerInfo :=
  {| container := plainTraefikContainer; address := Some sampleIP4;
     address6 := None; domains := [""; "traefik.177cpt.com"];
     cnameDomains := [] |}.

Definition whoamiInfo : ContainerInfo :=
  {| container := whoamiContainer; address := Some sampleIP4;
     address6 := None; domains := [""; "whoami.177cpt.com"];
     cnameDomains := ["traefik.177cpt.com"] |}.

(** Two updates in a row, as the test makes them. *)
Definition updateBoth (w : Extern) (fuel : nat) (dd : DockerDiscovery)
    (c1 c2 : Container) : option DockerDiscovery :=
  match updateContainerInfo w fuel dd c1 with
  | Some (dd1, _) =>
      match updateContainerInfo w fuel dd1 c2 with
      | Some (dd2, _) => Some dd2
      | None => None
      end
  | None => None
  end.

(** A container that is attached over IPv6 only, with a router rule. *)
Definition ipv6OnlyContainer : Container :=
  {| ID := "cc355d6fd141e29256c286070d2d44b3f45f1e46822578f1e7d66c1e7981e6c7";
     Name := "sixonly"; Config_Hostname := "sixonly";
     Config_Labels :=
       {[ "traefik.http.routers.six.rule" := "Host(`six.177cpt.com`)" ]};
     HostConfig_NetworkMode := "proxy";
     NetworkSettings_IPAddress := ""; NetworkSettings_GlobalIPv6Address := "";
     NetworkSettings_Networks :=
       {[ "proxy" := {| net_IPAddress := ""; net_GlobalIPv6Address := "fd00::5";
                        net_Aliases := [] |} ]} |}.

Definition sampleIP6 : IP :=
  [Byte.xfd; Byte.x00; Byte.x00; Byte.x00; Byte.x00; Byte.x00;
   Byte.x00; Byte.x00; Byte.x00; Byte.x00; Byte.x00; Byte.x00;
   Byte.x00; Byte.x00; Byte.x00; Byte.x05].

(** The zones of [TestCloudflareFindZoneLongestMatch]. *)
Definition twoZones : CloudflareConfig :=
  {| TargetDomain := "traefik.homelab.net"; Proxied := false;
     ExcludeDomains := ∅;
     Zones := configuredZones [["net"; "Z1"]; ["homelab.net"; "Z2"]] |}.

(** The setup of the tunnel tests ([newTunnelTestSetup]): one zone, nothing
    excluded, a tunnel seeded with a catch-all rule. *)
Definition testTunnel : TunnelConfig :=
  {| TunnelID := "test-tunnel-uuid"; AccountID := "test-account-id" |}.

Definition testTunnelCf : CloudflareConfig :=
  {| TargetDomain := "traefik.homelab.net"; Proxied := false;
     ExcludeDomains := ∅;
     Zones := [{| Domain := "homelab.net"; ZoneID := "zone_1" |}] |}.

Definition seededMock : mockCloudflareAPI :=
  {| records := ∅;
     tunnelIngress := {[ "test-tunnel-uuid" := [catchAllRule] ]};
     tunnelOrigin := ∅; tunnelWarp := ∅; nextID := 1 |}.

(** ** Further definitions: answers *)

Definition rrName (rr : RR) : string :=
  match rr with
  | RR_A name _ _ | RR_AAAA name _ _ | RR_CNAME name _ _ => name
  end.

Definition rrTTL (rr : RR) : Z :=
  match rr with
  | RR_A _ t _ | RR_AAAA _ t _ | RR_CNAME _ t _ => t
  end.

(** The record types a query type may be answered with: an A query with A or
    CNAME records, an AAAA query with AAAA or CNAME records, a CNAME query
    with CNAME records. *)
Definition answersQuery (qtype : Z) (rr : RR) : Prop :=
  match rr with
  | RR_A _ _ _ => qtype = TypeA
  | RR_AAAA _ _ _ => qtype = TypeAAAA
  | RR_CNAME _ _ _ => qtype = TypeA \/ qtype = TypeAAAA \/ qtype = TypeCNAME
  end.

(** The handler answers the query itself: it builds a reply with the answer
    section [answers] and returns NOERROR. *)
Definition buildsReply (s : Served) (answers : list RR) : Prop :=
  exists m, s = WriteMsg m RcodeSuccess /\ Answer m = answers.

(** ** Further sample data *)

(** The plugin of the priority test with a Cloudflare syncer configured. *)
Definition syncingPlugin : DockerDiscovery :=
  {| resolvers := resolvers priorityPlugin; containerInfoMap := ∅; ttl := 3600;
     traefikResolver := Some TraefikLabelResolver;
     traefikCNAME := "infravm.177cpt.com"; traefikA := None;
     cloudflareSyncer := true |}.

(** That plugin after the container [traefik] has started. *)
Definition registeredTraefik : DockerDiscovery :=
  set_containerInfoMap syncingPlugin
    (<[ID traefikContainer := traefikInfo]> ∅).

(** The plugin of the priority test in [traefik_a] mode. *)
Definition aModePlugin : DockerDiscovery :=
  {| resolvers := resolvers priorityPlugin; containerInfoMap := ∅; ttl := 3600;
     traefikResolver := Some TraefikLabelResolver;
     traefikCNAME := ""; traefikA := Some sampleIP4;
     cloudflareSyncer := false |}.

(** ** Further definitions: address resolution *)

(** The error [getContainerAddress] returns when no network is selected. *)
Definition noNetworkError (networkMode : string) : string :=
  "unable to find network settings for the network " +:+ networkMode.

(** The container has no network selector label. *)
Definition noSelector (c : Container) : Prop :=
  Config_Labels c !! "coredns.dockerdiscovery.network" = None.

(** The container does not live in the host's or another container's network
    namespace. *)
Definition ownNamespace (c : Container) : Prop :=
  HostConfig_NetworkMode c <> "host"
  /\ GoString.HasPrefix (HostConfig_NetworkMode c) "container:" = false.

(** A container in the namespace of a container that cannot be inspected. *)
Definition orphanContainer : Container :=
  {| ID := "dd455d6fd141e29256c286070d2d44b3f45f1e46822578f1e7d66c1e7981e6c7";
     Name := "sidecar"; Config_Hostname := "sidecar"; Config_Labels := ∅;
     HostConfig_NetworkMode := "container:gone";
     NetworkSettings_IPAddress := ""; NetworkSettings_GlobalIPv6Address := "";
     NetworkSettings_Networks := ∅ |}.

(** A docker daemon that answers every inspection with [orphanContainer]'s
    sibling, a container pointing at itself. *)
Definition loopContainer : Container :=
  {| ID := "ee555d6fd141e29256c286070d2d44b3f45f1e46822578f1e7d66c1e7981e6c7";
     Name := "loop"; Config_Hostname := "loop"; Config_Labels := ∅;
     HostConfig_NetworkMode := "container:loop";
     NetworkSettings_IPAddress := ""; NetworkSettings_GlobalIPv6Address := "";
     NetworkSettings_Networks := ∅ |}.

Definition loopExtern : Extern :=
  {| ParseIP := ParseIP sampleExtern;
     InspectContainer := fun _ => inl loopContainer;
     MapToLower := MapToLower sampleExtern;
     RangeAt := RangeAt sampleExtern |}.

(** A container with a selector label, a top-level address and two
    attachments. *)
Definition selectorContainer : Container :=
  {| ID := "ff655d6fd141e29256c286070d2d44b3f45f1e46822578f1e7d66c1e7981e6c7";
     Name := "multi"; Config_Hostname := "multi";
     Config_Labels := {[ "coredns.dockerdiscovery.network" := "proxy" ]};
     HostConfig_NetworkMode := "bridge";
     NetworkSettings_IPAddress := "10.0.0.9";
     NetworkSettings_GlobalIPv6Address := "";
     NetworkSettings_Networks :=
       {[ "proxy" := {| net_IPAddress := "172.18.0.5";
                        net_GlobalIPv6Address := "fd00::5";
                        net_Aliases := ["multi.proxy"] |};
          "backend" := {| net_IPAddress := "10.1.0.9";
                          net_GlobalIPv6Address := "";
                          net_Aliases := [] |} ]} |}.

(** ** Further definitions: resolvers *)

(** The byte [c] occurs in [s]. *)
Fixpoint hasByte (c : ascii) (s : string) : bool :=
  match s with
  | String c' s' => Ascii.eqb c' c || hasByte c s'
  | EmptyString => false
  end.

(** Some byte of [s] is one of the letters [A] to [Z]. *)
Fixpoint hasUpper (s : string) : bool :=
  match s with
  | String c s' =>
      ((65 <=? nat_of_ascii c)%nat && (nat_of_ascii c <=? 90)%nat)
      || hasUpper s'
  | EmptyString => false
  end.

(** The text of a router rule for [host], followed by [rest]. *)
Definition hostRule (host rest : string) : string :=
  "Host(`" +:+ host +:+ "`)" +:+ rest.
Definition hostSNIRule (host rest : string) : string :=
  "HostSNI(`" +:+ host +:+ "`)" +:+ rest.

(** A plugin with an empty registry and the given resolvers. *)
Definition pluginWith (rs : list ContainerDomainResolver) : DockerDiscovery :=
  {| resolvers := rs; containerInfoMap := ∅; ttl := 3600;
     traefikResolver := None; traefikCNAME := ""; traefikA := None;
     cloudflareSyncer := false |}.

(** The container of [TestMultipleNetworksDockerDiscovery]'s compose case:
    project [cproject], service [cservice]. *)
Definition composeContainer : Container :=
  {| ID := "e355d6fd141e29256c286070d2d44b3f45f1e46822578f1e7d66c1e7981e6c7a";
     Name := "/cproject_cservice_1"; Config_Hostname := "cservice";
     Config_Labels := {[ "com.docker.compose.project" := "cproject";
                         "com.docker.compose.service" := "cservice" ]};
     HostConfig_NetworkMode := "proxy";
     NetworkSettings_IPAddress := ""; NetworkSettings_GlobalIPv6Address := "";
     NetworkSettings_Networks := proxyNetwork |}.

Definition composePlugin : DockerDiscovery :=
  pluginWith [ComposeResolver "compose.loc"].

Definition composeInfo : ContainerInfo :=
  {| container := composeContainer; address := Some sampleIP4;
     address6 := None; domains := ["cservice.cproject.compose.loc"];
     cnameDomains := [] |}.

Definition registeredCompose : DockerDiscovery :=
  set_containerInfoMap composePlugin
    (<[ID composeContainer := composeInfo]> ∅).

(** [n] slashes. *)
Fixpoint slashes (n : nat) : string :=
  match n with
  | O => EmptyString
  | S n' => String "/" (slashes n')
  end.

(** ** Further definitions: the provider's records *)

(** [RemoveDomains] works on the name [d] and finds the record [r] of the zone
    [zoneID] when it lists the name's records. *)
Definition removes (config : CloudflareConfig) (zoneID : string) (r : DNSRecord)
    (d : string) : bool :=
  negb (mapBool (ExcludeDomains config) d)
  && negb (GoString.is_empty (findZoneForDomain config d))
  && String.eqb (findZoneForDomain config d) zoneID
  && filterMatches (cnameFilter d) r.

Definition removedBy (config : CloudflareConfig) (names : list string)
    (zoneID : string) (r : DNSRecord) : bool :=
  existsb (removes config zoneID r) names.

(** The provider of [TestCloudflareRemoveDomains] after its [SyncDomains]:
    two records in the zone. *)
Definition twoRecordsMock : mockCloudflareAPI :=
  {| records :=
       {[ "zone_1" :=
            [ {| rec_ID := "rec_1"; rec_Type := "CNAME";
                 rec_Name := "app.homelab.net";
                 rec_Content := "traefik.homelab.net";
                 rec_Proxied := Some false; rec_TTL := 1 |};
              {| rec_ID := "rec_2"; rec_Type := "CNAME";
                 rec_Name := "git.homelab.net";
                 rec_Content := "traefik.homelab.net";
                 rec_Proxied := Some false; rec_TTL := 1 |} ] ]};
     tunnelIngress := ∅; tunnelOrigin := ∅; tunnelWarp := ∅; nextID := 3 |}.

(** ** Further definitions: a provider whose tunnel endpoints can be down *)

(** The in-memory provider behind tunnel endpoints that fail when marked
    down; it stands for the errors the real client returns. *)
Record Outage := {
  getDown : bool;
  putDown : bool;
}.

Definition lifted {A} (o : Outage) (r : A * mockCloudflareAPI)
  : A * (Outage * mockCloudflareAPI) :=
  (r.1, (o, r.2)).

#[export] Instance outageAPI : CloudflareAPI (Outage * mockCloudflareAPI) := {
  ListDNSRecords zoneID filter := fun '(o, m) =>
    lifted o (ListDNSRecords zoneID filter m);
  CreateDNSRecord zoneID record := fun '(o, m) =>
    lifted o (CreateDNSRecord zoneID record m);
  UpdateDNSRecord zoneID recordID record := fun '(o, m) =>
    lifted o (UpdateDNSRecord zoneID recordID record m);
  DeleteDNSRecord zoneID recordID := fun '(o, m) =>
    lifted o (DeleteDNSRecord zoneID recordID m);
  GetTunnelConfiguration accountID tunnelID := fun '(o, m) =>
    if getDown o then (inr "connection refused", (o, m))
    else lifted o (GetTunnelConfiguration accountID tunnelID m);
  UpdateTunnelConfiguration accountID tunnelID config := fun '(o, m) =>
    if putDown o then (inr "connection refused", (o, m))
    else lifted o (UpdateTunnelConfiguration accountID tunnelID config m);
}.

(** The [traefik] container after it was disconnected from its network: the
    router rule is there, an address is not. *)
Definition detachedTraefik : Container :=
  {| ID := "aa155d6fd141e29256c286070d2d44b3f45f1e46822578f1e7d66c1e7981e6c7";
     Name := "traefik"; Config_Hostname := "traefik";
     Config_Labels :=
       {[ "traefik.http.routers.dash.rule" := "Host(`traefik.177cpt.com`)" ]};
     HostConfig_NetworkMode := "proxy";
     NetworkSettings_IPAddress := ""; NetworkSettings_GlobalIPv6Address := "";
     NetworkSettings_Networks := ∅ |}.

(** The routes of [TestTunnelRemoveRoutes], without the catch-all. *)
Definition twoRoutes : list UnvalidatedIngressRule :=
  [{| Hostname := "app.homelab.net"; Service := "http://localhost:8080" |};
   {| Hostname := "git.homelab.net"; Service := "http://localhost:8080" |}].

(** The container [c] with the network selector label set as [selector] says:
    to the name given, or absent. *)
Definition withSelector (selector : option string) (c : Container) : Container :=
  {| ID := ID c; Name := Name c; Config_Hostname := Config_Hostname c;
     Config_Labels :=
       match selector with
       | Some netName =>
           <["coredns.dockerdiscovery.network" := netName]> (Config_Labels c)
       | None => delete "coredns.dockerdiscovery.network" (Config_Labels c)
       end;
     HostConfig_NetworkMode := HostConfig_NetworkMode c;
     NetworkSettings_IPAddress := NetworkSettings_IPAddress c;
     NetworkSettings_GlobalIPv6Address := NetworkSettings_GlobalIPv6Address c;
     NetworkSettings_Networks := NetworkSettings_Networks c |}.


(* ===================================================================== *)
(** * Part II: properties                                                 *)
(* ===================================================================== *)

(** ** Lookup by name *)

Lemma matchesAny_true ds name :
  matchesAny ds name = true <-> exists d, In d ds /\ d +:+ "." = name.
Proof.
  unfold matchesAny. rewrite existsb_exists.
  split; intros (d & Hin & Heq); exists d; split; auto;
    now apply String.eqb_eq.
Qed.

Lemma matchesAny_false ds name :
  matchesAny ds name = false <-> forall d, In d ds -> d +:+ "." <> name.
Proof.
  rewrite <- not_true_iff_false, matchesAny_true. split.
  - intros Hno d Hin Heq. apply Hno. now exists d.
  - intros Hall (d & Hin & Heq). exact (Hall d Hin Heq).
Qed.

(** A result comes from an entry that stores the name read without its final
    dot, in the list the flag names. *)
Lemma containerInfoByDomain_Some entries name res :
  containerInfoByDomain entries name = Some res ->
  In (containerInfo res) entries
  /\ exists d, d +:+ "." = name
       /\ In d (if isCNAME res then cnameDomains (containerInfo res)
                else domains (containerInfo res)).
Proof.
  induction entries as [|ci rest IH]; simpl; [discriminate|].
  destruct (matchesAny (domains ci) name) eqn:Hp.
  - intros [= <-]. simpl. split; [now left|].
    apply matchesAny_true in Hp as (d & Hin & Heq). now exists d.
  - destruct (matchesAny (cnameDomains ci) name) eqn:Hc.
    + intros [= <-]. simpl. split; [now left|].
      apply matchesAny_true in Hc as (d & Hin & Heq). now exists d.
    + intros H. destruct (IH H) as [Hin Hd]. split; [now right | exact Hd].
Qed.

Lemma containerInfoByDomain_None entries name :
  containerInfoByDomain entries name = None <->
  forall ci d, In ci entries -> In d (domains ci) \/ In d (cnameDomains ci) ->
               d +:+ "." <> name.
Proof.
  induction entries as [|ci rest IH]; simpl.
  - split; [intros _ ci d [] | reflexivity].
  - destruct (matchesAny (domains ci) name) eqn:Hp.
    { split; [discriminate|]. intros Hall.
      apply matchesAny_true in Hp as (d & Hin & Heq).
      exfalso. apply (Hall ci d); auto. }
    destruct (matchesAny (cnameDomains ci) name) eqn:Hc.
    { split; [discriminate|]. intros Hall.
      apply matchesAny_true in Hc as (d & Hin & Heq).
      exfalso. apply (Hall ci d); auto. }
    rewrite IH. rewrite matchesAny_false in Hp, Hc. split.
    + intros Hall ci' d [<-|Hin] [Hd|Hd]; eauto.
    + intros Hall ci' d Hin Hd. apply (Hall ci' d); auto.
Qed.

(** A plain domain of the first matching entry wins over its redirect
    domains. *)
Lemma containerInfoByDomain_plain_first ci rest name :
  matchesAny (domains ci) name = true ->
  containerInfoByDomain (ci :: rest) name
  = Some {| containerInfo := ci; isCNAME := false |}.
Proof. intros H. simpl. now rewrite H. Qed.

Lemma length_append (s t : string) :
  String.length (s +:+ t) = String.length s + String.length t.
Proof. induction s; simpl; auto. Qed.

Lemma from_append_length (s t : string) :
  GoString.from (String.length s) (s +:+ t) = t.
Proof. induction s; simpl; auto. Qed.

Lemma HasSuffix_append (s t : string) : GoString.HasSuffix (s +:+ t) t = true.
Proof.
  unfold GoString.HasSuffix. rewrite length_append.
  replace (String.length s + String.length t - String.length t)
    with (String.length s) by lia.
  rewrite from_append_length, String.eqb_refl, andb_true_r.
  apply Nat.leb_le. lia.
Qed.

Lemma iteration_of_singleton dd k info entries :
  map_to_list (containerInfoMap dd) = [(k, info)] ->
  iteration_of dd entries -> entries = [info].
Proof.
  unfold iteration_of. intros -> H. simpl in H.
  symmetry in H. now apply Permutation_singleton_l in H.
Qed.

Lemma ServeDNS_no_match dd entries r :
  containerInfoByDomain entries (QName r) = None ->
  ServeDNS dd entries r = NextOrFailure.
Proof.
  intros H. unfold ServeDNS, collectAnswers. rewrite H.
  repeat (destruct (_ =? _)%Z; try reflexivity).
Qed.

(** ** Precedence between plain and redirect domains *)

(** C1 (the code departs from the claim).  A container named [traefik] that
    carries the router rule [Host(`traefik.177cpt.com`)] is registered with
    that name both as a plain and as a redirect domain.  Whatever the
    iteration order, the lookup of [traefik.177cpt.com.] is classified as
    plain ([isCNAME = false]); the A query is answered with the container's
    own address and the CNAME query is passed to the next plugin. *)
Theorem plain_domain_shadows_redirect :
  exists dd,
    updateContainerInfo sampleExtern 1 priorityPlugin traefikContainer
    = Some (dd, None)
    /\ map_to_list (containerInfoMap dd) = [(ID traefikContainer, traefikInfo)]
    /\ forall entries, iteration_of dd entries ->
         containerInfoByDomain entries "traefik.177cpt.com."
         = Some {| containerInfo := traefikInfo; isCNAME := false |}
         /\ ServeDNS dd entries (queryFor TypeA "traefik.177cpt.com.")
            = WriteMsg (reply true [RR_A "traefik.177cpt.com." 3600
                                         (Some sampleIP4)]) RcodeSuccess
         /\ ServeDNS dd entries (queryFor TypeCNAME "traefik.177cpt.com.")
            = NextOrFailure.
Proof.
  eexists. split; [vm_compute; reflexivity|].
  split; [vm_compute; reflexivity|].
  intros entries Hit.
  apply (iteration_of_singleton _ (ID traefikContainer) traefikInfo) in Hit;
    [|vm_compute; reflexivity].
  subst entries. repeat split; vm_compute; reflexivity.
Qed.

(** The registry of [TestCnamePriorityOverARecord]: the answer depends on the
    order in which the two entries are visited. *)
Lemma priority_test_depends_on_order :
  exists dd,
    updateBoth sampleExtern 1 priorityPlugin plainTraefikContainer whoamiContainer
    = Some dd
    /\ iteration_of dd [plainTraefikInfo; whoamiInfo]
    /\ iteration_of dd [whoamiInfo; plainTraefikInfo]
    /\ containerInfoByDomain [plainTraefikInfo; whoamiInfo] "traefik.177cpt.com."
       = Some {| containerInfo := plainTraefikInfo; isCNAME := false |}
    /\ containerInfoByDomain [whoamiInfo; plainTraefikInfo] "traefik.177cpt.com."
       = Some {| containerInfo := whoamiInfo; isCNAME := true |}.
Proof.
  eexists. split; [vm_compute; reflexivity|].
  assert (Hl : exists l, (map_to_list (containerInfoMap
            {| resolvers := resolvers priorityPlugin;
               containerInfoMap :=
                 <[ID whoamiContainer := whoamiInfo]>
                   (<[ID plainTraefikContainer := plainTraefikInfo]> ∅);
               ttl := 3600; traefikResolver := Some TraefikLabelResolver;
               traefikCNAME := "infravm.177cpt.com"; traefikA := None;
               cloudflareSyncer := false |})).*2 = l
            /\ (l = [plainTraefikInfo; whoamiInfo]
                \/ l = [whoamiInfo; plainTraefikInfo])).
  { eexists. split; [vm_compute; reflexivity|]. auto. }
  destruct Hl as (l & Hl & Hor).
  assert (Hp : [plainTraefikInfo; whoamiInfo] ≡ₚ l).
  { destruct Hor as [-> | ->]; [reflexivity | apply perm_swap]. }
  split; [|split; [|split; vm_compute; reflexivity]].
  - unfold iteration_of. etransitivity; [exact Hp|].
    rewrite <- Hl. vm_compute. reflexivity.
  - unfold iteration_of. etransitivity; [apply perm_swap|].
    etransitivity; [exact Hp|]. rewrite <- Hl. vm_compute. reflexivity.
Qed.

(** ** AAAA queries *)

(** C2.  An AAAA query resolved to a non-redirect entry that has an IPv4
    address and no IPv6 address is answered by the handler itself: an
    authoritative reply with rcode NOERROR and an empty answer section; the
    query is not passed on. *)
Theorem aaaa_nodata_for_ipv4_only dd entries r res ip :
  QType r = TypeAAAA ->
  containerInfoByDomain entries (QName r) = Some res ->
  isCNAME res = false ->
  address (containerInfo res) = Some ip ->
  address6 (containerInfo res) = None ->
  exists m,
    ServeDNS dd entries r = WriteMsg m RcodeSuccess
    /\ Authoritative m = true /\ RecursionAvailable m = false
    /\ Rcode m = RcodeSuccess /\ Answer m = [].
Proof.
  intros Hq Hres Hc H4 H6.
  exists (reply false []). split; [|now repeat split].
  unfold ServeDNS, collectAnswers. rewrite Hq, Hres, Hc, H4, H6. reflexivity.
Qed.

Lemma aaaa_nodata_witness :
  exists m,
    ServeDNS priorityPlugin [whoamiInfo] (queryFor TypeAAAA "whoami.177cpt.com.")
    = WriteMsg m RcodeSuccess
    /\ Authoritative m = true /\ RecursionAvailable m = false
    /\ Rcode m = RcodeSuccess /\ Answer m = [].
Proof.
  apply (aaaa_nodata_for_ipv4_only priorityPlugin [whoamiInfo]
           (queryFor TypeAAAA "whoami.177cpt.com.")
           {| containerInfo := whoamiInfo; isCNAME := false |} sampleIP4);
    reflexivity.
Defined.

(** ** Exact matching *)

(** C9.  A name is found exactly when some stored domain followed by one dot
    is that name, byte for byte; so a name without the final dot, or one that
    only differs in letter case from the stored domain, finds nothing, and
    the query goes to the next plugin. *)
Theorem lookup_is_exact_match entries name :
  (containerInfoByDomain entries name <> None <->
     exists ci d, In ci entries
       /\ (In d (domains ci) \/ In d (cnameDomains ci))
       /\ name = d +:+ ".")
  /\ (GoString.HasSuffix name "." = false ->
      containerInfoByDomain entries name = None)
  /\ (forall dd r, containerInfoByDomain entries (QName r) = None ->
        ServeDNS dd entries r = NextOrFailure)
  /\ containerInfoByDomain [whoamiInfo] "whoami.177cpt.com." <> None
  /\ containerInfoByDomain [whoamiInfo] "Whoami.177cpt.com." = None
  /\ containerInfoByDomain [whoamiInfo] "whoami.177cpt.com" = None.
Proof.
  assert (Hiff : containerInfoByDomain entries name <> None <->
     exists ci d, In ci entries
       /\ (In d (domains ci) \/ In d (cnameDomains ci))
       /\ name = d +:+ ".").
  { split.
    - destruct (containerInfoByDomain entries name) as [res|] eqn:H; [|congruence].
      intros _. apply containerInfoByDomain_Some in H as (Hin & d & Heq & Hd).
      exists (containerInfo res), d. split; [exact Hin|]. split; [|now symmetry].
      destruct (isCNAME res); auto.
    - intros (ci & d & Hin & Hd & ->) Hnone.
      rewrite containerInfoByDomain_None in Hnone.
      now apply (Hnone ci d Hin Hd). }
  split; [exact Hiff|]. split; [|split; [|repeat split; vm_compute; congruence]].
  - intros Hdot. apply containerInfoByDomain_None.
    intros ci d _ _ <-. now rewrite HasSuffix_append in Hdot.
  - intros dd r. apply ServeDNS_no_match.
Qed.

(** ** Registry updates *)

Lemma delete_if_exists (m : gmap string ContainerInfo) k :
  (if bool_decide (is_Some (m !! k)) then delete k m else m) = delete k m.
Proof.
  case_bool_decide as H; [reflexivity|].
  symmetry. apply delete_id. now apply eq_None_not_Some.
Qed.

Lemma length_pos_nil {A} (l : list A) : (0 <? length l)%nat = false <-> l = [].
Proof. destruct l; split; intros H; try reflexivity; discriminate. Qed.

(** When the IPv4 resolution yields no address the update returns, whatever
    the IPv6 resolution would do, and keeps the redirect domains only. *)
Lemma update_without_address w fuel dd c err :
  getContainerAddress w fuel c false = Some (None, err) ->
  exists spawned,
    updateContainerInfo w fuel dd c
    = Some (set_containerInfoMap dd
              (if (0 <? length (resolveDomainsByContainer w dd c).2)%nat
               then <[ID c := entryFor w dd c None None]>
                      (delete (ID c) (containerInfoMap dd))
               else delete (ID c) (containerInfoMap dd)),
            spawned).
Proof.
  intros H4. unfold updateContainerInfo, entryFor.
  rewrite delete_if_exists, H4.
  destruct (resolveDomainsByContainer w dd c) as [dn cn]. simpl.
  assert (Hd : (0 <? length (if (0 <? length dn)%nat then [] else dn))%nat
               = false).
  { destruct dn; reflexivity. }
  rewrite Hd. simpl.
  destruct (0 <? length cn)%nat eqn:Hc; eexists; try reflexivity.
  do 4 f_equal. destruct dn; reflexivity.
Qed.

(** What a returned update has stored. *)
Lemma update_result w fuel dd c dd' spawned :
  updateContainerInfo w fuel dd c = Some (dd', spawned) ->
  exists a err a6,
    getContainerAddress w fuel c false = Some (a, err)
    /\ (a = None -> a6 = None)
    /\ containerInfoMap dd'
       = if ((0 <? length (domains (entryFor w dd c a a6)))%nat
             || (0 <? length (cnameDomains (entryFor w dd c a a6)))%nat)
         then <[ID c := entryFor w dd c a a6]> (delete (ID c) (containerInfoMap dd))
         else delete (ID c) (containerInfoMap dd).
Proof.
  unfold updateContainerInfo, entryFor. rewrite delete_if_exists.
  destruct (resolveDomainsByContainer w dd c) as [dn cn]. simpl.
  destruct (getContainerAddress w fuel c false) as [[a err]|]; [|discriminate].
  destruct a as [ip|].
  - destruct (getContainerAddress w fuel c true) as [[a6 err6]|]; [|discriminate].
    intros H. exists (Some ip), err, a6. split; [reflexivity|].
    split; [discriminate|].
    destruct (_ || _); injection H as <- _; reflexivity.
  - intros H. exists None, err, None. split; [reflexivity|].
    split; [reflexivity|].
    replace (if (0 <? length dn)%nat then [] else dn) with (@nil string) in H
      by (destruct dn; reflexivity).
    simpl in *. destruct (0 <? length cn)%nat; injection H as <- _; reflexivity.
Qed.

(** C7.  The domains of a container are those its resolvers give: the plain
    domains are the domains of the resolver chain, in the order of the chain,
    the redirect domains those of the traefik resolver, whatever address
    resolution gives.  When the IPv4 resolution fails or yields no address
    the update still returns: the plain domains are dropped and, if there is
    a redirect domain, a redirect-only entry is stored.  With an IPv4
    address the entry holds all the domains.  When no domain is left no
    entry is stored and the container's former entry is gone.  Other
    containers' entries are untouched. *)
Theorem update_drops_plain_keeps_redirect w fuel dd c :
  let plain :=
    concat (imap (fun i resolver => (resolver w (RangeAt w i) c).1)
                 (resolvers dd)) in
  let redirect :=
    match traefikResolver dd with
    | Some t => (t w (RangeAt w (length (resolvers dd))) c).1
    | None => []
    end in
  let spawned :=
    if cloudflareSyncer dd && (0 <? length redirect)%nat
    then Some redirect else None in
  let former := delete (ID c) (containerInfoMap dd) in
  (forall err, getContainerAddress w fuel c false = Some (None, err) ->
     updateContainerInfo w fuel dd c
     = Some (set_containerInfoMap dd
               (if (0 <? length redirect)%nat
                then <[ID c := {| container := c; address := None;
                                  address6 := None; domains := [];
                                  cnameDomains := redirect |}]> former
                else former),
             spawned))
  /\ (forall ip err r6,
        getContainerAddress w fuel c false = Some (Some ip, err) ->
        getContainerAddress w fuel c true = Some r6 ->
        updateContainerInfo w fuel dd c
        = Some (set_containerInfoMap dd
                  (if (0 <? length plain)%nat || (0 <? length redirect)%nat
                   then <[ID c := {| container := c; address := Some ip;
                                     address6 := r6.1; domains := plain;
                                     cnameDomains := redirect |}]> former
                   else former),
                if (0 <? length plain)%nat || (0 <? length redirect)%nat
                then spawned else None))
  /\ (forall dd' spawned',
        updateContainerInfo w fuel dd c = Some (dd', spawned') ->
        (forall id, id <> ID c ->
           containerInfoMap dd' !! id = containerInfoMap dd !! id)
        /\ match containerInfoMap dd' !! ID c with
           | Some info =>
               container info = c
               /\ cnameDomains info = redirect
               /\ (domains info = [] \/
                   domains info = plain /\ address info <> None)
               /\ (domains info <> [] \/ cnameDomains info <> [])
           | None =>
               redirect = []
               /\ (plain = [] \/
                   exists err,
                     getContainerAddress w fuel c false = Some (None, err))
           end).
Proof.
  intros plain redirect spawned former.
  assert (Hres : resolveDomainsByContainer w dd c = (plain, redirect))
    by reflexivity.
  split; [|split].
  - intros err H4. unfold updateContainerInfo.
    rewrite delete_if_exists, Hres, H4.
    replace (if (0 <? length plain)%nat then [] else plain) with (@nil string)
      by (destruct plain; reflexivity).
    simpl. subst spawned. destruct (0 <? length redirect)%nat; [reflexivity|].
    now rewrite andb_false_r.
  - intros ip err [a6 err6] H4 H6. unfold updateContainerInfo.
    rewrite delete_if_exists, Hres, H4, H6. simpl.
    subst spawned. destruct (0 <? length plain)%nat; simpl; [reflexivity|].
    destruct (0 <? length redirect)%nat; reflexivity.
  - intros dd' sp Hu.
    destruct (update_result _ _ _ _ _ _ Hu) as (a & err & a6 & H4 & Ha6 & ->).
    split.
    + intros id Hne. destruct (_ || _).
      * rewrite lookup_insert_ne, lookup_delete_ne; auto.
      * rewrite lookup_delete_ne; auto.
    + destruct (_ || _) eqn:Hor.
      * rewrite lookup_insert_eq. simpl. repeat split.
        -- destruct a; [right; split; [reflexivity | discriminate] | now left].
        -- apply orb_true_iff in Hor as [H|H]; [left | right];
             intros Hnil; simpl in H; rewrite Hnil in H; discriminate.
      * rewrite lookup_delete_eq. apply orb_false_iff in Hor as [H1 H2].
        apply length_pos_nil in H1, H2. simpl in H1, H2. split; [exact H2|].
        destruct a; [now left | right; now exists err].
Qed.

(** The disconnected [traefik] container: with [domain 177cpt.com],
    [network_aliases proxy] and [traefik_cname] configured, the plain domain
    [traefik.177cpt.com] of the chain is dropped and the entry stored holds
    the redirect domain of the router rule only. *)
Lemma update_drops_plain_keeps_redirect_witness :
  updateContainerInfo sampleExtern 1 priorityPlugin detachedTraefik
  = Some (set_containerInfoMap priorityPlugin
            (<[ID detachedTraefik :=
                 {| container := detachedTraefik; address := None;
                    address6 := None; domains := [];
                    cnameDomains := ["traefik.177cpt.com"] |}]>
               (delete (ID detachedTraefik) ∅)),
          None).
Proof.
  destruct (update_drops_plain_keeps_redirect sampleExtern 1 priorityPlugin
              detachedTraefik) as [Hnone _].
  exact (Hnone (Some "unable to find network settings for the network proxy")
               eq_refl).
Defined.

(** ** IPv6 addresses *)

Lemma reachable_address6 dd :
  reachable dd ->
  forall id info, containerInfoMap dd !! id = Some info ->
                  address6 info <> None -> address info <> None.
Proof.
  induction 1 as [dd Hempty | w fuel dd c dd' sp Hr IH Hu | dd cid Hr IH];
    intros id info Hl H6.
  - rewrite Hempty, lookup_empty in Hl. discriminate.
  - destruct (update_result _ _ _ _ _ _ Hu) as (a & err & a6 & _ & Ha6 & Hm).
    rewrite Hm in Hl. destruct (_ || _).
    + apply lookup_insert_Some in Hl as [[_ <-] | [_ Hl]].
      * simpl in *. intros ->. now apply H6, Ha6.
      * apply lookup_delete_Some in Hl as [_ Hl]. eauto.
    + apply lookup_delete_Some in Hl as [_ Hl]. eauto.
  - unfold removeContainerInfo in Hl.
    destruct (containerInfoMap dd !! cid); simpl in Hl.
    + apply lookup_delete_Some in Hl as [_ Hl]. eauto.
    + eauto.
Qed.

Lemma selectNetwork_lookup netName c network :
  selectNetwork netName c = Some network ->
  exists n, NetworkSettings_Networks c !! n = Some network.
Proof.
  unfold selectNetwork. destruct netName as [n|].
  - intros H. now exists n.
  - destruct (map_to_list (NetworkSettings_Networks c)) as [|[k v] [|? ?]] eqn:Hl;
      try discriminate.
    intros [= <-]. exists k. apply elem_of_map_to_list. rewrite Hl. left.
Qed.

(** A container without any IPv4 address text, not living in another
    container's namespace, resolves to no IPv4 address. *)
Lemma no_ipv4_no_address w fuel c :
  ParseIP w "" = None ->
  NetworkSettings_IPAddress c = "" ->
  (forall n network, NetworkSettings_Networks c !! n = Some network ->
                     net_IPAddress network = "") ->
  GoString.HasPrefix (HostConfig_NetworkMode c) "container:" = false ->
  exists err, getContainerAddress w (S fuel) c false = Some (None, err).
Proof.
  intros Hparse Htop Hnets Hmode. unfold getContainerAddress. simpl.
  rewrite Htop, Hmode. simpl. rewrite andb_false_r.
  destruct (String.eqb _ "host"); [now eexists|].
  destruct (selectNetwork _ c) as [network|] eqn:Hsel; [|now eexists].
  simpl. apply selectNetwork_lookup in Hsel as [n Hn].
  rewrite (Hnets n network Hn), Hparse. now eexists.
Qed.

Lemma redirect_only_no_AAAA dd entries r res :
  QType r = TypeAAAA ->
  containerInfoByDomain entries (QName r) = Some res ->
  domains (containerInfo res) = [] ->
  noAAAA (ServeDNS dd entries r).
Proof.
  intros Hq Hres Hd.
  assert (Hc : isCNAME res = true).
  { apply containerInfoByDomain_Some in Hres as (_ & d & _ & Hin).
    destruct (isCNAME res); [reflexivity|]. rewrite Hd in Hin. destruct Hin. }
  unfold ServeDNS, collectAnswers. rewrite Hq, Hres, Hc. simpl.
  destruct (negb _); simpl; [|exact I].
  intros name t ip [H|[]]. discriminate.
Qed.

(** C10.  The IPv6 address is only resolved once the IPv4 resolution has given
    an address: every stored entry with an IPv6 address has an IPv4 address.
    A container whose IPv4 resolution gives nothing (reachable over IPv6 or
    not) loses its plain domains; it is stored, if at all, as a redirect-only
    entry without addresses, and an AAAA query resolved to that entry is never
    answered with an AAAA record. *)
Theorem ipv6_only_after_ipv4 :
  (forall dd, reachable dd ->
     forall id info, containerInfoMap dd !! id = Some info ->
                     address6 info <> None -> address info <> None)
  /\ (forall w fuel dd c err,
        getContainerAddress w fuel c false = Some (None, err) ->
        exists dd' spawned,
          updateContainerInfo w fuel dd c = Some (dd', spawned)
          /\ forall info, containerInfoMap dd' !! ID c = Some info ->
               domains info = [] /\ address info = None
               /\ address6 info = None /\ cnameDomains info <> []
               /\ forall dd'' entries r res,
                    QType r = TypeAAAA ->
                    containerInfoByDomain entries (QName r) = Some res ->
                    containerInfo res = info ->
                    noAAAA (ServeDNS dd'' entries r))
  /\ getContainerAddress sampleExtern 1 ipv6OnlyContainer true
     = Some (Some sampleIP6, None)
  /\ getContainerAddress sampleExtern 1 ipv6OnlyContainer false
     = Some (None, None)
  /\ exists dd',
       updateContainerInfo sampleExtern 1 priorityPlugin ipv6OnlyContainer
       = Some (dd', None)
       /\ containerInfoMap dd' !! ID ipv6OnlyContainer
          = Some {| container := ipv6OnlyContainer; address := None;
                    address6 := None; domains := [];
                    cnameDomains := ["six.177cpt.com"] |}.
Proof.
  split; [exact reachable_address6|].
  split; [|split; [vm_compute; reflexivity|
           split; [vm_compute; reflexivity|
                   eexists; split; vm_compute; reflexivity]]].
  intros w fuel dd c err H4.
  destruct (update_without_address w fuel dd c err H4) as [sp Hu].
  eexists _, sp. split; [exact Hu|]. simpl. intros info Hl.
  destruct (0 <? length _)%nat eqn:Hc.
  - rewrite lookup_insert_eq in Hl. injection Hl as <-. simpl.
    repeat split.
    + intros Hnil. simpl in Hc. rewrite Hnil in Hc. discriminate.
    + intros dd'' entries r res Hq Hres Hinfo.
      apply (redirect_only_no_AAAA dd'' entries r res Hq Hres).
      now rewrite Hinfo.
  - rewrite lookup_delete_eq in Hl. discriminate.
Qed.

(** ** Zone selection *)

Lemma from_get i : forall d,
  i < String.length d ->
  exists c, String.get i d = Some c
            /\ GoString.from i d = String c (GoString.from (S i) d).
Proof.
  induction i as [|i IH]; intros [|c d] Hlt; simpl in *; try lia.
  - now exists c.
  - destruct (IH d ltac:(lia)) as (c' & Hg & Hf). exists c'. split; [exact Hg|].
    exact Hf.
Qed.

Lemma from_split i : forall d,
  i <= String.length d -> exists p, d = p +:+ GoString.from i d.
Proof.
  induction i as [|i IH]; intros d Hle.
  - now exists "".
  - destruct d as [|c d]; simpl in *; [lia|].
    destruct (IH d ltac:(lia)) as [p Hp]. exists (String c p).
    change (String c d = String c (p +:+ GoString.from i d)). now f_equal.
Qed.

Lemma HasSuffix_true d s :
  GoString.HasSuffix d s = true <-> exists p, d = p +:+ s.
Proof.
  split.
  - unfold GoString.HasSuffix. intros H. apply andb_true_iff in H as [Hlen Heq].
    apply Nat.leb_le in Hlen. apply String.eqb_eq in Heq.
    destruct (from_split (String.length d - String.length s) d ltac:(lia))
      as [p Hp].
    exists p. now rewrite <- Heq.
  - intros [p ->]. apply HasSuffix_append.
Qed.

(** The two ways of writing the test agree. *)
Lemma zoneMatchesTunnel_eq domain zone :
  zoneMatchesTunnel domain zone = zoneMatches domain zone.
Proof.
  unfold zoneMatchesTunnel, zoneMatches, GoString.HasSuffix, GoString.index.
  f_equal.
  rewrite length_append. change (String.length ".") with 1.
  set (ld := String.length domain). set (lz := String.length (Domain zone)).
  destruct (Nat.ltb_spec lz ld) as [Hlt|Hge].
  - replace (1 + lz <=? ld)%nat with true by (symmetry; apply Nat.leb_le; lia).
    destruct (from_get (ld - lz - 1) domain ltac:(lia)) as (c & Hg & Hf).
    replace (ld - (1 + lz)) with (ld - lz - 1) by lia.
    rewrite Hg, Hf. replace (S (ld - lz - 1)) with (ld - lz) by lia.
    change ("." +:+ Domain zone) with (String "." (Domain zone)).
    apply eq_true_iff_eq.
    rewrite !andb_true_iff, Ascii.eqb_eq, !String.eqb_eq.
    split.
    + intros [[_ ->] ->]. auto.
    + intros [_ H]. injection H as -> ->. auto.
  - replace (1 + lz <=? ld)%nat with false
      by (symmetry; apply Nat.leb_gt; lia).
    reflexivity.
Qed.

Lemma zoneMatches_spec domain zone :
  zoneMatches domain zone = true <->
  domain = Domain zone \/ exists p, domain = p +:+ "." +:+ Domain zone.
Proof.
  unfold zoneMatches. rewrite orb_true_iff, String.eqb_eq, HasSuffix_true.
  reflexivity.
Qed.

(** The loop keeps the first of the longest matching suffixes that are longer
    than the one it starts with. *)
Lemma zone_fold_spec matches domain zones : forall best,
  let r := fold_left (zoneStep matches domain) zones best in
  (r = best
   /\ forall z, In z zones -> matches domain z = true ->
                String.length (Domain z) <= String.length best.1)
  \/ (exists z, In z zones /\ matches domain z = true
        /\ r = (Domain z, ZoneID z)
        /\ String.length best.1 < String.length (Domain z)
        /\ forall z', In z' zones -> matches domain z' = true ->
                      String.length (Domain z') <= String.length (Domain z)).
Proof.
  induction zones as [|z zones IH]; intros best; simpl.
  - left. split; [reflexivity | intros z []].
  - set (b1 := zoneStep matches domain best z).
    assert (Hb : b1 = zoneStep matches domain best z) by reflexivity.
    clearbody b1. unfold zoneStep in Hb.
    destruct (matches domain z) eqn:Hm.
    + destruct (Nat.ltb_spec (String.length best.1) (String.length (Domain z)))
        as [Hlt|Hge]; subst b1.
      * destruct (IH (Domain z, ZoneID z))
          as [[Hr Hall] | (z1 & Hin & Hm1 & Hr & Hlt1 & Hall)].
        -- right. exists z.
           refine (conj (or_introl eq_refl) (conj Hm (conj Hr (conj Hlt _)))).
           intros z' [<-|Hin'] Hm'; [lia|]. exact (Hall z' Hin' Hm').
        -- right. exists z1. simpl in Hlt1.
           refine (conj (or_intror Hin) (conj Hm1 (conj Hr (conj _ _)))); [lia|].
           intros z' [<-|Hin'] Hm'; [lia|]. exact (Hall z' Hin' Hm').
      * destruct (IH best) as [[Hr Hall] | (z1 & Hin & Hm1 & Hr & Hlt1 & Hall)].
        -- left. split; [exact Hr|]. intros z' [<-|Hin'] Hm'; auto.
        -- right. exists z1.
           refine (conj (or_intror Hin) (conj Hm1 (conj Hr (conj Hlt1 _)))).
           intros z' [<-|Hin'] Hm'; [lia|]. exact (Hall z' Hin' Hm').
    + subst b1.
      destruct (IH best) as [[Hr Hall] | (z1 & Hin & Hm1 & Hr & Hlt1 & Hall)].
      * left. split; [exact Hr|]. intros z' [<-|Hin'] Hm'; [congruence|auto].
      * right. exists z1.
        refine (conj (or_intror Hin) (conj Hm1 (conj Hr (conj Hlt1 _)))).
        intros z' [<-|Hin'] Hm'; [congruence|]. exact (Hall z' Hin' Hm').
Qed.

Lemma length_zero_empty (s : string) : String.length s = 0 -> s = "".
Proof. destruct s; [reflexivity | discriminate]. Qed.

Lemma is_empty_true (s : string) : GoString.is_empty s = true <-> s = "".
Proof. unfold GoString.is_empty. apply String.eqb_eq. Qed.

Lemma is_empty_false (s : string) : GoString.is_empty s = false <-> s <> "".
Proof. unfold GoString.is_empty. apply String.eqb_neq. Qed.

(** With non-empty suffixes the result is the zone of a longest match, or the
    empty string when nothing matches. *)
Lemma findZoneWith_longest matches zones domain :
  Forall (fun z => Domain z <> "") zones ->
  (exists best, In best zones /\ matches domain best = true
     /\ findZoneWith matches zones domain = ZoneID best
     /\ forall z, In z zones -> matches domain z = true ->
                  String.length (Domain z) <= String.length (Domain best))
  \/ (findZoneWith matches zones domain = ""
      /\ forall z, In z zones -> matches domain z = false).
Proof.
  intros Hne. unfold findZoneWith.
  destruct (zone_fold_spec matches domain zones ("", ""))
    as [[Hr Hall] | (z & Hin & Hm & Hr & _ & Hall)].
  - right. rewrite Hr. split; [reflexivity|]. intros z Hin.
    destruct (matches domain z) eqn:Hm; [|reflexivity].
    specialize (Hall z Hin Hm). simpl in Hall.
    rewrite List.Forall_forall in Hne. exfalso. apply (Hne z Hin).
    apply length_zero_empty. lia.
  - left. exists z. rewrite Hr. auto.
Qed.

Lemma cfZone_nonempty zones args :
  Forall (fun z => Domain z <> "" /\ ZoneID z <> "") zones ->
  Forall (fun z => Domain z <> "" /\ ZoneID z <> "") (cfZone zones args).
Proof.
  intros H. unfold cfZone.
  destruct args as [|d [|z [|? ?]]]; auto.
  destruct (GoString.is_empty d) eqn:Hd; simpl; auto.
  destruct (GoString.is_empty z) eqn:Hz; simpl; auto.
  apply Forall_app. split; [exact H|]. constructor; [|constructor]. simpl.
  split; now apply is_empty_false.
Qed.

Lemma configuredZones_nonempty lines :
  Forall (fun z => Domain z <> "" /\ ZoneID z <> "") (configuredZones lines).
Proof.
  unfold configuredZones.
  assert (H : forall zones,
             Forall (fun z => Domain z <> "" /\ ZoneID z <> "") zones ->
             Forall (fun z => Domain z <> "" /\ ZoneID z <> "")
                    (fold_left cfZone lines zones)).
  { induction lines as [|args lines IH]; intros zones Hz; simpl; auto.
    apply IH. now apply cfZone_nonempty. }
  apply H. constructor.
Qed.

Lemma findZoneWith_ext m1 m2 zones domain :
  (forall z, m1 domain z = m2 domain z) ->
  findZoneWith m1 zones domain = findZoneWith m2 zones domain.
Proof.
  intros Hext. unfold findZoneWith.
  generalize ("", "") as best.
  induction zones as [|z zones IH]; intros best; simpl; [reflexivity|].
  unfold zoneStep at 2 4. rewrite Hext. apply IH.
Qed.

Lemma tunnelFindZone_eq cf domain :
  tunnelFindZoneForDomain cf domain = findZoneForDomain cf domain.
Proof. apply findZoneWith_ext. intros z. apply zoneMatchesTunnel_eq. Qed.

Lemma syncDomain_no_zone {St} `{CloudflareAPI St} config domain (s : St) :
  findZoneForDomain config domain = "" -> syncDomain config domain s = (tt, s).
Proof.
  intros Hz. unfold syncDomain. rewrite Hz.
  destruct (mapBool _ _); reflexivity.
Qed.

Lemma removeDomain_no_zone {St} `{CloudflareAPI St} config domain (s : St) :
  findZoneForDomain config domain = "" -> removeDomain config domain s = (tt, s).
Proof.
  intros Hz. unfold removeDomain. rewrite Hz.
  destruct (mapBool _ _); reflexivity.
Qed.

Lemma upsertTunnelDNS_no_zone {St} `{CloudflareAPI St} cf domain target (s : St) :
  findZoneForDomain cf domain = "" ->
  upsertTunnelDNS cf domain target s = (tt, s).
Proof.
  intros Hz. unfold upsertTunnelDNS. now rewrite tunnelFindZone_eq, Hz.
Qed.

Lemma deleteTunnelDNS_no_zone {St} `{CloudflareAPI St} cf domain (s : St) :
  findZoneForDomain cf domain = "" -> deleteTunnelDNS cf domain s = (tt, s).
Proof.
  intros Hz. unfold deleteTunnelDNS. now rewrite tunnelFindZone_eq, Hz.
Qed.

(** C4.  For a configured zone list, a suffix matches a domain when the domain
    is the suffix or ends with a dot followed by it; when some suffix matches,
    [findZoneForDomain] returns the zone ID of a matching suffix of greatest
    length; when none matches it returns the empty string and the domain is
    skipped, no call being made for it.  The tunnel syncer's version computes
    the same zone.  With [net -> Z1] and [homelab.net -> Z2], the domain
    [app.homelab.net] goes to [Z2]. *)
Theorem zone_is_longest_matching_suffix lines target proxied excluded domain :
  let config := {| TargetDomain := target; Proxied := proxied;
                   ExcludeDomains := excluded;
                   Zones := configuredZones lines |} in
  (forall z, zoneMatches domain z = true <->
             domain = Domain z \/ exists p, domain = p +:+ "." +:+ Domain z)
  /\ ((exists z, In z (Zones config) /\ zoneMatches domain z = true) ->
      exists best,
        In best (Zones config) /\ zoneMatches domain best = true
        /\ findZoneForDomain config domain = ZoneID best
        /\ ZoneID best <> ""
        /\ forall z, In z (Zones config) -> zoneMatches domain z = true ->
                     String.length (Domain z) <= String.length (Domain best))
  /\ ((forall z, In z (Zones config) -> zoneMatches domain z = false) ->
      findZoneForDomain config domain = ""
      /\ forall St (API : CloudflareAPI St) (s : St) cnameTarget,
           syncDomain config domain s = (tt, s)
           /\ removeDomain config domain s = (tt, s)
           /\ upsertTunnelDNS config domain cnameTarget s = (tt, s)
           /\ deleteTunnelDNS config domain s = (tt, s))
  /\ tunnelFindZoneForDomain config domain = findZoneForDomain config domain
  /\ findZoneForDomain twoZones "app.homelab.net" = "Z2".
Proof.
  intros config.
  pose proof (configuredZones_nonempty lines) as Hne.
  assert (Hne1 : Forall (fun z => Domain z <> "") (Zones config)).
  { eapply List.Forall_impl; [|exact Hne]. now intros z [H1 _]. }
  pose proof (findZoneWith_longest zoneMatches (Zones config) domain Hne1)
    as Hlong.
  split; [intros z; apply zoneMatches_spec|].
  split; [|split; [|split; [apply tunnelFindZone_eq | reflexivity]]].
  - intros (z & Hin & Hm).
    destruct Hlong as [(best & Hb & Hmb & Hz & Hall) | [_ Hnone]].
    + exists best. refine (conj Hb (conj Hmb (conj Hz (conj _ Hall)))).
      rewrite List.Forall_forall in Hne. exact (proj2 (Hne best Hb)).
    + rewrite (Hnone z Hin) in Hm. discriminate.
  - intros Hnone.
    assert (Hz : findZoneForDomain config domain = "").
    { destruct Hlong as [(best & Hb & Hmb & _) | [Hz _]]; [|exact Hz].
      rewrite (Hnone best Hb) in Hmb. discriminate. }
    split; [exact Hz|]. intros St API s cnameTarget.
    split; [now apply syncDomain_no_zone|].
    split; [now apply removeDomain_no_zone|].
    split; [now apply upsertTunnelDNS_no_zone | now apply deleteTunnelDNS_no_zone].
Qed.

(** ** Tunnel ingress rules *)

Lemma firstService_app h a b :
  firstService h (a ++ b)
  = match firstService h a with
    | Some s => Some s
    | None => firstService h b
    end.
Proof.
  induction a as [|r a IH]; simpl; [reflexivity|].
  destruct (String.eqb (Hostname r) h); [reflexivity | exact IH].
Qed.

Lemma firstService_None h ingress :
  firstService h ingress = None <->
  forall r, In r ingress -> Hostname r <> h.
Proof.
  induction ingress as [|r rest IH]; simpl.
  - split; [intros _ r [] | reflexivity].
  - destruct (String.eqb_spec (Hostname r) h) as [Heq|Hne].
    + split; [discriminate|]. intros H. exfalso. apply (H r); auto.
    + rewrite IH. split.
      * intros H r' [<-|Hin]; auto.
      * intros H r' Hin. apply H. now right.
Qed.

Lemma updateExisting_None h svc ingress :
  updateExisting h svc ingress = None <-> firstService h ingress = None.
Proof.
  induction ingress as [|r rest IH]; simpl; [split; reflexivity|].
  destruct (String.eqb (Hostname r) h).
  - destruct (String.eqb (Service r) svc); split; discriminate.
  - destruct (updateExisting h svc rest) as [[rest' ch]|].
    + split; [discriminate|]. intros H. apply IH in H. discriminate.
    + split; [intros _; now apply IH | reflexivity].
Qed.

Lemma updateExisting_settled h svc ingress :
  firstService h ingress = Some svc ->
  updateExisting h svc ingress = Some (ingress, false).
Proof.
  induction ingress as [|r rest IH]; simpl; [discriminate|].
  destruct (String.eqb (Hostname r) h).
  - intros [= ->]. now rewrite String.eqb_refl.
  - intros H. now rewrite (IH H).
Qed.

Lemma updateExisting_Some h svc ingress ingress' changed :
  updateExisting h svc ingress = Some (ingress', changed) ->
  firstService h ingress' = Some svc
  /\ (forall h', h' <> h -> firstService h' ingress' = firstService h' ingress)
  /\ map Hostname ingress' = map Hostname ingress
  /\ (changed = false -> ingress' = ingress).
Proof.
  revert ingress' changed.
  induction ingress as [|r rest IH]; intros ingress' changed; simpl;
    [discriminate|].
  destruct (String.eqb_spec (Hostname r) h) as [Heq|Hne].
  - destruct (String.eqb_spec (Service r) svc) as [Hs|Hs]; intros [= <- <-];
      simpl; rewrite Heq, String.eqb_refl.
    + repeat split; congruence.
    + repeat split; try congruence.
      intros h' Hne. destruct (String.eqb_spec h h'); [congruence | reflexivity].
  - destruct (updateExisting h svc rest) as [[rest' ch]|] eqn:Hu; [|discriminate].
    intros [= <- <-]. destruct (IH rest' ch eq_refl) as (H1 & H2 & H3 & H4).
    simpl. destruct (String.eqb_spec (Hostname r) h); [contradiction|].
    repeat split; auto.
    + intros h' Hh'. now rewrite (H2 h' Hh').
    + now rewrite H3.
    + intros Hch. now rewrite (H4 Hch).
Qed.

Lemma insertRule_nil newRule : insertRule newRule [] = [newRule; catchAllRule].
Proof. reflexivity. Qed.

Lemma insertRule_snoc newRule body l :
  insertRule newRule (body ++ [l]) = body ++ [newRule; l].
Proof.
  unfold insertRule. rewrite length_app. simpl.
  replace (0 <? length body + 1)%nat with true
    by (symmetry; apply Nat.ltb_lt; lia).
  replace (length body + 1 - 1) with (length body) by lia.
  now rewrite take_app_length, drop_app_length.
Qed.

Lemma snoc_cases {A} (l : list A) : l = [] \/ exists body x, l = body ++ [x].
Proof.
  induction l as [|x l _] using rev_ind; [now left | right; now exists l, x].
Qed.

Lemma firstService_insertRule h newRule ingress svc :
  firstService h ingress = Some svc -> Hostname newRule <> h ->
  firstService h (insertRule newRule ingress) = Some svc.
Proof.
  intros Hf Hne. destruct (snoc_cases ingress) as [->|(body & l & ->)];
    [discriminate|].
  rewrite insertRule_snoc. rewrite firstService_app in Hf |- *.
  destruct (firstService h body); [exact Hf|]. simpl in *.
  destruct (String.eqb_spec (Hostname newRule) h); [contradiction | exact Hf].
Qed.

Lemma firstService_insertRule_new newRule ingress :
  firstService (Hostname newRule) ingress = None ->
  firstService (Hostname newRule) (insertRule newRule ingress)
  = Some (Service newRule).
Proof.
  intros Hf. destruct (snoc_cases ingress) as [->|(body & l & ->)].
  - simpl. now rewrite String.eqb_refl.
  - rewrite insertRule_snoc. rewrite firstService_app in Hf |- *.
    destruct (firstService _ body); [discriminate|]. simpl.
    now rewrite String.eqb_refl.
Qed.

Lemma addRoute_settles cf svc acc h :
  mapBool (ExcludeDomains cf) h = false ->
  firstService h (addRoute cf svc acc h).1 = Some svc.
Proof.
  intros He. unfold addRoute. rewrite He.
  destruct (updateExisting h svc acc.1) as [[ing' ch]|] eqn:Hu; simpl.
  - now apply updateExisting_Some in Hu as [H _].
  - apply updateExisting_None in Hu.
    now apply (firstService_insertRule_new {| Hostname := h; Service := svc |}).
Qed.

Lemma addRoute_keeps cf svc acc h h' :
  firstService h acc.1 = Some svc ->
  firstService h (addRoute cf svc acc h').1 = Some svc.
Proof.
  intros Hf. unfold addRoute. destruct (mapBool _ h'); [exact Hf|].
  destruct (String.eqb_spec h' h) as [->|Hne].
  - now rewrite (updateExisting_settled h svc acc.1 Hf).
  - destruct (updateExisting h' svc acc.1) as [[ing' ch]|] eqn:Hu; simpl.
    + apply updateExisting_Some in Hu as (_ & H & _). rewrite H; auto.
    + now apply firstService_insertRule.
Qed.

Lemma addRoutes_keep cf svc h hs : forall acc,
  firstService h acc.1 = Some svc ->
  firstService h (fold_left (addRoute cf svc) hs acc).1 = Some svc.
Proof.
  induction hs as [|h' hs IH]; intros acc Hf; simpl; [exact Hf|].
  apply IH. now apply addRoute_keeps.
Qed.

Lemma addRoutes_settle cf svc h hs : forall acc,
  In h hs -> mapBool (ExcludeDomains cf) h = false ->
  firstService h (fold_left (addRoute cf svc) hs acc).1 = Some svc.
Proof.
  induction hs as [|h' hs IH]; intros acc [] He; simpl.
  - subst h'. apply addRoutes_keep. now apply addRoute_settles.
  - now apply IH.
Qed.

Lemma addRoutes_noop cf svc hs ingress modified :
  (forall h, In h hs -> mapBool (ExcludeDomains cf) h = false ->
             firstService h ingress = Some svc) ->
  fold_left (addRoute cf svc) hs (ingress, modified) = (ingress, modified).
Proof.
  induction hs as [|h hs IH]; intros Hall; simpl; [reflexivity|].
  assert (Hstep : addRoute cf svc (ingress, modified) h = (ingress, modified)).
  { unfold addRoute. destruct (mapBool _ h) eqn:He; [reflexivity|]. simpl.
    rewrite (updateExisting_settled h svc ingress);
      [|apply Hall; [now left | exact He]].
    now rewrite orb_false_r. }
  rewrite Hstep. apply IH. intros h' Hin. apply Hall. now right.
Qed.

(** Running [AddRoutes]' loop on its own result changes nothing. *)
Lemma addIngress_idempotent cf hs svc ingress :
  addIngress cf hs svc (addIngress cf hs svc ingress).1
  = ((addIngress cf hs svc ingress).1, false).
Proof.
  unfold addIngress at 1. apply addRoutes_noop.
  intros h Hin He. now apply addRoutes_settle.
Qed.

Lemma addRoute_unmodified cf svc acc h :
  (addRoute cf svc acc h).2 = false ->
  acc.2 = false /\ (addRoute cf svc acc h).1 = acc.1.
Proof.
  unfold addRoute. destruct (mapBool _ h); [auto|].
  destruct (updateExisting h svc acc.1) as [[ing' ch]|] eqn:Hu; simpl;
    [|discriminate].
  intros H. apply orb_false_iff in H as [H1 ->]. split; [exact H1|].
  now apply updateExisting_Some in Hu as (_ & _ & _ & ->).
Qed.

Lemma addRoutes_unmodified cf svc hs : forall acc,
  (fold_left (addRoute cf svc) hs acc).2 = false ->
  acc.2 = false /\ (fold_left (addRoute cf svc) hs acc).1 = acc.1.
Proof.
  induction hs as [|h hs IH]; intros acc; simpl; [auto|].
  intros H. destruct (IH _ H) as [H2 H1].
  destruct (addRoute_unmodified cf svc acc h H2) as [Hm Hi].
  split; [exact Hm | congruence].
Qed.

Lemma addIngress_unmodified cf hs svc ingress :
  (addIngress cf hs svc ingress).2 = false ->
  (addIngress cf hs svc ingress).1 = ingress.
Proof. intros H. now apply addRoutes_unmodified in H as [_ H]. Qed.

Lemma filterRules_fold removeSet ingress : forall acc,
  fold_left (filterRule removeSet) ingress acc
  = (acc.1 ++ List.filter (keptRule removeSet) ingress,
     acc.2 || existsb (fun r => negb (keptRule removeSet r)) ingress).
Proof.
  induction ingress as [|r rest IH]; intros [filtered modified]; simpl.
  - now rewrite app_nil_r, orb_false_r.
  - rewrite IH. unfold filterRule, keptRule. simpl.
    destruct (mapBool removeSet (Hostname r)); simpl.
    + now rewrite orb_true_r.
    + now rewrite <- app_assoc.
Qed.

Lemma removeIngress_filter cf hs ingress :
  removeIngress cf hs ingress
  = (List.filter (keptRule (buildRemoveSet cf hs)) ingress,
     existsb (fun r => negb (keptRule (buildRemoveSet cf hs) r)) ingress).
Proof. unfold removeIngress. now rewrite filterRules_fold. Qed.

Lemma mapBool_insert_true (m : gmap string bool) h x :
  mapBool (<[h := true]> m) x = if decide (h = x) then true else mapBool m x.
Proof.
  unfold mapBool. rewrite lookup_insert. now destruct (decide (h = x)).
Qed.

Lemma buildRemoveSet_spec cf hs x :
  mapBool (buildRemoveSet cf hs) x = true <->
  In x hs /\ mapBool (ExcludeDomains cf) x = false.
Proof.
  unfold buildRemoveSet.
  assert (H : forall m,
    mapBool (fold_left (fun removeSet h =>
               if negb (mapBool (ExcludeDomains cf) h)
               then <[h := true]> removeSet else removeSet) hs m) x = true <->
    mapBool m x = true \/ (In x hs /\ mapBool (ExcludeDomains cf) x = false)).
  { induction hs as [|h hs IH]; intros m; simpl.
    - tauto.
    - rewrite IH. destruct (mapBool (ExcludeDomains cf) h) eqn:He; simpl.
      + split; [intros [H|[H1 H2]]; auto | intros [H|[[<-|H1] H2]]; auto].
        congruence.
      + rewrite mapBool_insert_true. destruct (decide (h = x)) as [<-|Hne].
        * split; auto.
        * split; [intros [H|[H1 H2]]; auto | intros [H|[[Heq|H1] H2]]; auto]. }
  rewrite H. unfold mapBool at 1. rewrite lookup_empty. simpl.
  split; [intros [H0|H0]; [discriminate | exact H0] | auto].
Qed.

Lemma removeIngress_unmodified cf hs ingress :
  (removeIngress cf hs ingress).2 = false ->
  (removeIngress cf hs ingress).1 = ingress.
Proof.
  rewrite removeIngress_filter. simpl.
  induction ingress as [|r rest IH]; simpl; [reflexivity|].
  intros H. apply orb_false_iff in H as [Hr Hrest].
  apply negb_false_iff in Hr. rewrite Hr. now rewrite (IH Hrest).
Qed.

(** *** Hoare rules *)

Lemma hoare_ret {St A} (P : St -> Prop) (a : A) (Q : A -> St -> Prop) :
  (forall s, P s -> Q a s) -> hoare P (ret a) Q.
Proof. intros H s Hs. now apply H. Qed.

Lemma hoare_bind {St A B} (P : St -> Prop) (c : M St A) (k : A -> M St B)
    (Q : A -> St -> Prop) (R : B -> St -> Prop) :
  hoare P c Q -> (forall a, hoare (Q a) (k a) R) -> hoare P (bind c k) R.
Proof.
  intros Hc Hk s Hs. unfold bind. specialize (Hc s Hs).
  destruct (c s) as [a s']. now apply Hk.
Qed.

Lemma hoare_weaken {St A} (P P' : St -> Prop) (c : M St A)
    (Q Q' : A -> St -> Prop) :
  hoare P c Q -> (forall s, P' s -> P s) -> (forall a s, Q a s -> Q' a s) ->
  hoare P' c Q'.
Proof. intros H HP HQ s Hs. apply HQ, H, HP, Hs. Qed.

Lemma preserves_ret {St A} (I : St -> Prop) (a : A) : preserves I (ret a).
Proof. now apply hoare_ret. Qed.

Lemma preserves_bind {St A B} (I : St -> Prop) (c : M St A) (k : A -> M St B) :
  preserves I c -> (forall a, preserves I (k a)) -> preserves I (bind c k).
Proof. intros Hc Hk. now apply (hoare_bind I c k (fun _ => I)). Qed.

Lemma preserves_forEach {St A} (I : St -> Prop) (xs : list A)
    (body : A -> M St unit) :
  (forall x, In x xs -> preserves I (body x)) -> preserves I (forEach xs body).
Proof.
  induction xs as [|x xs IH]; intros Hb; simpl.
  - apply preserves_ret.
  - apply preserves_bind; [apply Hb; now left|].
    intros _. apply IH. intros y Hy. apply Hb. now right.
Qed.

Lemma preserves_run {St A} (I : St -> Prop) (c : M St A) s a s' :
  preserves I c -> I s -> c s = (a, s') -> I s'.
Proof. intros H Hs Hc. specialize (H s Hs). now rewrite Hc in H. Qed.

(** Splits a goal [preserves I c] along the structure of [c]. *)
Ltac preserves_step :=
  lazymatch goal with
  | |- preserves _ (ret _) => apply preserves_ret
  | |- preserves _ (bind _ _) => apply preserves_bind; [|intros ?]
  | |- preserves _ (forEach _ _) => apply preserves_forEach; intros ? ?
  | |- preserves _ (match ?x with _ => _ end) => destruct x
  end.

(** *** The DNS calls leave the mock's tunnel alone *)

Section IngressUntouched.
Variable table : gmap string (list UnvalidatedIngressRule).
Variable pre : list Call.

Let I := ingressUntouched table pre.

Lemma untouched_extend m m' log c :
  I (m, log) -> tunnelIngress m' = tunnelIngress m -> isDNSCall c ->
  I (m', log ++ [c]).
Proof.
  intros [Ht (calls & Hl & Hc)] Hm Hd. simpl in *. subst log.
  split; [simpl; congruence|].
  exists (calls ++ [c]). split; [simpl; now rewrite <- app_assoc|].
  apply Forall_app. split; [exact Hc | now constructor].
Qed.

Lemma untouched_list zoneID filter :
  preserves I (ListDNSRecords zoneID filter).
Proof. intros [m log] H. now apply (untouched_extend m). Qed.

Lemma untouched_create zoneID record :
  preserves I (CreateDNSRecord zoneID record).
Proof. intros [m log] H. now apply (untouched_extend m). Qed.

Lemma untouched_update zoneID recordID record :
  preserves I (UpdateDNSRecord zoneID recordID record).
Proof.
  intros [m log] H. cbn.
  destruct (replaceByID _ _ _); now apply (untouched_extend m).
Qed.

Lemma untouched_delete zoneID recordID :
  preserves I (DeleteDNSRecord zoneID recordID).
Proof.
  intros [m log] H. cbn.
  destruct (removeByID _ _); now apply (untouched_extend m).
Qed.

Lemma untouched_upsertTunnelDNS cf hostname cnameTarget :
  preserves I (upsertTunnelDNS cf hostname cnameTarget).
Proof.
  unfold upsertTunnelDNS.
  repeat first [ apply untouched_list | apply untouched_create
               | apply untouched_update | preserves_step ].
Qed.

Lemma untouched_deleteTunnelDNS cf hostname :
  preserves I (deleteTunnelDNS cf hostname).
Proof.
  unfold deleteTunnelDNS.
  repeat first [ apply untouched_list | apply untouched_delete
               | preserves_step ].
Qed.

End IngressUntouched.

(** *** [AddRoutes] and [RemoveRoutes] on the mock *)

Lemma tunnel_sync_on_mock tunnel cf (hs : list string)
    (result : list UnvalidatedIngressRule * bool)
    (dns : string -> M (Traced mockCloudflareAPI) unit) m log :
  (forall table pre h, preserves (ingressUntouched table pre) (dns h)) ->
  let fetched := mockTunnelConfig m (TunnelID tunnel) in
  exists m' calls,
    (do pushed <- pushIfModified tunnel fetched result.1 result.2;
     if pushed then
       forEach hs (fun hostname =>
                     if mapBool (ExcludeDomains cf) hostname then ret tt
                     else dns hostname)
     else ret tt)
      (m, log ++ [CallGetTunnel (AccountID tunnel) (TunnelID tunnel)
                                (inl fetched)])
    = (tt, (m', log ++ tunnelCalls tunnel fetched result ++ calls))
    /\ Forall isDNSCall calls
    /\ tunnelIngress m'
       = if result.2 then <[TunnelID tunnel := result.1]> (tunnelIngress m)
         else tunnelIngress m.
Proof.
  intros Hdns fetched. destruct result as [ingress modified].
  unfold tunnelCalls, bind, pushIfModified. simpl.
  set (loop := forEach hs _).
  assert (Hloop : forall table pre, preserves (ingressUntouched table pre) loop).
  { intros table pre. apply preserves_forEach. intros h _.
    destruct (mapBool _ h); [apply preserves_ret | apply Hdns]. }
  destruct modified; cbn.
  - match goal with |- context [loop ?st] => destruct (loop st) as [[] [m' log']] eqn:Hrun end.
    eapply (preserves_run _ _ _ _ _ (Hloop _ _)) in Hrun as [Ht (calls & Hl & Hc)];
      [|split; [reflexivity | exists []; split; [symmetry; apply app_nil_r | constructor]]].
    simpl in *. subst log'. exists m', calls.
    split; [now rewrite <- !app_assoc|]. split; [exact Hc | exact Ht].
  - match goal with |- context [loop ?st] => destruct (loop st) as [[] [m' log']] eqn:Hrun end.
    eapply (preserves_run _ _ _ _ _ (Hloop _ _)) in Hrun as [Ht (calls & Hl & Hc)];
      [|split; [reflexivity | exists []; split; [symmetry; apply app_nil_r | constructor]]].
    simpl in *. subst log'. exists m', calls.
    split; [now rewrite <- !app_assoc|]. split; [exact Hc | exact Ht].
Qed.

Lemma AddRoutes_on_mock tunnel cf hs svc m log :
  let fetched := mockTunnelConfig m (TunnelID tunnel) in
  let result := addIngress cf hs svc (Ingress fetched) in
  exists m' calls,
    AddRoutes tunnel cf hs svc (m, log)
    = (tt, (m', log ++ tunnelCalls tunnel fetched result ++ calls))
    /\ Forall isDNSCall calls
    /\ tunnelIngress m'
       = if result.2 then <[TunnelID tunnel := result.1]> (tunnelIngress m)
         else tunnelIngress m.
Proof.
  intros fetched result.
  destruct (tunnel_sync_on_mock tunnel cf hs result
              (fun h => upsertTunnelDNS cf h (TunnelID tunnel +:+ ".cfargotunnel.com"))
              m log) as (m' & calls & Hrun & Hrest).
  { intros table pre h. apply untouched_upsertTunnelDNS. }
  exists m', calls. split; [|exact Hrest].
  etransitivity; [|exact Hrun].
  subst result fetched. unfold AddRoutes, bind at 1, mockTunnelConfig. cbn.
  now destruct (addIngress _ _ _ _).
Qed.

Lemma RemoveRoutes_on_mock tunnel cf hs m log :
  let fetched := mockTunnelConfig m (TunnelID tunnel) in
  let result := removeIngress cf hs (Ingress fetched) in
  exists m' calls,
    RemoveRoutes tunnel cf hs (m, log)
    = (tt, (m', log ++ tunnelCalls tunnel fetched result ++ calls))
    /\ Forall isDNSCall calls
    /\ tunnelIngress m'
       = if result.2 then <[TunnelID tunnel := result.1]> (tunnelIngress m)
         else tunnelIngress m.
Proof.
  intros fetched result.
  destruct (tunnel_sync_on_mock tunnel cf hs result
              (fun h => deleteTunnelDNS cf h) m log)
    as (m' & calls & Hrun & Hrest).
  { intros table pre h. apply untouched_deleteTunnelDNS. }
  exists m', calls. split; [|exact Hrest].
  etransitivity; [|exact Hrun].
  subst result fetched. unfold RemoveRoutes, bind at 1, mockTunnelConfig. cbn.
  now destruct (fold_left _ _ _).
Qed.

Lemma stored_ingress (table : gmap string (list UnvalidatedIngressRule))
    tunnelID (result : list UnvalidatedIngressRule * bool) :
  (result.2 = false -> result.1 = default [] (table !! tunnelID)) ->
  default [] ((if result.2 then <[tunnelID := result.1]> table else table)
                !! tunnelID)
  = result.1.
Proof.
  destruct result as [ingress [|]]; simpl; intros H.
  - now rewrite lookup_insert_eq.
  - symmetry. now apply H.
Qed.

(** What the mock holds for the tunnel after [AddRoutes]. *)
Lemma AddRoutes_stores tunnel cf hs svc m log :
  default [] (tunnelIngress (AddRoutes tunnel cf hs svc (m, log)).2.1
                !! TunnelID tunnel)
  = (addIngress cf hs svc (default [] (tunnelIngress m !! TunnelID tunnel))).1.
Proof.
  destruct (AddRoutes_on_mock tunnel cf hs svc m log)
    as (m' & calls & Hrun & _ & Ht).
  rewrite Hrun. simpl. rewrite Ht.
  apply stored_ingress. apply addIngress_unmodified.
Qed.

Lemma RemoveRoutes_stores tunnel cf hs m log :
  default [] (tunnelIngress (RemoveRoutes tunnel cf hs (m, log)).2.1
                !! TunnelID tunnel)
  = (removeIngress cf hs (default [] (tunnelIngress m !! TunnelID tunnel))).1.
Proof.
  destruct (RemoveRoutes_on_mock tunnel cf hs m log)
    as (m' & calls & Hrun & _ & Ht).
  rewrite Hrun. simpl. rewrite Ht.
  apply stored_ingress. apply removeIngress_unmodified.
Qed.

(** A second [AddRoutes] with the same arguments fetches the configuration,
    pushes nothing and leaves the ingress table as it is. *)
Lemma AddRoutes_twice tunnel cf hs svc m log m1 log1 :
  AddRoutes tunnel cf hs svc (m, log) = (tt, (m1, log1)) ->
  exists m2 calls,
    AddRoutes tunnel cf hs svc (m1, log1)
    = (tt, (m2, log1 ++ CallGetTunnel (AccountID tunnel) (TunnelID tunnel)
                           (inl (mockTunnelConfig m1 (TunnelID tunnel)))
                        :: calls))
    /\ Forall isDNSCall calls
    /\ tunnelIngress m2 = tunnelIngress m1.
Proof.
  intros Hfirst.
  pose proof (AddRoutes_stores tunnel cf hs svc m log) as Hstored.
  rewrite Hfirst in Hstored. simpl in Hstored.
  pose proof (AddRoutes_on_mock tunnel cf hs svc m1 log1) as H2.
  cbv zeta in H2.
  change (Ingress (mockTunnelConfig m1 (TunnelID tunnel)))
    with (default [] (tunnelIngress m1 !! TunnelID tunnel)) in H2.
  rewrite Hstored, addIngress_idempotent in H2.
  destruct H2 as (m2 & calls & Hrun & Hc & Ht).
  exists m2, calls. split; [exact Hrun|]. split; [exact Hc | exact Ht].
Qed.

(** ** Insertion before the catch-all *)

Lemma addRoute_absent cf svc body l modified h :
  mapBool (ExcludeDomains cf) h = false ->
  firstService h (body ++ [l]) = None ->
  addRoute cf svc (body ++ [l], modified) h
  = (body ++ [{| Hostname := h; Service := svc |}; l], true).
Proof.
  intros He Hf. unfold addRoute. rewrite He. simpl.
  apply updateExisting_None with (svc := svc) in Hf. rewrite Hf.
  now rewrite insertRule_snoc.
Qed.

Lemma addRoute_empty cf svc modified h :
  mapBool (ExcludeDomains cf) h = false ->
  addRoute cf svc ([], modified) h
  = ([{| Hostname := h; Service := svc |}; catchAllRule], true).
Proof. intros He. unfold addRoute. now rewrite He. Qed.

Lemma addIngress_two cf h1 h2 svc c :
  mapBool (ExcludeDomains cf) h1 = false ->
  mapBool (ExcludeDomains cf) h2 = false ->
  h1 <> h2 -> h1 <> "" -> h2 <> "" -> Hostname c = "" ->
  addIngress cf [h1; h2] svc [c]
  = ([{| Hostname := h1; Service := svc |};
      {| Hostname := h2; Service := svc |}; c], true).
Proof.
  intros He1 He2 H12 H1 H2 Hc. unfold addIngress. cbn [fold_left].
  assert (E1 : addRoute cf svc ([c], false) h1
               = ([{| Hostname := h1; Service := svc |}; c], true)).
  { apply (addRoute_absent cf svc [] c false h1 He1). simpl. rewrite Hc.
    destruct (String.eqb_spec "" h1); [congruence | reflexivity]. }
  rewrite E1.
  apply (addRoute_absent cf svc [{| Hostname := h1; Service := svc |}]
           c true h2 He2).
  simpl. rewrite Hc.
  destruct (String.eqb_spec h1 h2); [contradiction|].
  destruct (String.eqb_spec "" h2); [congruence | reflexivity].
Qed.


(** The run of [TestTunnelAddRoutes], and the same call once more. *)
Lemma add_routes_test_run :
  exists m1 log1 m2 log2,
    AddRoutes testTunnel testTunnelCf ["app.homelab.net"; "git.homelab.net"]
              "http://localhost:8080" (seededMock, [])
    = (tt, (m1, log1))
    /\ tunnelIngress m1 !! "test-tunnel-uuid"
       = Some [{| Hostname := "app.homelab.net";
                  Service := "http://localhost:8080" |};
               {| Hostname := "git.homelab.net";
                  Service := "http://localhost:8080" |};
               catchAllRule]
    /\ AddRoutes testTunnel testTunnelCf ["app.homelab.net"; "git.homelab.net"]
                 "http://localhost:8080" (m1, log1)
       = (tt, (m2, log2))
    /\ tunnelIngress m2 = tunnelIngress m1
    /\ length (List.filter (fun c => match c with
                                     | CallPutTunnel _ _ _ => true
                                     | _ => false
                                     end) log2) = 1.
Proof.
  do 4 eexists. split; [vm_compute; reflexivity|].
  split; [vm_compute; reflexivity|].
  split; [vm_compute; reflexivity|].
  split; vm_compute; reflexivity.
Qed.

(** ** The catch-all rule *)

Lemma updateExisting_snoc h svc body c :
  Hostname c <> h ->
  updateExisting h svc (body ++ [c])
  = match updateExisting h svc body with
    | Some (body', changed) => Some (body' ++ [c], changed)
    | None => None
    end.
Proof.
  intros Hne. induction body as [|r body IH]; simpl.
  - now destruct (String.eqb_spec (Hostname c) h).
  - destruct (String.eqb (Hostname r) h).
    + now destruct (String.eqb (Service r) svc).
    + rewrite IH. now destruct (updateExisting h svc body) as [[? ?]|].
Qed.

Lemma addRoute_catch_all cf svc body c modified h :
  Hostname c = "" -> ~ In "" (map Hostname body) ->
  (h = "" -> mapBool (ExcludeDomains cf) h = true) ->
  exists body' modified',
    addRoute cf svc (body ++ [c], modified) h = (body' ++ [c], modified')
    /\ ~ In "" (map Hostname body').
Proof.
  intros Hc Hbody Hh. unfold addRoute.
  destruct (mapBool (ExcludeDomains cf) h) eqn:He; [now exists body, modified|].
  assert (Hne : h <> "") by (intros H; discriminate (Hh H)).
  simpl. rewrite updateExisting_snoc by congruence.
  destruct (updateExisting h svc body) as [[body' ch]|] eqn:Hu.
  - exists body', (modified || ch). split; [reflexivity|].
    apply updateExisting_Some in Hu as (_ & _ & Hmap & _). now rewrite Hmap.
  - exists (body ++ [{| Hostname := h; Service := svc |}]), true.
    rewrite insertRule_snoc, <- app_assoc. split; [reflexivity|].
    rewrite map_app, in_app_iff. simpl. intros [H|[H|[]]]; auto.
Qed.

Lemma addIngress_catch_all cf svc c hs : forall body modified,
  Hostname c = "" -> ~ In "" (map Hostname body) ->
  (In "" hs -> mapBool (ExcludeDomains cf) "" = true) ->
  exists body',
    (fold_left (addRoute cf svc) hs (body ++ [c], modified)).1 = body' ++ [c]
    /\ ~ In "" (map Hostname body').
Proof.
  induction hs as [|h hs IH]; intros body modified Hc Hbody Hhs; simpl.
  - now exists body.
  - destruct (addRoute_catch_all cf svc body c modified h Hc Hbody)
      as (body1 & modified1 & -> & Hbody1).
    { intros ->. apply Hhs. now left. }
    apply IH; auto. intros Hin. apply Hhs. now right.
Qed.

Lemma removeIngress_catch_all cf hs body c :
  Hostname c = "" -> ~ In "" (map Hostname body) ->
  (In "" hs -> mapBool (ExcludeDomains cf) "" = true) ->
  exists body',
    (removeIngress cf hs (body ++ [c])).1 = body' ++ [c]
    /\ ~ In "" (map Hostname body').
Proof.
  intros Hc Hbody Hhs. rewrite removeIngress_filter. simpl.
  exists (List.filter (keptRule (buildRemoveSet cf hs)) body).
  rewrite List.filter_app. simpl.
  assert (Hkept : keptRule (buildRemoveSet cf hs) c = true).
  { unfold keptRule. rewrite Hc. apply negb_true_iff, not_true_iff_false.
    rewrite buildRemoveSet_spec. intros [Hin He].
    rewrite (Hhs Hin) in He. discriminate He. }
  rewrite Hkept. split; [reflexivity|].
  intros Hin. apply Hbody. apply in_map_iff in Hin as (r & Hr & Hin).
  apply List.filter_In in Hin as [Hin _]. apply in_map_iff. now exists r.
Qed.

(** C6 as stated fails: on the seeded tunnel of the tests, [RemoveRoutes]
    called with the empty name removes the catch-all rule and pushes an empty
    ingress list. *)
Lemma remove_routes_drops_catch_all :
  tunnelIngress seededMock !! TunnelID testTunnel = Some [catchAllRule]
  /\ mapBool (ExcludeDomains testTunnelCf) "" = false
  /\ exists m',
       RemoveRoutes testTunnel testTunnelCf [""] (seededMock, [])
       = (tt, (m', [CallGetTunnel "test-account-id" "test-tunnel-uuid"
                      (inl (mockTunnelConfig seededMock "test-tunnel-uuid"));
                    CallPutTunnel "test-account-id" "test-tunnel-uuid"
                      {| Ingress := []; WarpRouting := None;
                         OriginRequest := "" |}]))
       /\ tunnelIngress m' !! TunnelID testTunnel = Some [].
Proof.
  split; [reflexivity|]. split; [reflexivity|].
  eexists. split; vm_compute; reflexivity.
Qed.

(** A name that only the last rule carries: the loop of [AddRoutes] passes
    the body and settles the service of the last rule. *)
Lemma updateExisting_last h svc body c :
  Hostname c = h -> ~ In h (map Hostname body) ->
  updateExisting h svc (body ++ [c])
  = Some (body ++ [if String.eqb (Service c) svc then c
                   else {| Hostname := Hostname c; Service := svc |}],
          negb (String.eqb (Service c) svc)).
Proof.
  intros Hc. induction body as [|r body IH]; simpl; intros Hbody.
  - rewrite Hc, String.eqb_refl. now destruct (String.eqb (Service c) svc).
  - destruct (String.eqb_spec (Hostname r) h) as [E|_]; [tauto|].
    rewrite IH by tauto. reflexivity.
Qed.

(** One round of [AddRoutes] on a list that ends with its only rule without
    hostname, for any name. *)
Lemma addRoute_empty_last cf svc body c modified h :
  Hostname c = "" -> ~ In "" (map Hostname body) ->
  exists body' c' modified',
    addRoute cf svc (body ++ [c], modified) h = (body' ++ [c'], modified')
    /\ Hostname c' = "" /\ ~ In "" (map Hostname body').
Proof.
  intros Hc Hbody.
  destruct (String.eqb_spec h "") as [->|Hne].
  - unfold addRoute.
    destruct (mapBool (ExcludeDomains cf) ""); [now exists body, c, modified|].
    simpl. rewrite (updateExisting_last "" svc body c Hc Hbody).
    eexists body, _, _. split; [reflexivity|]. split; [|exact Hbody].
    now destruct (String.eqb (Service c) svc).
  - destruct (addRoute_catch_all cf svc body c modified h Hc Hbody)
      as (body' & modified' & Heq & Hb); [contradiction|].
    now exists body', c, modified'.
Qed.

Lemma addIngress_empty_last cf svc hs : forall body c modified,
  Hostname c = "" -> ~ In "" (map Hostname body) ->
  exists body' c',
    (fold_left (addRoute cf svc) hs (body ++ [c], modified)).1 = body' ++ [c']
    /\ Hostname c' = "" /\ ~ In "" (map Hostname body').
Proof.
  induction hs as [|h hs IH]; intros body c modified Hc Hbody; simpl.
  - now exists body, c.
  - destruct (addRoute_empty_last cf svc body c modified h Hc Hbody)
      as (body1 & c1 & modified1 & -> & Hc1 & Hbody1).
    now apply IH.
Qed.

(** What the provider holds for the tunnel after [AddRoutes] and after
    [RemoveRoutes]. *)
Lemma AddRoutes_holds tunnel cf hs svc m log ingress :
  tunnelIngress m !! TunnelID tunnel = Some ingress ->
  tunnelIngress (AddRoutes tunnel cf hs svc (m, log)).2.1 !! TunnelID tunnel
  = Some (addIngress cf hs svc ingress).1.
Proof.
  intros Hm.
  destruct (AddRoutes_on_mock tunnel cf hs svc m log)
    as (m' & calls & Hrun & _ & Ht).
  rewrite Hrun. simpl. rewrite Ht. unfold mockTunnelConfig. simpl Ingress.
  rewrite Hm. simpl.
  destruct (addIngress cf hs svc ingress) as [ingress' [|]] eqn:Hres; simpl.
  - now rewrite lookup_insert_eq.
  - rewrite Hm. f_equal.
    pose proof (addIngress_unmodified cf hs svc ingress) as Hun.
    rewrite Hres in Hun. simpl in Hun. symmetry. now apply Hun.
Qed.

Lemma RemoveRoutes_holds tunnel cf hs m log ingress :
  tunnelIngress m !! TunnelID tunnel = Some ingress ->
  tunnelIngress (RemoveRoutes tunnel cf hs (m, log)).2.1 !! TunnelID tunnel
  = Some (removeIngress cf hs ingress).1.
Proof.
  intros Hm.
  destruct (RemoveRoutes_on_mock tunnel cf hs m log)
    as (m' & calls & Hrun & _ & Ht).
  rewrite Hrun. simpl. rewrite Ht. unfold mockTunnelConfig. simpl Ingress.
  rewrite Hm. simpl.
  destruct (removeIngress cf hs ingress) as [ingress' [|]] eqn:Hres; simpl.
  - now rewrite lookup_insert_eq.
  - rewrite Hm. f_equal.
    pose proof (removeIngress_unmodified cf hs ingress) as Hun.
    rewrite Hres in Hun. simpl in Hun. symmetry. now apply Hun.
Qed.

(** C6, amended.  Take an ingress list whose last rule is its only rule with
    an empty hostname.  After [AddRoutes], whatever the names, the list still
    ends with a rule with an empty hostname and has no other such rule.
    When the empty name does not occur among the names, unless it is
    excluded, then after [AddRoutes] and after [RemoveRoutes] the list ends
    with that same rule, unchanged, and has no other rule with an empty
    hostname.  Both hold of the list the loops compute and of what the
    provider holds afterwards. *)
Theorem catch_all_stays_last cf hs svc body c :
  Hostname c = "" ->
  ~ In "" (map Hostname body) ->
  (exists body' c',
     (addIngress cf hs svc (body ++ [c])).1 = body' ++ [c']
     /\ Hostname c' = "" /\ ~ In "" (map Hostname body'))
  /\ ((In "" hs -> mapBool (ExcludeDomains cf) "" = true) ->
      (exists body',
         (addIngress cf hs svc (body ++ [c])).1 = body' ++ [c]
         /\ ~ In "" (map Hostname body'))
      /\ (exists body',
            (removeIngress cf hs (body ++ [c])).1 = body' ++ [c]
            /\ ~ In "" (map Hostname body')))
  /\ forall tunnel m log,
       tunnelIngress m !! TunnelID tunnel = Some (body ++ [c]) ->
       (exists body' c',
          tunnelIngress (AddRoutes tunnel cf hs svc (m, log)).2.1
            !! TunnelID tunnel = Some (body' ++ [c'])
          /\ Hostname c' = "" /\ ~ In "" (map Hostname body'))
       /\ ((In "" hs -> mapBool (ExcludeDomains cf) "" = true) ->
           (exists body',
              tunnelIngress (AddRoutes tunnel cf hs svc (m, log)).2.1
                !! TunnelID tunnel = Some (body' ++ [c])
              /\ ~ In "" (map Hostname body'))
           /\ (exists body',
                 tunnelIngress (RemoveRoutes tunnel cf hs (m, log)).2.1
                   !! TunnelID tunnel = Some (body' ++ [c])
                 /\ ~ In "" (map Hostname body'))).
Proof.
  intros Hc Hbody.
  pose proof (addIngress_empty_last cf svc hs body c false Hc Hbody) as Hany.
  split; [exact Hany|]. split.
  - intros Hhs. split.
    + exact (addIngress_catch_all cf svc c hs body false Hc Hbody Hhs).
    + exact (removeIngress_catch_all cf hs body c Hc Hbody Hhs).
  - intros tunnel m log Hm.
    rewrite (AddRoutes_holds tunnel cf hs svc m log _ Hm).
    rewrite (RemoveRoutes_holds tunnel cf hs m log _ Hm).
    split.
    + destruct Hany as (body' & c' & Heq & Hc' & Hb). exists body', c'.
      unfold addIngress. now rewrite Heq.
    + intros Hhs. split.
      * destruct (addIngress_catch_all cf svc c hs body false Hc Hbody Hhs)
          as (body' & Heq & Hb).
        exists body'. unfold addIngress. now rewrite Heq.
      * destruct (removeIngress_catch_all cf hs body c Hc Hbody Hhs)
          as (body' & Heq & Hb).
        exists body'. now rewrite Heq.
Qed.

(** The tunnel of [TestTunnelRemoveRoutes]: two routes before the catch-all;
    removing one of them leaves the other and the catch-all, and adding one
    again puts it before the catch-all. *)
Lemma catch_all_stays_last_witness :
  (exists body' c',
     (addIngress testTunnelCf ["new.homelab.net"] "http://localhost:8080"
                 (twoRoutes ++ [catchAllRule])).1 = body' ++ [c']
     /\ Hostname c' = "" /\ ~ In "" (map Hostname body'))
  /\ (exists body',
        (removeIngress testTunnelCf ["app.homelab.net"]
                       (twoRoutes ++ [catchAllRule])).1
        = body' ++ [catchAllRule]
        /\ ~ In "" (map Hostname body'))
  /\ (removeIngress testTunnelCf ["app.homelab.net"]
                    (twoRoutes ++ [catchAllRule])).1
     = [{| Hostname := "git.homelab.net";
           Service := "http://localhost:8080" |}; catchAllRule].
Proof.
  assert (Hbody : ~ In "" (map Hostname twoRoutes)).
  { simpl. intros [H|[H|[]]]; discriminate H. }
  destruct (catch_all_stays_last testTunnelCf ["new.homelab.net"]
              "http://localhost:8080" twoRoutes catchAllRule eq_refl Hbody)
    as (Hadd & _ & _).
  destruct (catch_all_stays_last testTunnelCf ["app.homelab.net"]
              "http://localhost:8080" twoRoutes catchAllRule eq_refl Hbody)
    as (_ & Hrem & _).
  split; [exact Hadd|]. split; [|reflexivity].
  apply Hrem. intros [H|[]]. discriminate H.
Defined.

(** ** The upsert of [SyncDomains] *)

(** On a recorded provider the upsert makes the calls [upsertCalls] names, and
    acts on the provider as it does unrecorded. *)
Lemma upsertRecord_traced {St} `{CloudflareAPI St} config zoneID domain
    (s : St) log :
  upsertRecord config zoneID domain (s, log)
  = ((upsertRecord config zoneID domain s).1,
     ((upsertRecord config zoneID domain s).2,
      log ++ upsertCalls config zoneID domain s)).
Proof.
  unfold upsertCalls, upsertWrites, upsertRecord, bind. cbn.
  destruct (ListDNSRecords zoneID (cnameFilter domain) s) as [[existing|err] s1];
    cbn; [|reflexivity].
  destruct existing as [|rec rest]; cbn.
  - destruct (CreateDNSRecord zoneID _ s1) as [[created|err] s2]; cbn;
      now rewrite <- app_assoc.
  - destruct (String.eqb (rec_Content rec) (TargetDomain config)); cbn;
      [reflexivity|].
    destruct (UpdateDNSRecord zoneID (rec_ID rec) _ s1) as [err s2]; cbn.
    now rewrite <- app_assoc.
Qed.

Lemma syncDomain_managed {St} `{CloudflareAPI St} config domain (s : St) :
  managed config domain ->
  syncDomain config domain s
  = (tt, (upsertRecord config (findZoneForDomain config domain) domain s).2).
Proof.
  intros [He Hz]. unfold syncDomain. rewrite He.
  apply is_empty_false in Hz. rewrite Hz. unfold bind.
  now destruct (upsertRecord _ _ _ s).
Qed.

Lemma syncDomain_unmanaged {St} `{CloudflareAPI St} config domain (s : St) :
  ~ managed config domain -> syncDomain config domain s = (tt, s).
Proof.
  intros Hn. unfold syncDomain.
  destruct (mapBool _ domain) eqn:He; [reflexivity|].
  destruct (GoString.is_empty _) eqn:Hz; [reflexivity|].
  exfalso. apply Hn. split; [exact He | now apply is_empty_false].
Qed.

Lemma managed_dec config domain : managed config domain \/ ~ managed config domain.
Proof.
  unfold managed. destruct (mapBool _ domain); [right; now intros [? _]|].
  destruct (String.eqb_spec (findZoneForDomain config domain) "") as [->|Hne].
  - right. now intros [_ ?].
  - now left.
Qed.

Lemma findZone_nonempty_domain config domain :
  findZoneForDomain config domain <> "" -> domain <> "".
Proof.
  intros Hz ->. apply Hz. unfold findZoneForDomain, findZoneWith.
  destruct (zone_fold_spec zoneMatches "" (Zones config) ("", ""))
    as [[-> _] | (z & _ & Hm & _ & Hlt & _)]; [reflexivity|].
  exfalso. simpl in Hlt. apply zoneMatches_spec in Hm as [Heq | [p Heq]].
  - rewrite <- Heq in Hlt. simpl in Hlt. lia.
  - destruct p; discriminate.
Qed.

Lemma managed_nonempty config domain : managed config domain -> domain <> "".
Proof. intros [_ Hz]. exact (findZone_nonempty_domain config domain Hz). Qed.

Lemma filterMatches_cname domain rec :
  domain <> "" ->
  filterMatches (cnameFilter domain) rec
  = String.eqb (rec_Type rec) "CNAME" && String.eqb (rec_Name rec) domain.
Proof.
  intros Hne. unfold filterMatches. simpl.
  apply is_empty_false in Hne. now rewrite Hne.
Qed.

Lemma zoneRecords_insert m zoneID recs zoneID' nid :
  zoneRecords {| records := <[zoneID := recs]> (records m);
                 tunnelIngress := tunnelIngress m;
                 tunnelOrigin := tunnelOrigin m; tunnelWarp := tunnelWarp m;
                 nextID := nid |} zoneID'
  = if decide (zoneID = zoneID') then recs else zoneRecords m zoneID'.
Proof.
  unfold zoneRecords. simpl. rewrite lookup_insert.
  now destruct (decide (zoneID = zoneID')).
Qed.

(** The three outcomes of the upsert on the mock. *)
Lemma upsert_mock_create config zoneID domain m :
  List.filter (filterMatches (cnameFilter domain)) (zoneRecords m zoneID) = [] ->
  (upsertRecord config zoneID domain m).2
  = {| records :=
         <[zoneID := zoneRecords m zoneID
                     ++ [withID (recID (nextID m))
                           (cnameRecord domain (TargetDomain config)
                                        (Proxied config))]]> (records m);
       tunnelIngress := tunnelIngress m; tunnelOrigin := tunnelOrigin m;
       tunnelWarp := tunnelWarp m; nextID := wrapInt (nextID m + 1) |}.
Proof. intros Hl. unfold upsertRecord, bind. cbn. now rewrite Hl. Qed.

Lemma upsert_mock_noop config zoneID domain m rec rest :
  List.filter (filterMatches (cnameFilter domain)) (zoneRecords m zoneID)
  = rec :: rest ->
  rec_Content rec = TargetDomain config ->
  (upsertRecord config zoneID domain m).2 = m.
Proof.
  intros Hl Hc. unfold upsertRecord, bind. cbn. rewrite Hl.
  now rewrite Hc, String.eqb_refl.
Qed.

Lemma map_fixed {A} (f : A -> A) (l : list A) :
  (forall x, In x l -> f x = x) -> map f l = l.
Proof.
  induction l as [|a l IH]; intros H; simpl; [reflexivity|].
  rewrite H by now left. f_equal. apply IH. intros x Hx. apply H. now right.
Qed.

Lemma replaceByID_unique recordID record recs :
  NoDup (map rec_ID recs) -> In recordID (map rec_ID recs) ->
  replaceByID recordID record recs
  = Some (map (replaceRecord recordID record) recs).
Proof.
  induction recs as [|r recs IH]; simpl; [intros _ []|].
  intros Hnd Hin. apply NoDup_cons in Hnd as [Hnotin Hnd].
  unfold replaceRecord at 1.
  destruct (String.eqb_spec (rec_ID r) recordID) as [Heq|Hne].
  - f_equal. f_equal. symmetry. apply map_fixed.
    intros r' Hr'. unfold replaceRecord.
    destruct (String.eqb_spec (rec_ID r') recordID) as [Heq'|]; [|reflexivity].
    exfalso. apply Hnotin. rewrite list_elem_of_In, Heq, <- Heq'.
    now apply in_map.
  - destruct Hin as [Hin|Hin]; [contradiction|].
    rewrite IH; auto.
Qed.

Lemma upsert_mock_update config zoneID domain m rec rest :
  uniqueIDs m ->
  List.filter (filterMatches (cnameFilter domain)) (zoneRecords m zoneID)
  = rec :: rest ->
  rec_Content rec <> TargetDomain config ->
  (upsertRecord config zoneID domain m).2
  = set_records m
      (<[zoneID := map (replaceRecord (rec_ID rec)
                          (cnameRecord domain (TargetDomain config)
                                       (Proxied config)))
                       (zoneRecords m zoneID)]> (records m)).
Proof.
  intros Hu Hl Hc. unfold upsertRecord, bind. cbn. rewrite Hl.
  apply String.eqb_neq in Hc. rewrite Hc. cbn.
  rewrite replaceByID_unique; [reflexivity | apply Hu |].
  apply in_map. apply (List.filter_In (filterMatches (cnameFilter domain))).
  rewrite Hl. now left.
Qed.

Lemma cnameRecord_matches domain content proxied recordID domain' :
  domain' <> "" ->
  filterMatches (cnameFilter domain')
                (withID recordID (cnameRecord domain content proxied))
  = String.eqb domain domain'.
Proof. intros Hne. now rewrite filterMatches_cname. Qed.

Lemma cnameRecords_member config m domain rec :
  domain <> "" -> In rec (cnameRecords config m domain) ->
  In rec (zoneRecords m (findZoneForDomain config domain))
  /\ rec_Type rec = "CNAME" /\ rec_Name rec = domain.
Proof.
  intros Hne Hin. apply List.filter_In in Hin as [Hin Hm].
  rewrite filterMatches_cname in Hm by exact Hne.
  apply andb_true_iff in Hm as [Ht Hn].
  apply String.eqb_eq in Ht, Hn. auto.
Qed.

Lemma synced_of_records config m m' domain :
  cnameRecords config m' domain = cnameRecords config m domain ->
  synced config m domain -> synced config m' domain.
Proof. intros Heq (rec & Hr & Hc). exists rec. now rewrite Heq. Qed.

(** A step on a name that has no record yet, or is in place already. *)
Lemma sync_step_absent_or_synced config domain m :
  managed config domain ->
  cnameRecords config m domain = [] \/ synced config m domain ->
  synced config (syncDomain config domain m).2 domain
  /\ (forall d', d' <> "" -> d' <> domain ->
        cnameRecords config (syncDomain config domain m).2 d'
        = cnameRecords config m d')
  /\ (synced config m domain -> (syncDomain config domain m).2 = m).
Proof.
  intros Hm Hpre. pose proof (managed_nonempty _ _ Hm) as Hne.
  rewrite (syncDomain_managed config domain m Hm). simpl.
  destruct Hpre as [Habs | (rec & Hrec & Hc)].
  - rewrite (upsert_mock_create config _ domain m Habs).
    split; [|split].
    + eexists. unfold cnameRecords. rewrite zoneRecords_insert.
      destruct (decide _) as [_|Hd]; [|contradiction].
      rewrite List.filter_app. unfold cnameRecords in Habs. rewrite Habs.
      simpl. rewrite cnameRecord_matches by exact Hne.
      rewrite String.eqb_refl. split; reflexivity.
    + intros d' Hne' Hdiff. unfold cnameRecords. rewrite zoneRecords_insert.
      destruct (decide _) as [<-|_]; [|reflexivity].
      rewrite List.filter_app. simpl. rewrite cnameRecord_matches by exact Hne'.
      destruct (String.eqb_spec domain d'); [congruence|]. apply app_nil_r.
    + intros (rec & Hrec & _). rewrite Habs in Hrec. discriminate.
  - rewrite (upsert_mock_noop config _ domain m rec [] Hrec Hc).
    split; [now exists rec|]. split; [reflexivity | reflexivity].
Qed.

Lemma unique_by_ID (recs : list DNSRecord) r1 r2 :
  NoDup (map rec_ID recs) -> In r1 recs -> In r2 recs ->
  rec_ID r1 = rec_ID r2 -> r1 = r2.
Proof.
  induction recs as [|r recs IH]; simpl; [intros _ []|].
  intros Hnd H1 H2 Heq. apply NoDup_cons in Hnd as [Hnotin Hnd].
  rewrite list_elem_of_In in Hnotin.
  destruct H1 as [<-|H1], H2 as [<-|H2]; auto.
  - exfalso. apply Hnotin. rewrite Heq. now apply in_map.
  - exfalso. apply Hnotin. rewrite <- Heq. now apply in_map.
Qed.

Lemma replaceRecord_ID recordID record r :
  rec_ID (replaceRecord recordID record r) = rec_ID r.
Proof.
  unfold replaceRecord.
  destruct (String.eqb_spec (rec_ID r) recordID); [now subst | reflexivity].
Qed.

(** A step on a name that has exactly one record, in a mock with distinct
    IDs: the record is updated where it is. *)
Lemma sync_step_single config domain m :
  managed config domain -> uniqueIDs m ->
  (exists rec, cnameRecords config m domain = [rec]) ->
  uniqueIDs (syncDomain config domain m).2
  /\ synced config (syncDomain config domain m).2 domain
  /\ (forall d', d' <> "" -> d' <> domain ->
        cnameRecords config (syncDomain config domain m).2 d'
        = cnameRecords config m d')
  /\ (forall zoneID,
        map rec_ID (zoneRecords (syncDomain config domain m).2 zoneID)
        = map rec_ID (zoneRecords m zoneID)).
Proof.
  intros Hm Hu (rec & Hrec). pose proof (managed_nonempty _ _ Hm) as Hne.
  rewrite (syncDomain_managed config domain m Hm). simpl.
  destruct (String.eqb_spec (rec_Content rec) (TargetDomain config)) as [Hc|Hc].
  { rewrite (upsert_mock_noop config _ domain m rec [] Hrec Hc).
    split; [exact Hu|]. split; [now exists rec|]. split; reflexivity. }
  rewrite (upsert_mock_update config _ domain m rec [] Hu Hrec Hc).
  set (z := findZoneForDomain config domain).
  set (g := replaceRecord (rec_ID rec) _).
  assert (Hin : In rec (cnameRecords config m domain)) by (rewrite Hrec; now left).
  apply (cnameRecords_member config m domain rec Hne) in Hin
    as (Hinz & Htype & Hname). fold z in Hinz.
  assert (Hids : forall zoneID,
            map rec_ID (zoneRecords (set_records m
                          (<[z := map g (zoneRecords m z)]> (records m))) zoneID)
            = map rec_ID (zoneRecords m zoneID)).
  { intros zoneID. unfold set_records. rewrite zoneRecords_insert.
    destruct (decide (z = zoneID)) as [<-|_]; [|reflexivity].
    rewrite map_map. apply map_ext. intros r. apply replaceRecord_ID. }
  assert (Hfilter : forall d', d' <> "" ->
            cnameRecords config (set_records m
                          (<[z := map g (zoneRecords m z)]> (records m))) d'
            = if decide (z = findZoneForDomain config d')
              then map g (cnameRecords config m d')
              else cnameRecords config m d').
  { intros d' Hne'. unfold cnameRecords, set_records. rewrite zoneRecords_insert.
    destruct (decide _) as [<-|_]; [|reflexivity].
    rewrite filter_map_swap. f_equal. apply filter_ext_in.
    intros r Hr. unfold g, replaceRecord.
    destruct (String.eqb_spec (rec_ID r) (rec_ID rec)) as [Heq|]; [|reflexivity].
    rewrite (unique_by_ID _ r rec (Hu z) Hr Hinz Heq).
    rewrite cnameRecord_matches by exact Hne'.
    rewrite filterMatches_cname by exact Hne'.
    now rewrite Htype, Hname. }
  split; [|split; [|split; [|exact Hids]]].
  - intros zoneID. rewrite Hids. apply Hu.
  - unfold synced. rewrite (Hfilter domain Hne). fold z.
    destruct (decide (z = z)); [|contradiction].
    rewrite Hrec. simpl. eexists. split; [reflexivity|].
    unfold g, replaceRecord. now rewrite String.eqb_refl.
  - intros d' Hne' Hdiff. rewrite (Hfilter d' Hne').
    destruct (decide _) as [Hz|_]; [|reflexivity].
    apply map_fixed. intros r Hr. unfold g, replaceRecord.
    destruct (String.eqb_spec (rec_ID r) (rec_ID rec)) as [Heq|]; [|reflexivity].
    apply (cnameRecords_member config m d' r Hne') in Hr as (Hrz & _ & Hrn).
    rewrite <- Hz in Hrz.
    rewrite (unique_by_ID _ r rec (Hu z) Hrz Hinz Heq) in Hrn. congruence.
Qed.

Lemma SyncDomains_cons {St} `{CloudflareAPI St} config d rest (s : St) :
  SyncDomains config (d :: rest) s
  = SyncDomains config rest (syncDomain config d s).2.
Proof.
  unfold SyncDomains. simpl. unfold bind.
  now destruct (syncDomain config d s) as [[] s'].
Qed.

(** The loop over the names, for a step that brings a name in place and leaves
    the records of the other names alone. *)
Lemma sync_fold config (G : mockCloudflareAPI -> Prop)
    (P : mockCloudflareAPI -> string -> Prop) :
  (forall m d, managed config d -> G m -> P m d ->
     G (syncDomain config d m).2
     /\ synced config (syncDomain config d m).2 d
     /\ forall d', d' <> "" -> d' <> d ->
          cnameRecords config (syncDomain config d m).2 d'
          = cnameRecords config m d') ->
  (forall m m' d, cnameRecords config m' d = cnameRecords config m d ->
                  P m d -> P m' d) ->
  (forall m d, synced config m d -> P m d) ->
  forall names m,
    G m -> (forall d, In d names -> managed config d -> P m d) ->
    G (SyncDomains config names m).2
    /\ (forall d, In d names -> managed config d ->
                  synced config (SyncDomains config names m).2 d)
    /\ (forall d, d <> "" -> synced config m d ->
                  synced config (SyncDomains config names m).2 d).
Proof.
  intros Hstep HP Hsynced. induction names as [|d0 rest IH]; intros m HG Hpre.
  - split; [exact HG|]. split; [intros d []|auto].
  - rewrite SyncDomains_cons.
    destruct (managed_dec config d0) as [Hm|Hn].
    + destruct (Hstep m d0 Hm HG (Hpre d0 (or_introl eq_refl) Hm))
        as (HG' & Hs0 & Hframe).
      set (m' := (syncDomain config d0 m).2) in *.
      assert (Hkeep : forall d, d <> "" -> synced config m d ->
                                synced config m' d).
      { intros d Hne Hs. destruct (String.eqb_spec d d0) as [->|Hd]; [exact Hs0|].
        exact (synced_of_records config m m' d (Hframe d Hne Hd) Hs). }
      destruct (IH m' HG') as (HGf & Hall & Hpres).
      { intros d Hin Hmd. destruct (String.eqb_spec d d0) as [->|Hd].
        - now apply Hsynced.
        - apply (HP m m' d); [|apply Hpre; [now right | exact Hmd]].
          apply Hframe; [exact (managed_nonempty _ _ Hmd) | exact Hd]. }
      split; [exact HGf|]. split.
      * intros d [<-|Hin] Hmd; [|now apply Hall].
        apply Hpres; [exact (managed_nonempty _ _ Hmd) | exact Hs0].
      * intros d Hne Hs. apply Hpres; auto.
    + rewrite (syncDomain_unmanaged config d0 m Hn). simpl.
      destruct (IH m HG) as (HGf & Hall & Hpres).
      { intros d Hin. apply Hpre. now right. }
      split; [exact HGf|]. split; [|exact Hpres].
      intros d [<-|Hin] Hmd; [contradiction | now apply Hall].
Qed.

(** Once every name is in place, [SyncDomains] only lists. *)
Lemma SyncDomains_settled config names : forall m log,
  (forall d, In d names -> managed config d -> synced config m d) ->
  exists calls,
    SyncDomains config names (m, log) = (tt, (m, log ++ calls))
    /\ Forall isListCall calls.
Proof.
  induction names as [|d rest IH]; intros m log Hall.
  - exists []. split; [now rewrite app_nil_r | constructor].
  - rewrite SyncDomains_cons.
    destruct (managed_dec config d) as [Hm|Hn].
    + destruct (Hall d (or_introl eq_refl) Hm) as (rec & Hrec & Hc).
      rewrite (syncDomain_managed config d (m, log) Hm).
      rewrite upsertRecord_traced. cbn [fst snd].
      rewrite (upsert_mock_noop config _ d m rec [] Hrec Hc).
      unfold upsertCalls. cbn [ListDNSRecords mockAPI fst].
      unfold cnameRecords in Hrec. rewrite Hrec. unfold upsertWrites.
      rewrite Hc, String.eqb_refl.
      destruct (IH m (log ++ [CallList (findZoneForDomain config d)
                                       (cnameFilter d) (inl [rec])]))
        as (calls & Hrun & Hcalls).
      { intros d' Hin. apply Hall. now right. }
      exists (CallList (findZoneForDomain config d) (cnameFilter d) (inl [rec])
              :: calls).
      split; [|constructor; [exact I | exact Hcalls]].
      rewrite Hrun. now rewrite <- app_assoc.
    + rewrite (syncDomain_unmanaged config d (m, log) Hn).
      apply IH. intros d' Hin. apply Hall. now right.
Qed.


(** The runs of [TestCloudflareIdempotentSync] and [TestCloudflareUpdateTarget]
    from a fresh mock. *)
Lemma sync_test_runs :
  let names := ["app.homelab.net"] in
  let m1 := (SyncDomains testTunnelCf names newMockCloudflareAPI).2 in
  let m2 := (SyncDomains testTunnelCf names m1).2 in
  let m3 := (SyncDomains (withTarget testTunnelCf "new-traefik.homelab.net")
                         names m1).2 in
  zoneRecords m1 "zone_1"
  = [{| rec_ID := "rec_1"; rec_Type := "CNAME"; rec_Name := "app.homelab.net";
        rec_Content := "traefik.homelab.net"; rec_Proxied := Some false;
        rec_TTL := 1 |}]
  /\ m2 = m1
  /\ zoneRecords m3 "zone_1"
     = [{| rec_ID := "rec_1"; rec_Type := "CNAME"; rec_Name := "app.homelab.net";
           rec_Content := "new-traefik.homelab.net"; rec_Proxied := Some false;
           rec_TTL := 1 |}].
Proof. repeat split; vm_compute; reflexivity. Qed.

(** ** Excluded names *)

Lemma forEach_skip {St A} (p : A -> bool) (body : A -> M St unit) xs (s : St) :
  (forall x, p x = false -> body x = ret tt) ->
  forEach xs body s = forEach (List.filter p xs) body s.
Proof.
  intros Hskip. revert s. induction xs as [|x xs IH]; intros s; simpl;
    [reflexivity|].
  destruct (p x) eqn:Hp; simpl.
  - unfold bind. destruct (body x s) as [[] s']. apply IH.
  - rewrite (Hskip x Hp). unfold bind, ret. apply IH.
Qed.

Lemma addIngress_skip cf hs svc ingress :
  addIngress cf hs svc ingress = addIngress cf (notExcluded cf hs) svc ingress.
Proof.
  unfold addIngress, notExcluded. generalize (ingress, false) as acc.
  induction hs as [|h hs IH]; intros acc; simpl; [reflexivity|].
  destruct (mapBool (ExcludeDomains cf) h) eqn:He; simpl.
  - unfold addRoute at 2. rewrite He. apply IH.
  - apply IH.
Qed.

Lemma buildRemoveSet_skip cf hs :
  buildRemoveSet cf hs = buildRemoveSet cf (notExcluded cf hs).
Proof.
  unfold buildRemoveSet, notExcluded. generalize (∅ : gmap string bool) as acc.
  induction hs as [|h hs IH]; intros acc; simpl; [reflexivity|].
  destruct (mapBool (ExcludeDomains cf) h) eqn:He; simpl.
  - apply IH.
  - rewrite He. simpl. apply IH.
Qed.

Lemma notExcluded_idem cf hs :
  notExcluded cf (notExcluded cf hs) = notExcluded cf hs.
Proof.
  unfold notExcluded. induction hs as [|h hs IH]; simpl; [reflexivity|].
  destruct (negb _) eqn:He; simpl; [rewrite He, IH|]; auto.
Qed.

(** The four operations skip the excluded names before any call: they run as
    on the names that are not excluded. *)
Lemma excluded_names_skipped {St} `{CloudflareAPI St} tunnel config names svc
    (s : St) :
  SyncDomains config names s = SyncDomains config (notExcluded config names) s
  /\ RemoveDomains config names s
     = RemoveDomains config (notExcluded config names) s
  /\ AddRoutes tunnel config names svc s
     = AddRoutes tunnel config (notExcluded config names) svc s
  /\ RemoveRoutes tunnel config names s
     = RemoveRoutes tunnel config (notExcluded config names) s.
Proof.
  assert (Hloop : forall (body : string -> M St unit) s0,
            forEach names (fun h => if mapBool (ExcludeDomains config) h
                                    then ret tt else body h) s0
            = forEach (notExcluded config names)
                      (fun h => if mapBool (ExcludeDomains config) h
                                then ret tt else body h) s0).
  { intros body s0. apply forEach_skip. intros x Hx.
    apply negb_false_iff in Hx. now rewrite Hx. }
  split; [|split; [|split]].
  - unfold SyncDomains, notExcluded. apply forEach_skip. intros x Hx.
    apply negb_false_iff in Hx. unfold syncDomain. now rewrite Hx.
  - unfold RemoveDomains, notExcluded. apply forEach_skip. intros x Hx.
    apply negb_false_iff in Hx. unfold removeDomain. now rewrite Hx.
  - unfold AddRoutes, bind.
    destruct (GetTunnelConfiguration _ _ s) as [[fetched|err] s1]; [|reflexivity].
    rewrite <- addIngress_skip. destruct (addIngress _ _ _ _) as [ing md].
    destruct (pushIfModified _ _ _ _ s1) as [[|] s2]; [|reflexivity].
    apply Hloop.
  - unfold RemoveRoutes, bind.
    destruct (GetTunnelConfiguration _ _ s) as [[fetched|err] s1]; [|reflexivity].
    unfold removeIngress. rewrite <- buildRemoveSet_skip.
    destruct (fold_left _ _ _) as [ing md].
    destruct (pushIfModified _ _ _ _ s1) as [[|] s2]; [|reflexivity].
    apply Hloop.
Qed.

Lemma updateExisting_excluded (excluded : string -> bool) h svc ingress :
  excluded h = false ->
  forall ingress' changed,
    updateExisting h svc ingress = Some (ingress', changed) ->
    List.filter (fun r => excluded (Hostname r)) ingress'
    = List.filter (fun r => excluded (Hostname r)) ingress.
Proof.
  intros He. induction ingress as [|r rest IH]; intros ingress' changed; simpl;
    [discriminate|].
  destruct (String.eqb_spec (Hostname r) h) as [Heq|Hne].
  - destruct (String.eqb (Service r) svc); intros [= <- <-]; [reflexivity|].
    simpl. now rewrite Heq, He.
  - destruct (updateExisting h svc rest) as [[rest' ch]|]; [|discriminate].
    intros [= <- <-]. simpl. now rewrite (IH rest' ch eq_refl).
Qed.

Lemma addRoute_excluded cf svc fetched acc h :
  let ex := fun r => mapBool (ExcludeDomains cf) (Hostname r) in
  (acc.1 = [] /\ fetched = []
   \/ acc.1 <> []
      /\ List.filter ex acc.1
         = List.filter ex (match fetched with
                           | [] => [catchAllRule]
                           | _ => fetched
                           end)) ->
  ((addRoute cf svc acc h).1 = [] /\ fetched = []
   \/ (addRoute cf svc acc h).1 <> []
      /\ List.filter ex (addRoute cf svc acc h).1
         = List.filter ex (match fetched with
                           | [] => [catchAllRule]
                           | _ => fetched
                           end)).
Proof.
  intros ex Hinv. unfold addRoute.
  destruct (mapBool (ExcludeDomains cf) h) eqn:He; [exact Hinv|].
  destruct (updateExisting h svc acc.1) as [[ing' ch]|] eqn:Hu; simpl.
  - destruct Hinv as [[Hnil _] | [Hne Hf]].
    + rewrite Hnil in Hu. discriminate.
    + right. split.
      * apply updateExisting_Some in Hu as (_ & _ & Hmap & _).
        intros ->. destruct acc.1; [contradiction | discriminate].
      * rewrite <- Hf.
        exact (updateExisting_excluded (mapBool (ExcludeDomains cf)) h svc
                 acc.1 He ing' ch Hu).
  - right. destruct (snoc_cases acc.1) as [Hnil | (body & l & Hsnoc)].
    + rewrite Hnil. rewrite insertRule_nil. split; [discriminate|].
      destruct Hinv as [[_ ->] | [Hne _]]; [|contradiction].
      simpl. unfold ex at 1. simpl. now rewrite He.
    + rewrite Hsnoc, insertRule_snoc. split; [now destruct body|].
      destruct Hinv as [[Hnil _] | [_ Hf]];
        [rewrite Hnil in Hsnoc; now destruct body|].
      rewrite <- Hf, Hsnoc, !List.filter_app. simpl.
      unfold ex at 2. simpl. now rewrite He.
Qed.

Lemma addIngress_excluded cf hs svc fetched :
  excludedRulesKept (mapBool (ExcludeDomains cf)) fetched
                    (addIngress cf hs svc fetched).1.
Proof.
  set (ex := fun r => mapBool (ExcludeDomains cf) (Hostname r)).
  assert (H : forall acc,
    (acc.1 = [] /\ fetched = []
     \/ acc.1 <> []
        /\ List.filter ex acc.1
           = List.filter ex (match fetched with
                             | [] => [catchAllRule] | _ => fetched end)) ->
    let r := fold_left (addRoute cf svc) hs acc in
    (r.1 = [] /\ fetched = []
     \/ r.1 <> []
        /\ List.filter ex r.1
           = List.filter ex (match fetched with
                             | [] => [catchAllRule] | _ => fetched end))).
  { induction hs as [|h hs IH]; intros acc Hinv; simpl; [exact Hinv|].
    apply IH. now apply addRoute_excluded. }
  unfold excludedRulesKept, addIngress. fold ex.
  destruct (H (fetched, false)) as [[-> ->] | [_ Hf]].
  - destruct fetched; [now left | right; split; [discriminate | reflexivity]].
  - now left.
  - destruct fetched; [right; split; [reflexivity | exact Hf] | left; exact Hf].
Qed.

Lemma removeIngress_excluded cf hs fetched :
  excludedRulesKept (mapBool (ExcludeDomains cf)) fetched
                    (removeIngress cf hs fetched).1.
Proof.
  left. rewrite removeIngress_filter. simpl.
  induction fetched as [|r rest IH]; simpl; [reflexivity|].
  destruct (keptRule _ r) eqn:Hk; simpl.
  - now rewrite IH.
  - rewrite IH.
    destruct (mapBool (ExcludeDomains cf) (Hostname r)) eqn:He; [|reflexivity].
    exfalso. unfold keptRule in Hk. apply negb_false_iff in Hk.
    apply buildRemoveSet_spec in Hk as [_ Hk]. congruence.
Qed.

(** *** Every call is justified *)

Section Justified.
Context {St : Type} {API : CloudflareAPI St}.
Variable excluded : string -> bool.
Variable pre : list Call.

Lemma justified_weaken known known' (st : Traced St) :
  incl known' known ->
  callsJustified excluded pre known st ->
  callsJustified excluded pre known' st.
Proof.
  intros Hincl (calls & Hl & Hj & Hk). exists calls.
  split; [exact Hl|]. split; [exact Hj|].
  intros c Hc. apply Hk, Hincl, Hc.
Qed.

(** One more call [c], justified after the calls so far. *)
Lemma justified_extend known (s s' : St) log c :
  callsJustified excluded pre known (s, log) ->
  (forall calls, justified excluded calls -> incl known calls ->
                 justified excluded (calls ++ [c])) ->
  callsJustified excluded pre (c :: known) (s', log ++ [c]).
Proof.
  intros (calls & Hl & Hj & Hk) Hc. simpl in Hl. subst log.
  exists (calls ++ [c]). split; [simpl; now rewrite app_assoc|].
  split; [now apply Hc|].
  intros c' [<-|Hin]; apply in_or_app; [right; now left | left; now apply Hk].
Qed.

Lemma hoare_list known zoneID filter :
  excluded (rec_Name filter) = false ->
  hoare (callsJustified excluded pre known) (ListDNSRecords zoneID filter)
        (fun result =>
           callsJustified excluded pre (CallList zoneID filter result :: known)).
Proof.
  intros He [s log] Hinv. cbn.
  destruct (ListDNSRecords zoneID filter s) as [result s']. cbn.
  apply (justified_extend known s); [exact Hinv|].
  intros calls Hj _. now constructor.
Qed.

Lemma preserves_create known zoneID record :
  excluded (rec_Name record) = false ->
  preserves (callsJustified excluded pre known)
            (CreateDNSRecord zoneID record).
Proof.
  intros He [s log] Hinv. cbn.
  destruct (CreateDNSRecord zoneID record s) as [result s']. cbn.
  apply (justified_weaken (CallCreate zoneID record :: known));
    [intros c Hc; now right|].
  apply (justified_extend known s); [exact Hinv|].
  intros calls Hj _. now constructor.
Qed.

Lemma preserves_update known zoneID recordID record :
  excluded (rec_Name record) = false ->
  preserves (callsJustified excluded pre known)
            (UpdateDNSRecord zoneID recordID record).
Proof.
  intros He [s log] Hinv. cbn.
  destruct (UpdateDNSRecord zoneID recordID record s) as [result s']. cbn.
  apply (justified_weaken (CallUpdate zoneID recordID record :: known));
    [intros c Hc; now right|].
  apply (justified_extend known s); [exact Hinv|].
  intros calls Hj _. now constructor.
Qed.

Lemma preserves_delete known zoneID recordID filter listed :
  In (CallList zoneID filter (inl listed)) known ->
  excluded (rec_Name filter) = false ->
  In recordID (map rec_ID listed) ->
  preserves (callsJustified excluded pre known)
            (DeleteDNSRecord zoneID recordID).
Proof.
  intros Hk He Hid [s log] Hinv. cbn.
  destruct (DeleteDNSRecord zoneID recordID s) as [result s']. cbn.
  apply (justified_weaken (CallDelete zoneID recordID :: known));
    [intros c Hc; now right|].
  apply (justified_extend known s); [exact Hinv|].
  intros calls Hj Hincl.
  apply (just_delete excluded calls zoneID recordID filter listed); auto.
Qed.

Lemma hoare_get known accountID tunnelID :
  hoare (callsJustified excluded pre known)
        (GetTunnelConfiguration accountID tunnelID)
        (fun result =>
           callsJustified excluded pre
             (CallGetTunnel accountID tunnelID result :: known)).
Proof.
  intros [s log] Hinv. cbn.
  destruct (GetTunnelConfiguration accountID tunnelID s) as [result s']. cbn.
  apply (justified_extend known s); [exact Hinv|].
  intros calls Hj _. now constructor.
Qed.

Lemma preserves_put known accountID tunnelID fetched config :
  In (CallGetTunnel accountID tunnelID (inl fetched)) known ->
  excludedRulesKept excluded (Ingress fetched) (Ingress config) ->
  preserves (callsJustified excluded pre known)
            (UpdateTunnelConfiguration accountID tunnelID config).
Proof.
  intros Hk Hkept [s log] Hinv. cbn.
  destruct (UpdateTunnelConfiguration accountID tunnelID config s)
    as [result s']. cbn.
  apply (justified_weaken (CallPutTunnel accountID tunnelID config :: known));
    [intros c Hc; now right|].
  apply (justified_extend known s); [exact Hinv|].
  intros calls Hj Hincl.
  apply (just_put excluded calls accountID tunnelID fetched config); auto.
Qed.

(** After a listing for a name that is not excluded, the rest of the
    computation may rely on it. *)
Lemma after_list {A} known zoneID domain
    (k : list DNSRecord + string -> M (Traced St) A) :
  excluded domain = false ->
  (forall result,
     preserves (callsJustified excluded pre
                  (CallList zoneID (cnameFilter domain) result :: known))
               (k result)) ->
  preserves (callsJustified excluded pre known)
            (bind (ListDNSRecords zoneID (cnameFilter domain)) k).
Proof.
  intros He Hk.
  apply (hoare_bind _ _ _
           (fun result => callsJustified excluded pre
              (CallList zoneID (cnameFilter domain) result :: known))).
  - now apply hoare_list.
  - intros result.
    set (known' := CallList zoneID (cnameFilter domain) result :: known).
    apply (hoare_weaken (callsJustified excluded pre known')
             (callsJustified excluded pre known') (k result)
             (fun _ => callsJustified excluded pre known')
             (fun _ => callsJustified excluded pre known));
      [apply Hk | auto |].
    intros a st. apply justified_weaken. intros c Hc. now right.
Qed.

Lemma upsertRecord_justified known config zoneID domain :
  excluded domain = false ->
  preserves (callsJustified excluded pre known)
            (upsertRecord config zoneID domain).
Proof.
  intros He. unfold upsertRecord. apply after_list; [exact He|].
  intros result.
  repeat first [ apply preserves_create; exact He
               | apply preserves_update; exact He
               | preserves_step ].
Qed.

Lemma upsertTunnelDNS_justified known cf hostname cnameTarget :
  excluded hostname = false ->
  preserves (callsJustified excluded pre known)
            (upsertTunnelDNS cf hostname cnameTarget).
Proof.
  intros He. unfold upsertTunnelDNS.
  destruct (GoString.is_empty _); [apply preserves_ret|].
  apply after_list; [exact He|]. intros result.
  repeat first [ apply preserves_create; exact He
               | apply preserves_update; exact He
               | preserves_step ].
Qed.

Lemma deleteEach_justified known zoneID filter listed recs :
  In (CallList zoneID filter (inl listed)) known ->
  excluded (rec_Name filter) = false ->
  incl recs listed ->
  preserves (callsJustified excluded pre known) (deleteEach zoneID recs).
Proof.
  intros Hk He. induction recs as [|rec rest IH]; intros Hincl; simpl.
  - apply preserves_ret.
  - apply preserves_bind.
    + apply (preserves_delete known zoneID _ filter listed Hk He).
      apply in_map, Hincl. now left.
    + intros [err|]; [apply preserves_ret|].
      apply IH. intros r Hr. apply Hincl. now right.
Qed.

Lemma deleteRecord_justified known zoneID domain :
  excluded domain = false ->
  preserves (callsJustified excluded pre known) (deleteRecord zoneID domain).
Proof.
  intros He. unfold deleteRecord. apply after_list; [exact He|].
  intros [listed|err]; [|apply preserves_ret].
  apply (deleteEach_justified _ zoneID (cnameFilter domain) listed);
    [now left | exact He | apply incl_refl].
Qed.

Lemma deleteTunnelDNS_justified known cf hostname :
  excluded hostname = false ->
  preserves (callsJustified excluded pre known) (deleteTunnelDNS cf hostname).
Proof.
  intros He. unfold deleteTunnelDNS.
  destruct (GoString.is_empty _); [apply preserves_ret|].
  apply after_list; [exact He|].
  intros [listed|err]; [|apply preserves_ret].
  apply preserves_forEach. intros rec Hrec.
  apply preserves_bind; [|intros _; apply preserves_ret].
  apply (preserves_delete _ _ _ (cnameFilter hostname) listed);
    [now left | exact He | now apply in_map].
Qed.

End Justified.

Lemma subjectNotExcluded_mono excluded calls c0 c :
  subjectNotExcluded excluded calls c ->
  subjectNotExcluded excluded (calls ++ [c0]) c.
Proof.
  destruct c; simpl; auto.
  - intros (f & listed & Hin & He & Hid). exists f, listed.
    split; [apply in_or_app; now left | auto].
  - intros (fetched & Hin & Hk). exists fetched.
    split; [apply in_or_app; now left | auto].
Qed.

Lemma justified_subjects excluded calls :
  justified excluded calls ->
  Forall (subjectNotExcluded excluded calls) calls.
Proof.
  induction 1 as [ | calls z f res Hj IH He | calls z r Hj IH He
                   | calls z id r Hj IH He
                   | calls z id f listed Hj IH Hin He Hid
                   | calls a t res Hj IH
                   | calls a t fetched config Hj IH Hin Hk ];
    [constructor | | | | | | ];
    (apply Forall_app; split;
     [ eapply List.Forall_impl; [|exact IH];
       intros c; apply subjectNotExcluded_mono
     | constructor; [|constructor] ]); simpl; auto.
  - exists f, listed. split; [apply in_or_app; now left | auto].
  - exists fetched. split; [apply in_or_app; now left | auto].
Qed.

Lemma runs_of_preserves {St} excluded (op : M (Traced St) unit) (s : St) pre :
  preserves (callsJustified excluded pre []) op ->
  runsJustified excluded op s pre.
Proof.
  intros Hp. specialize (Hp (s, pre)). unfold runsJustified.
  destruct (op (s, pre)) as [[] [s' log]]. simpl in Hp.
  destruct Hp as (calls & Hl & Hj & _).
  - exists []. split; [simpl; now rewrite app_nil_r|].
    split; [constructor | intros c []].
  - simpl in Hl. subst log. exists s', calls.
    split; [reflexivity|]. split; [exact Hj | now apply justified_subjects].
Qed.

Section Operations.
Context {St : Type} {API : CloudflareAPI St}.
Variable config : CloudflareConfig.
Variable pre : list Call.

Let excluded := mapBool (ExcludeDomains config).

Lemma SyncDomains_justified names :
  preserves (callsJustified (St := St) excluded pre [])
            (SyncDomains config names).
Proof.
  apply preserves_forEach. intros d _. unfold syncDomain.
  destruct (mapBool _ d) eqn:He; [apply preserves_ret|].
  destruct (GoString.is_empty _); [apply preserves_ret|].
  apply preserves_bind; [|intros _; apply preserves_ret].
  now apply upsertRecord_justified.
Qed.

Lemma RemoveDomains_justified names :
  preserves (callsJustified (St := St) excluded pre [])
            (RemoveDomains config names).
Proof.
  apply preserves_forEach. intros d _. unfold removeDomain.
  destruct (mapBool _ d) eqn:He; [apply preserves_ret|].
  destruct (GoString.is_empty _); [apply preserves_ret|].
  apply preserves_bind; [|intros _; apply preserves_ret].
  now apply deleteRecord_justified.
Qed.

(** The part shared by [AddRoutes] and [RemoveRoutes] after the fetch. *)
Lemma push_and_dns_justified tunnel fetched names
    (result : list UnvalidatedIngressRule * bool)
    (dns : string -> M (Traced St) unit) :
  excludedRulesKept excluded (Ingress fetched) result.1 ->
  (forall known h, excluded h = false ->
                   preserves (callsJustified excluded pre known) (dns h)) ->
  hoare (callsJustified excluded pre
           [CallGetTunnel (AccountID tunnel) (TunnelID tunnel) (inl fetched)])
        (do pushed <- pushIfModified tunnel fetched result.1 result.2;
         if pushed then
           forEach names (fun hostname =>
                            if mapBool (ExcludeDomains config) hostname
                            then ret tt else dns hostname)
         else ret tt)
        (fun _ => callsJustified excluded pre []).
Proof.
  intros Hkept Hdns.
  set (known := [CallGetTunnel (AccountID tunnel) (TunnelID tunnel)
                               (inl fetched)]).
  apply (hoare_weaken (callsJustified excluded pre known)
           (callsJustified excluded pre known) _
           (fun _ => callsJustified excluded pre known)
           (fun _ => callsJustified excluded pre [])); [|auto|].
  - apply preserves_bind.
    + unfold pushIfModified. destruct result.2; [|apply preserves_ret].
      apply preserves_bind; [|intros [?|?]; apply preserves_ret].
      apply (preserves_put _ _ _ _ _ fetched); [now left | exact Hkept].
    + intros [|]; [|apply preserves_ret].
      apply preserves_forEach. intros h _.
      destruct (mapBool _ h) eqn:He; [apply preserves_ret | now apply Hdns].
  - intros _ st. apply justified_weaken. intros c [].
Qed.

Lemma AddRoutes_justified tunnel names svc :
  preserves (callsJustified (St := St) excluded pre [])
            (AddRoutes tunnel config names svc).
Proof.
  unfold AddRoutes.
  apply (hoare_bind _ _ _
           (fun result => callsJustified excluded pre
              [CallGetTunnel (AccountID tunnel) (TunnelID tunnel) result]));
    [apply hoare_get|].
  intros [fetched|err].
  - pose proof (addIngress_excluded config names svc (Ingress fetched)) as Hk.
    pose proof (push_and_dns_justified tunnel fetched names
                  (addIngress config names svc (Ingress fetched))
                  (fun h => upsertTunnelDNS config h
                              (TunnelID tunnel +:+ ".cfargotunnel.com")) Hk)
      as Hrun.
    destruct (addIngress config names svc (Ingress fetched)) as [ing md].
    apply Hrun. intros known h He. now apply upsertTunnelDNS_justified.
  - apply hoare_ret. intros st. apply justified_weaken. intros c [].
Qed.

Lemma RemoveRoutes_justified tunnel names :
  preserves (callsJustified (St := St) excluded pre [])
            (RemoveRoutes tunnel config names).
Proof.
  unfold RemoveRoutes.
  apply (hoare_bind _ _ _
           (fun result => callsJustified excluded pre
              [CallGetTunnel (AccountID tunnel) (TunnelID tunnel) result]));
    [apply hoare_get|].
  intros [fetched|err].
  - pose proof (removeIngress_excluded config names (Ingress fetched)) as Hk.
    pose proof (push_and_dns_justified tunnel fetched names
                  (removeIngress config names (Ingress fetched))
                  (fun h => deleteTunnelDNS config h) Hk) as Hrun.
    destruct (removeIngress config names (Ingress fetched)) as [ing md].
    apply Hrun. intros known h He. now apply deleteTunnelDNS_justified.
  - apply hoare_ret. intros st. apply justified_weaken. intros c [].
Qed.

End Operations.

(** C8.  Whatever the provider and the names given, [SyncDomains],
    [RemoveDomains], [AddRoutes] and [RemoveRoutes] run as they do on the names
    that are not excluded, and each call they make is justified: a listing,
    creation or update carries a name that is not excluded, a deletion
    removes a record listed for such a name, and a pushed ingress list keeps
    the rules of excluded hostnames as they were fetched. *)
Theorem excluded_names_never_called :
  forall St (API : CloudflareAPI St) tunnel config names svc (s : St) pre,
    let excluded := mapBool (ExcludeDomains config) in
    let kept := notExcluded config names in
    (SyncDomains config names (s, pre) = SyncDomains config kept (s, pre)
     /\ RemoveDomains config names (s, pre) = RemoveDomains config kept (s, pre)
     /\ AddRoutes tunnel config names svc (s, pre)
        = AddRoutes tunnel config kept svc (s, pre)
     /\ RemoveRoutes tunnel config names (s, pre)
        = RemoveRoutes tunnel config kept (s, pre))
    /\ runsJustified excluded (SyncDomains config names) s pre
    /\ runsJustified excluded (RemoveDomains config names) s pre
    /\ runsJustified excluded (AddRoutes tunnel config names svc) s pre
    /\ runsJustified excluded (RemoveRoutes tunnel config names) s pre.
Proof.
  intros St API tunnel config names svc s pre excluded kept.
  split; [apply excluded_names_skipped|].
  split; [apply runs_of_preserves, SyncDomains_justified|].
  split; [apply runs_of_preserves, RemoveDomains_justified|].
  split; [apply runs_of_preserves, AddRoutes_justified|].
  apply runs_of_preserves, RemoveRoutes_justified.
Qed.

(* ===================================================================== *)
(** * Part III: further properties of the code                            *)
(* ===================================================================== *)

(** ** The registry *)

Lemma set_containerInfoMap_twice dd m1 m2 :
  set_containerInfoMap (set_containerInfoMap dd m1) m2
  = set_containerInfoMap dd m2.
Proof. reflexivity. Qed.

(** X1.  Stopping a container after it was registered leaves the registry as
    it was without that container, and hands to [RemoveDomains] exactly the
    domains the registration handed to [SyncDomains]. *)
Theorem update_then_remove w fuel dd c dd' spawned :
  updateContainerInfo w fuel dd c = Some (dd', spawned) ->
  containerInfoMap (removeContainerInfo dd' (ID c)).1
  = delete (ID c) (containerInfoMap dd)
  /\ (removeContainerInfo dd' (ID c)).2 = spawned.
Proof.
  unfold updateContainerInfo. rewrite delete_if_exists.
  destruct (resolveDomainsByContainer w dd c) as [dn cn].
  destruct (getContainerAddress w fuel c false) as [[a err]|]; [|discriminate].
  destruct (match a with
            | Some _ => getContainerAddress w fuel c true
            | None => Some (None, None)
            end) as [[a6 err6]|]; [|discriminate].
  destruct (_ || _) eqn:Hstore; intros [= <- <-]; unfold removeContainerInfo;
    simpl.
  - rewrite lookup_insert_eq. simpl. split; [|reflexivity].
    now rewrite delete_insert_eq, delete_delete_eq.
  - rewrite lookup_delete_eq. simpl. split; reflexivity.
Qed.

Lemma update_then_remove_witness :
  containerInfoMap (removeContainerInfo registeredTraefik (ID traefikContainer)).1
  = delete (ID traefikContainer) (containerInfoMap syncingPlugin)
  /\ (removeContainerInfo registeredTraefik (ID traefikContainer)).2
     = Some ["traefik.177cpt.com"].
Proof.
  apply (update_then_remove sampleExtern 1 syncingPlugin traefikContainer
           registeredTraefik (Some ["traefik.177cpt.com"])).
  vm_compute. reflexivity.
Defined.

Lemma update_same_off_entry w fuel dd c m' :
  delete (ID c) m' = delete (ID c) (containerInfoMap dd) ->
  updateContainerInfo w fuel (set_containerInfoMap dd m') c
  = updateContainerInfo w fuel dd c.
Proof.
  intros Hm. unfold updateContainerInfo. rewrite !delete_if_exists.
  change (resolveDomainsByContainer w (set_containerInfoMap dd m') c)
    with (resolveDomainsByContainer w dd c).
  simpl containerInfoMap. rewrite Hm.
  destruct (resolveDomainsByContainer w dd c) as [dn cn].
  destruct (getContainerAddress w fuel c false) as [[a err]|]; [|reflexivity].
  destruct (match a with
            | Some _ => getContainerAddress w fuel c true
            | None => Some (None, None)
            end) as [[a6 err6]|]; reflexivity.
Qed.

(** X2.  A registration recomputes the container's entry from scratch: the
    outcome does not depend on the entry the registry held for that
    container; and registering the same container again in the same world,
    that is with the docker daemon answering the same and the label and
    network maps visited in the same orders, changes nothing.  (A second
    registration that visits the maps in another order may store the same
    domains in another order.) *)
Theorem update_overwrites w fuel dd c :
  (forall m',
     delete (ID c) m' = delete (ID c) (containerInfoMap dd) ->
     updateContainerInfo w fuel (set_containerInfoMap dd m') c
     = updateContainerInfo w fuel dd c)
  /\ (forall dd' spawned,
        updateContainerInfo w fuel dd c = Some (dd', spawned) ->
        updateContainerInfo w fuel dd' c = Some (dd', spawned)).
Proof.
  split; [intros m'; apply update_same_off_entry|].
  intros dd' spawned Hu.
  assert (Hdd : dd' = set_containerInfoMap dd (containerInfoMap dd')).
  { generalize Hu. unfold updateContainerInfo.
    destruct (resolveDomainsByContainer w dd c) as [dn cn].
    destruct (getContainerAddress w fuel c false) as [[a' err']|]; [|discriminate].
    destruct (match a' with
              | Some _ => getContainerAddress w fuel c true
              | None => Some (None, None)
              end) as [[a6' err6']|]; [|discriminate].
    destruct (_ || _); intros H; inversion H; reflexivity. }
  destruct (update_result _ _ _ _ _ _ Hu) as (a & err & a6 & _ & _ & Hm).
  rewrite Hdd at 1. rewrite update_same_off_entry.
  - rewrite Hu. f_equal.
  - rewrite Hm. destruct (_ || _).
    + now rewrite delete_insert_eq, delete_delete_eq.
    + now rewrite delete_delete_eq.
Qed.

Lemma update_overwrites_witness :
  updateContainerInfo sampleExtern 1 registeredTraefik traefikContainer
  = Some (registeredTraefik, Some ["traefik.177cpt.com"]).
Proof.
  apply (proj2 (update_overwrites sampleExtern 1 syncingPlugin traefikContainer)).
  vm_compute. reflexivity.
Defined.

(** ** Replies *)

(** X3.  Whatever [ServeDNS] writes is an authoritative, non-recursive
    NOERROR reply with at most one answer; the answer is named after the
    query, carries the configured TTL, and is of the family asked for or a
    CNAME (an A query never gets an AAAA record, nor the reverse); and a
    reply is written only for a name the registry knows. *)
Theorem served_reply_shape dd entries r m rc :
  ServeDNS dd entries r = WriteMsg m rc ->
  rc = RcodeSuccess /\ Rcode m = RcodeSuccess
  /\ Authoritative m = true /\ RecursionAvailable m = false
  /\ length (Answer m) <= 1
  /\ containerInfoByDomain entries (QName r) <> None
  /\ forall rr, In rr (Answer m) ->
       rrName rr = ReqName r /\ rrTTL rr = ttl dd /\ answersQuery (QType r) rr.
Proof.
  unfold ServeDNS, collectAnswers, getCNAMEAnswer, getAnswer.
  destruct (Z.eqb_spec (QType r) TypeA) as [HA|HA];
    [|destruct (Z.eqb_spec (QType r) TypeAAAA) as [H6|H6];
      [|destruct (Z.eqb_spec (QType r) TypeCNAME) as [HC|HC]]];
    (destruct (containerInfoByDomain entries (QName r)) as [res|];
     [|simpl; discriminate]);
    try destruct (isCNAME res);
    try destruct (negb (GoString.is_empty (traefikCNAME dd)));
    try destruct (traefikA dd);
    try destruct (address6 (containerInfo res));
    try destruct (address (containerInfo res));
    simpl; try discriminate;
    intros H; inversion H; subst; simpl;
    (refine (conj eq_refl (conj eq_refl (conj eq_refl (conj eq_refl
               (conj _ (conj _ _))))));
     [ lia | discriminate
     | intros rr Hin; simpl in Hin;
       repeat (destruct Hin as [<-|Hin]; [simpl; tauto|]); destruct Hin ]).
Qed.

Lemma served_reply_shape_witness :
  length (Answer (reply true [RR_A "whoami.177cpt.com." 3600 (Some sampleIP4)]))
  <= 1.
Proof.
  apply (served_reply_shape priorityPlugin [whoamiInfo]
           (queryFor TypeA "whoami.177cpt.com.")
           (reply true [RR_A "whoami.177cpt.com." 3600 (Some sampleIP4)])
           RcodeSuccess).
  reflexivity.
Defined.

(** X4.  In CNAME mode a redirect name gets the same answer to an A, an AAAA
    and a CNAME query: the handler builds a reply whose answer section is one
    CNAME record, named after the query, with the configured TTL and the
    configured target; the target gets a final dot exactly when it has none. *)
Theorem redirect_answers_cname dd entries r res :
  containerInfoByDomain entries (QName r) = Some res ->
  isCNAME res = true ->
  traefikCNAME dd <> "" ->
  QType r = TypeA \/ QType r = TypeAAAA \/ QType r = TypeCNAME ->
  buildsReply (ServeDNS dd entries r)
    [RR_CNAME (ReqName r) (ttl dd)
       (if GoString.HasSuffix (traefikCNAME dd) "." then traefikCNAME dd
        else traefikCNAME dd +:+ ".")]
  /\ GoString.HasSuffix
       (if GoString.HasSuffix (traefikCNAME dd) "." then traefikCNAME dd
        else traefikCNAME dd +:+ ".") "." = true.
Proof.
  intros Hres Hc Hne Hq. apply is_empty_false in Hne. split.
  - unfold buildsReply, ServeDNS, collectAnswers, getCNAMEAnswer.
    rewrite Hres, Hc, Hne.
    destruct Hq as [-> | [-> | ->]]; eexists; (split; [reflexivity|]);
      reflexivity.
  - destruct (GoString.HasSuffix (traefikCNAME dd) ".") eqn:Hs; [exact Hs|].
    apply HasSuffix_append.
Qed.

Lemma redirect_answers_cname_witness :
  buildsReply
    (ServeDNS priorityPlugin [whoamiInfo]
              (queryFor TypeAAAA "traefik.177cpt.com."))
    [RR_CNAME "traefik.177cpt.com." 3600 "infravm.177cpt.com."].
Proof.
  apply (redirect_answers_cname priorityPlugin [whoamiInfo]
           (queryFor TypeAAAA "traefik.177cpt.com.")
           {| containerInfo := whoamiInfo; isCNAME := true |}).
  - reflexivity.
  - reflexivity.
  - discriminate.
  - right. left. reflexivity.
Defined.

(** X5.  In [traefik_a] mode (no CNAME target, a fixed IPv4 address) a
    redirect name gets, to an A query, a reply whose answer section is one A
    record with that address; AAAA, CNAME and all other queries for it are
    passed to the next plugin; with neither mode configured every query for
    a redirect name is passed on. *)
Theorem redirect_answers_fixed_address dd entries r res :
  containerInfoByDomain entries (QName r) = Some res ->
  isCNAME res = true ->
  traefikCNAME dd = "" ->
  (forall ip, traefikA dd = Some ip -> QType r = TypeA ->
     buildsReply (ServeDNS dd entries r)
                 [RR_A (ReqName r) (ttl dd) (Some ip)])
  /\ (QType r <> TypeA -> ServeDNS dd entries r = NextOrFailure)
  /\ (traefikA dd = None -> ServeDNS dd entries r = NextOrFailure).
Proof.
  intros Hres Hc Hn. unfold ServeDNS, collectAnswers. rewrite Hres, Hc, Hn.
  simpl. split; [|split].
  - intros ip -> ->. simpl. eexists. split; [reflexivity|]. reflexivity.
  - intros Hq. destruct (Z.eqb_spec (QType r) TypeA); [contradiction|].
    destruct (QType r =? TypeAAAA)%Z; [reflexivity|].
    destruct (QType r =? TypeCNAME)%Z; reflexivity.
  - intros ->. destruct (QType r =? TypeA)%Z; [reflexivity|].
    destruct (QType r =? TypeAAAA)%Z; [reflexivity|].
    destruct (QType r =? TypeCNAME)%Z; reflexivity.
Qed.

Lemma redirect_answers_fixed_address_witness :
  buildsReply
    (ServeDNS aModePlugin [whoamiInfo] (queryFor TypeA "traefik.177cpt.com."))
    [RR_A "traefik.177cpt.com." 3600 (Some sampleIP4)]
  /\ ServeDNS aModePlugin [whoamiInfo]
       (queryFor TypeAAAA "traefik.177cpt.com.") = NextOrFailure.
Proof.
  split.
  - refine (proj1 (redirect_answers_fixed_address aModePlugin [whoamiInfo]
                     (queryFor TypeA "traefik.177cpt.com.")
                     {| containerInfo := whoamiInfo; isCNAME := true |}
                     eq_refl eq_refl eq_refl) sampleIP4 eq_refl eq_refl).
  - refine (proj1 (proj2 (redirect_answers_fixed_address aModePlugin
                     [whoamiInfo] (queryFor TypeAAAA "traefik.177cpt.com.")
                     {| containerInfo := whoamiInfo; isCNAME := true |}
                     eq_refl eq_refl eq_refl)) _).
    discriminate.
Defined.

(** ** Address resolution *)

Lemma getContainerAddress_break w fuel c v6 :
  addressLoop w (S fuel)
    (bool_decide (is_Some (Config_Labels c !! "coredns.dockerdiscovery.network")))
    v6 c
  = Some (inr (c, HostConfig_NetworkMode c)) ->
  getContainerAddress w (S fuel) c v6
  = match selectNetwork (Config_Labels c !! "coredns.dockerdiscovery.network") c
    with
    | None => Some (None, Some (noNetworkError (HostConfig_NetworkMode c)))
    | Some network =>
        if negb v6 then Some (ParseIP w (net_IPAddress network), None)
        else if (0 <? String.length (net_GlobalIPv6Address network))%nat
             then Some (ParseIP w (net_GlobalIPv6Address network), None)
             else Some (None, None)
    end.
Proof. intros H. unfold getContainerAddress. now rewrite H. Qed.

Lemma addressLoop_own w fuel hasNetName v6 c :
  ownNamespace c ->
  (hasNetName = false ->
   (v6 = false -> NetworkSettings_IPAddress c = "")
   /\ (v6 = true -> NetworkSettings_GlobalIPv6Address c = "")) ->
  addressLoop w (S fuel) hasNetName v6 c
  = Some (inr (c, HostConfig_NetworkMode c)).
Proof.
  intros [Hhost Hcont] Hempty. simpl.
  apply String.eqb_neq in Hhost. rewrite Hhost, Hcont.
  destruct hasNetName; simpl.
  - now rewrite !andb_false_r.
  - destruct (Hempty eq_refl) as [H4 H6].
    destruct v6; simpl.
    + rewrite (H6 eq_refl), andb_false_r. reflexivity.
    + rewrite (H4 eq_refl), andb_false_r. reflexivity.
Qed.

(** X6.  Without a selector label: a top-level IPv4 address, when there is
    one, is the address, whatever the network mode and the attachments; a
    container in the host's namespace without it has no address and no error;
    otherwise, for a container in its own namespace, the address is that of
    its only attachment, and zero or several attachments are an error that
    names the network mode. *)
Theorem address_without_selector w fuel c :
  noSelector c ->
  (NetworkSettings_IPAddress c <> "" ->
   getContainerAddress w (S fuel) c false
   = Some (ParseIP w (NetworkSettings_IPAddress c), None))
  /\ (NetworkSettings_IPAddress c = "" -> HostConfig_NetworkMode c = "host" ->
      getContainerAddress w (S fuel) c false = Some (None, None))
  /\ (NetworkSettings_IPAddress c = "" -> ownNamespace c ->
      forall name network,
        NetworkSettings_Networks c = {[ name := network ]} ->
        getContainerAddress w (S fuel) c false
        = Some (ParseIP w (net_IPAddress network), None))
  /\ (NetworkSettings_IPAddress c = "" -> ownNamespace c ->
      size (NetworkSettings_Networks c) <> 1 ->
      getContainerAddress w (S fuel) c false
      = Some (None, Some (noNetworkError (HostConfig_NetworkMode c)))).
Proof.
  intros Hsel. unfold noSelector in Hsel.
  split; [|split; [|split]].
  - intros Hip. apply is_empty_false in Hip.
    unfold getContainerAddress. rewrite Hsel. simpl. rewrite Hip. reflexivity.
  - intros Hip Hhost. unfold getContainerAddress. rewrite Hsel. simpl.
    rewrite Hip, Hhost. simpl. rewrite andb_false_r. reflexivity.
  - intros Hip Hown name network Hnets.
    rewrite getContainerAddress_break.
    + rewrite Hsel. unfold selectNetwork. rewrite Hnets, map_to_list_singleton.
      reflexivity.
    + rewrite Hsel. apply addressLoop_own; [exact Hown|].
      intros _. split; [auto | discriminate].
  - intros Hip Hown Hsize.
    rewrite getContainerAddress_break.
    + rewrite Hsel. unfold selectNetwork.
      destruct (map_to_list (NetworkSettings_Networks c))
        as [|[k v] [|? ?]] eqn:Hl; try reflexivity.
      exfalso. apply Hsize. rewrite <- length_map_to_list, Hl. reflexivity.
    + rewrite Hsel. apply addressLoop_own; [exact Hown|].
      intros _. split; [auto | discriminate].
Qed.

Lemma address_without_selector_witness :
  getContainerAddress sampleExtern 1 whoamiContainer false
  = Some (Some sampleIP4, None).
Proof.
  destruct (address_without_selector sampleExtern 0 whoamiContainer)
    as (_ & _ & H & _).
  - reflexivity.
  - assert (Hown : ownNamespace whoamiContainer)
      by (split; [discriminate | reflexivity]).
    exact (H eq_refl Hown "proxy"
             {| net_IPAddress := "172.18.0.5"; net_GlobalIPv6Address := "";
                net_Aliases := [] |} eq_refl).
Defined.

(** X7.  With a selector label: a container in the host's namespace has no
    address and no error, whatever its addresses and attachments; for a
    container in its own namespace the address is read from the attachment
    the label names, even when a top-level address is set, and a container
    that is not attached to that network gets the error.  The IPv6 address
    of the attachment is used only when its text is not empty. *)
Theorem address_with_selector w fuel c netName :
  Config_Labels c !! "coredns.dockerdiscovery.network" = Some netName ->
  (HostConfig_NetworkMode c = "host" ->
   forall v6, getContainerAddress w (S fuel) c v6 = Some (None, None))
  /\ (ownNamespace c ->
      (forall network,
         NetworkSettings_Networks c !! netName = Some network ->
         getContainerAddress w (S fuel) c false
         = Some (ParseIP w (net_IPAddress network), None)
         /\ getContainerAddress w (S fuel) c true
            = Some (if (0 <? String.length (net_GlobalIPv6Address network))%nat
                    then ParseIP w (net_GlobalIPv6Address network) else None,
                    None))
      /\ (NetworkSettings_Networks c !! netName = None ->
          forall v6,
            getContainerAddress w (S fuel) c v6
            = Some (None, Some (noNetworkError (HostConfig_NetworkMode c))))).
Proof.
  intros Hsel. split.
  - intros Hhost v6. unfold getContainerAddress. rewrite Hsel. simpl.
    rewrite Hhost, !andb_false_r. reflexivity.
  - intros Hown.
    assert (Hloop : forall v6,
      addressLoop w (S fuel)
        (bool_decide
           (is_Some (Config_Labels c !! "coredns.dockerdiscovery.network")))
        v6 c = Some (inr (c, HostConfig_NetworkMode c))).
    { intros v6. apply addressLoop_own; [exact Hown|].
      rewrite Hsel. intros H. apply bool_decide_eq_false in H.
      exfalso. apply H. eauto. }
    split.
    + intros network Hnet.
      split; rewrite getContainerAddress_break by apply Hloop;
        rewrite Hsel; simpl; rewrite Hnet; simpl; [reflexivity|].
      now destruct (0 <? _)%nat.
    + intros Hnone v6. rewrite getContainerAddress_break by apply Hloop.
      rewrite Hsel. simpl. now rewrite Hnone.
Qed.

Lemma address_with_selector_witness :
  getContainerAddress sampleExtern 1 selectorContainer false
  = Some (Some sampleIP4, None)
  /\ getContainerAddress sampleExtern 1 selectorContainer true
     = Some (Some sampleIP6, None).
Proof.
  assert (Hown : ownNamespace selectorContainer)
    by (split; [discriminate | reflexivity]).
  destruct (address_with_selector sampleExtern 0 selectorContainer "proxy"
              eq_refl) as [_ Hsel].
  destruct (Hsel Hown) as [H _].
  exact (H {| net_IPAddress := "172.18.0.5"; net_GlobalIPv6Address := "fd00::5";
              net_Aliases := ["multi.proxy"] |} eq_refl).
Defined.

Lemma addressLoop_indirect w fuel hasNetName v6 c otherID :
  HostConfig_NetworkMode c = "container:" +:+ otherID ->
  NetworkSettings_IPAddress c = "" ->
  NetworkSettings_GlobalIPv6Address c = "" ->
  addressLoop w (S fuel) hasNetName v6 c
  = match InspectContainer w otherID with
    | inl c' => addressLoop w fuel hasNetName v6 c'
    | inr err => Some (inl (None, Some err))
    end.
Proof.
  intros Hmode H4 H6. simpl. rewrite H4, H6, Hmode.
  cbv [String.append GoString.is_empty GoString.HasPrefix]. simpl.
  now destruct otherID.
Qed.

Lemma selectNetwork_networks selector c1 c2 :
  NetworkSettings_Networks c1 = NetworkSettings_Networks c2 ->
  selectNetwork selector c1 = selectNetwork selector c2.
Proof. intros H. unfold selectNetwork. now rewrite H. Qed.

(** The loop reads no label of the container it is given: the selector was
    read before. *)
Lemma addressLoop_withSelector w fuel hasNetName v6 selector c :
  match addressLoop w fuel hasNetName v6 c,
        addressLoop w fuel hasNetName v6 (withSelector selector c) with
  | Some (inr (c1, mode1)), Some (inr (c2, mode2)) =>
      mode1 = mode2
      /\ NetworkSettings_Networks c1 = NetworkSettings_Networks c2
  | r1, r2 => r1 = r2
  end.
Proof.
  destruct fuel as [|fuel]; [reflexivity|]. simpl.
  destruct (_ && _ && _); [reflexivity|].
  destruct (_ && _ && _); [reflexivity|].
  destruct (String.eqb _ "host"); [reflexivity|].
  destruct (GoString.HasPrefix _ "container:"); [|now split].
  destruct (InspectContainer w _) as [c'|err]; [|reflexivity].
  destruct (addressLoop w fuel hasNetName v6 c') as [[res|[c1 mode]]|];
    auto.
Qed.

Lemma lookup_withSelector selector c :
  Config_Labels (withSelector selector c) !! "coredns.dockerdiscovery.network"
  = selector.
Proof.
  destruct selector; simpl; [apply lookup_insert_eq | apply lookup_delete_eq].
Qed.

(** X8.  A container that lives in another container's network namespace and
    has no top-level address of its own is resolved through that container:
    when the docker daemon cannot inspect it the error is returned with no
    address; otherwise the result is the one the other container would get
    with this container's selector label in place of its own, so it is the
    other container's own result when both carry the same selector label;
    and a container whose network mode names itself is never resolved, the
    loop does not end. *)
Theorem namespace_indirection w fuel c otherID :
  HostConfig_NetworkMode c = "container:" +:+ otherID ->
  NetworkSettings_IPAddress c = "" ->
  NetworkSettings_GlobalIPv6Address c = "" ->
  (forall err, InspectContainer w otherID = inr err ->
     forall v6, getContainerAddress w (S fuel) c v6 = Some (None, Some err))
  /\ (forall c', InspectContainer w otherID = inl c' ->
        forall v6,
          getContainerAddress w (S fuel) c v6
          = getContainerAddress w fuel
              (withSelector
                 (Config_Labels c !! "coredns.dockerdiscovery.network") c')
              v6)
  /\ (forall c', InspectContainer w otherID = inl c' ->
        Config_Labels c' !! "coredns.dockerdiscovery.network"
        = Config_Labels c !! "coredns.dockerdiscovery.network" ->
        forall v6, getContainerAddress w (S fuel) c v6
                   = getContainerAddress w fuel c' v6)
  /\ (InspectContainer w otherID = inl c ->
      forall n v6, getContainerAddress w n c v6 = None).
Proof.
  intros Hmode H4 H6. split; [|split; [|split]].
  - intros err Hi v6. unfold getContainerAddress.
    rewrite (addressLoop_indirect w fuel _ v6 c otherID Hmode H4 H6), Hi.
    reflexivity.
  - intros c' Hi v6. unfold getContainerAddress.
    rewrite (addressLoop_indirect w fuel _ v6 c otherID Hmode H4 H6), Hi.
    rewrite lookup_withSelector.
    set (selector := Config_Labels c !! "coredns.dockerdiscovery.network").
    pose proof (addressLoop_withSelector w fuel
                  (bool_decide (is_Some selector)) v6 selector c') as Hl.
    destruct (addressLoop w fuel _ v6 c') as [[res|[c1 mode1]]|];
      destruct (addressLoop w fuel _ v6 (withSelector selector c'))
        as [[res'|[c2 mode2]]|]; try discriminate Hl; try reflexivity.
    + now inversion Hl.
    + destruct Hl as [<- Hn].
      now rewrite (selectNetwork_networks selector c1 c2 Hn).
  - intros c' Hi Hl v6. unfold getContainerAddress.
    rewrite (addressLoop_indirect w fuel _ v6 c otherID Hmode H4 H6), Hi, Hl.
    reflexivity.
  - intros Hi n v6. unfold getContainerAddress.
    assert (Hloop : forall k h, addressLoop w k h v6 c = None).
    { induction k as [|k IH]; intros h; [reflexivity|].
      rewrite (addressLoop_indirect w k h v6 c otherID Hmode H4 H6), Hi.
      apply IH. }
    now rewrite Hloop.
Qed.

Lemma namespace_indirection_witness :
  getContainerAddress sampleExtern 1 orphanContainer false
  = Some (None, Some "No such container")
  /\ forall n, getContainerAddress loopExtern n loopContainer false = None.
Proof.
  split.
  - destruct (namespace_indirection sampleExtern 0 orphanContainer "gone"
                eq_refl eq_refl eq_refl) as (H & _).
    exact (H "No such container" eq_refl false).
  - destruct (namespace_indirection loopExtern 0 loopContainer "loop"
                eq_refl eq_refl eq_refl) as (_ & _ & _ & H).
    intros n. exact (H eq_refl n false).
Defined.

(** ** Resolvers *)

Lemma lowerAscii_upper c :
  (65 <=? nat_of_ascii (lowerAscii c))%nat
  && (nat_of_ascii (lowerAscii c) <=? 90)%nat = false.
Proof.
  destruct c as [[] [] [] [] [] [] [] []]; vm_compute; reflexivity.
Qed.

Lemma lowerAscii_backtick c :
  Ascii.eqb (lowerAscii c) "`" = Ascii.eqb c "`".
Proof.
  destruct c as [[] [] [] [] [] [] [] []]; vm_compute; reflexivity.
Qed.

Lemma lowerAscii_ascii c :
  (nat_of_ascii c <? 128)%nat = true ->
  (nat_of_ascii (lowerAscii c) <? 128)%nat = true.
Proof.
  destruct c as [[] [] [] [] [] [] [] []]; vm_compute; auto.
Qed.

Lemma lowerBytes_upper s : hasUpper (lowerBytes s) = false.
Proof.
  induction s as [|c s IH]; cbn [hasUpper lowerBytes]; [reflexivity|].
  now rewrite lowerAscii_upper, IH.
Qed.

Lemma lowerBytes_backtick s : hasByte "`" (lowerBytes s) = hasByte "`" s.
Proof.
  induction s as [|c s IH]; cbn [hasByte lowerBytes]; [reflexivity|].
  now rewrite lowerAscii_backtick, IH.
Qed.

Lemma lowerBytes_ascii s : isASCII s = true -> isASCII (lowerBytes s) = true.
Proof.
  induction s as [|c s IH]; cbn [isASCII lowerBytes]; [reflexivity|].
  intros H. apply andb_true_iff in H as [Hc Hs].
  now rewrite (lowerAscii_ascii c Hc), (IH Hs).
Qed.

Lemma lowerBytes_nonempty s : s <> "" -> lowerBytes s <> "".
Proof. destruct s; [congruence | discriminate]. Qed.

(** On ASCII text [strings.ToLower] lowers the bytes. *)
Lemma ToLower_ascii w s : isASCII s = true -> ToLower w s = lowerBytes s.
Proof. intros H. unfold ToLower. now rewrite H. Qed.

Lemma spanNoBacktick_run s run rest :
  spanNoBacktick s = (run, rest) -> hasByte "`" run = false.
Proof.
  revert run rest. induction s as [|c s IH]; intros run rest; simpl.
  - now intros [= <- <-].
  - destruct (Ascii.eqb c "`") eqn:Hc; [now intros [= <- <-]|].
    destruct (spanNoBacktick s) as [run' rest'] eqn:Hs.
    intros [= <- <-]. simpl. rewrite Hc. exact (IH run' rest' eq_refl).
Qed.

Lemma matchHostAt_host s host rest :
  matchHostAt s = Some (host, rest) ->
  host <> "" /\ hasByte "`" host = false.
Proof.
  unfold matchHostAt. destruct (GoString.HasPrefix s "Host"); [|discriminate].
  destruct (GoString.HasPrefix _ "(`"); [|discriminate].
  destruct (spanNoBacktick _) as [run rest'] eqn:Hs.
  destruct (negb (GoString.is_empty run)) eqn:He; [|discriminate].
  destruct (GoString.HasPrefix rest' "`)"); [|discriminate].
  intros [= <- <-]. split.
  - apply negb_true_iff in He. now apply is_empty_false.
  - exact (spanNoBacktick_run _ _ _ Hs).
Qed.

Lemma findAllHosts_hosts fuel : forall s host,
  In host (findAllHosts fuel s) -> host <> "" /\ hasByte "`" host = false.
Proof.
  induction fuel as [|fuel IH]; intros s host; simpl; [intros []|].
  destruct (matchHostAt s) as [[h rest]|] eqn:Hm.
  - intros [<-|Hin]; [exact (matchHostAt_host _ _ _ Hm) | exact (IH _ _ Hin)].
  - destruct s; [intros [] | apply IH].
Qed.

Lemma addUnseen_spec w hosts : forall seen,
  NoDup seen ->
  NoDup (addUnseen w hosts seen)
  /\ forall h, In h (addUnseen w hosts seen) ->
               In h seen \/ exists h0, In h0 hosts /\ h = ToLower w h0.
Proof.
  induction hosts as [|h0 hosts IH]; intros seen Hnd; simpl.
  - split; [exact Hnd | auto].
  - destruct (existsb (String.eqb (ToLower w h0)) seen) eqn:Hex.
    + destruct (IH seen Hnd) as [H1 H2]. split; [exact H1|].
      intros h Hin. destruct (H2 h Hin) as [Hs | (h1 & Hin1 & ->)]; [now left|].
      right. exists h1. auto.
    + assert (Hnd' : NoDup (seen ++ [ToLower w h0])).
      { apply NoDup_app. split; [exact Hnd|]. split; [|apply NoDup_singleton].
        intros x Hx Hx0. apply list_elem_of_In in Hx.
        apply list_elem_of_singleton in Hx0. subst x.
        apply not_true_iff_false in Hex. apply Hex.
        apply existsb_exists. exists (ToLower w h0).
        split; [exact Hx | apply String.eqb_refl]. }
      destruct (IH _ Hnd') as [H1 H2]. split; [exact H1|].
      intros h Hin. destruct (H2 h Hin) as [Hs | (h1 & Hin1 & ->)].
      * apply in_app_or in Hs as [Hs | [<- | []]]; [now left|].
        right. exists h0. auto.
      * right. exists h1. auto.
Qed.

(** The entries a range visits are those of the map. *)
Lemma rangeLabels_lookup (o : RangeOrder) (m : gmap string string) label value :
  In (label, value) (rangeLabels o m) <-> m !! label = Some value.
Proof.
  rewrite <- list_elem_of_In, (rangeLabels_perm o m).
  apply elem_of_map_to_list.
Qed.


Lemma from_length n : forall s,
  String.length (GoString.from n s) <= String.length s.
Proof.
  induction n as [|n IH]; intros [|c s]; simpl; try lia.
  specialize (IH s). lia.
Qed.

Lemma prefix_from p : forall s,
  GoString.HasPrefix s p = true ->
  String.length (GoString.from (String.length p) s) + String.length p
  = String.length s.
Proof.
  unfold GoString.HasPrefix.
  induction p as [|a p IH]; intros [|b s]; simpl; try lia; try discriminate.
  destruct (ascii_dec a b); [|discriminate].
  intros H. specialize (IH s H). lia.
Qed.

Lemma spanNoBacktick_length s : forall run rest,
  spanNoBacktick s = (run, rest) -> String.length rest <= String.length s.
Proof.
  induction s as [|c s IH]; intros run rest; simpl.
  - intros [= <- <-]. simpl. lia.
  - destruct (Ascii.eqb c "`"); [intros [= <- <-]; simpl; lia|].
    destruct (spanNoBacktick s) as [run' rest'].
    intros [= <- <-]. specialize (IH run' rest' eq_refl). lia.
Qed.

Lemma spanNoBacktick_append x r :
  hasByte "`" x = false ->
  spanNoBacktick (x +:+ String "`" r) = (x, String "`" r).
Proof.
  induction x as [|c x IH]; simpl; [reflexivity|].
  intros H. apply orb_false_iff in H as [Hc Hx].
  rewrite Hc, (IH Hx). reflexivity.
Qed.

Lemma matchHostAt_shorter s host rest :
  matchHostAt s = Some (host, rest) -> String.length rest < String.length s.
Proof.
  unfold matchHostAt.
  destruct (GoString.HasPrefix s "Host") eqn:H1; [|discriminate].
  apply prefix_from in H1. change (String.length "Host") with 4 in H1.
  remember (GoString.from 4 s) as s1 eqn:E1.
  remember (if GoString.HasPrefix s1 "SNI" then GoString.from 3 s1 else s1)
    as s2 eqn:E2.
  assert (H2 : String.length s2 <= String.length s1).
  { subst s2. destruct (GoString.HasPrefix s1 "SNI"); [apply from_length | lia]. }
  destruct (GoString.HasPrefix s2 "(`"); [|discriminate].
  pose proof (from_length 2 s2) as H3.
  remember (GoString.from 2 s2) as s3 eqn:E3.
  destruct (spanNoBacktick s3) as [run rest'] eqn:Hs.
  apply spanNoBacktick_length in Hs.
  destruct (_ && _); [|discriminate].
  pose proof (from_length 2 rest') as H4.
  remember (GoString.from 2 rest') as s4 eqn:E4.
  intros H. inversion H. subst. lia.
Qed.

(** Any fuel above the length of the text gives the same matches. *)
Lemma findAllHosts_fuel f1 : forall f2 s,
  String.length s < f1 -> String.length s < f2 ->
  findAllHosts f1 s = findAllHosts f2 s.
Proof.
  induction f1 as [|f1 IH]; intros [|f2] s H1 H2; try lia. simpl.
  destruct (matchHostAt s) as [[h rest]|] eqn:Hm.
  - apply matchHostAt_shorter in Hm. f_equal. apply IH; lia.
  - destruct s as [|c s]; [reflexivity|]. simpl in *. apply IH; lia.
Qed.

Lemma prefix_empty s : String.prefix "" s = true.
Proof. now destruct s. Qed.

Lemma matchHostAt_rule x rest :
  x <> "" -> hasByte "`" x = false ->
  matchHostAt (hostRule x rest) = Some (x, rest)
  /\ matchHostAt (hostSNIRule x rest) = Some (x, rest).
Proof.
  intros Hne Hbt. apply is_empty_false in Hne.
  pose proof (spanNoBacktick_append x (String ")" rest) Hbt) as Hs.
  split.
  - change (hostRule x rest)
      with (String "H" (String "o" (String "s" (String "t" (String "("
             (String "`" (x +:+ String "`" (String ")" rest)))))))).
    unfold matchHostAt, GoString.HasPrefix. simpl.
    rewrite Hs, Hne, !prefix_empty. simpl. now rewrite prefix_empty.
  - change (hostSNIRule x rest)
      with (String "H" (String "o" (String "s" (String "t" (String "S"
             (String "N" (String "I" (String "(" (String "`"
               (x +:+ String "`" (String ")" rest))))))))))).
    unfold matchHostAt, GoString.HasPrefix. simpl.
    rewrite Hs, Hne, !prefix_empty. simpl. now rewrite prefix_empty.
Qed.

Lemma hostRule_length x rest :
  String.length (hostRule x rest) = 8 + String.length x + String.length rest
  /\ String.length (hostSNIRule x rest)
     = 11 + String.length x + String.length rest.
Proof.
  unfold hostRule, hostSNIRule. rewrite !length_append. simpl. lia.
Qed.

Lemma findAllHosts_rule x rest value :
  value = hostRule x rest \/ value = hostSNIRule x rest ->
  x <> "" -> hasByte "`" x = false ->
  findAllHosts (S (String.length value)) value
  = x :: findAllHosts (S (String.length rest)) rest.
Proof.
  intros Hv Hne Hbt.
  destruct (matchHostAt_rule x rest Hne Hbt) as [H1 H2].
  destruct (hostRule_length x rest) as [L1 L2].
  assert (Hstep : forall n s, findAllHosts (S n) s =
    match matchHostAt s with
    | Some (host, rest) => host :: findAllHosts n rest
    | None => match s with
              | String _ s' => findAllHosts n s'
              | EmptyString => []
              end
    end) by reflexivity.
  rewrite Hstep.
  destruct Hv as [-> | ->]; [rewrite H1, L1 | rewrite H2, L2];
    f_equal; apply findAllHosts_fuel; lia.
Qed.

Lemma fold_skip_labels {A} (step : A -> string * string -> A)
  (labels : list (string * string)) (acc : A) :
  (forall a kv, In kv labels -> isTraefikRouterRule kv.1 = false ->
                step a kv = a) ->
  (forall kv, In kv labels -> isTraefikRouterRule kv.1 = false) ->
  fold_left step labels acc = acc.
Proof.
  revert acc. induction labels as [|kv labels IH]; intros acc Hs Hl; simpl;
    [reflexivity|].
  rewrite (Hs acc kv); [|now left | apply Hl; now left].
  apply IH; intros; [apply Hs | apply Hl]; simpl; auto.
Qed.



(** ** From registration to answer *)

Lemma append_dot_inj d : forall d', d +:+ "." = d' +:+ "." -> d = d'.
Proof.
  induction d as [|a d IH]; intros [|b d'] H; [reflexivity | | |].
  - inversion H as [[Ha Hd]]. destruct d'; discriminate Hd.
  - inversion H as [[Ha Hd]]. destruct d; discriminate Hd.
  - inversion H as [[Ha Hd]]. f_equal. now apply IH.
Qed.

Lemma containerInfoByDomain_redirect entries name res :
  containerInfoByDomain entries name = Some res ->
  isCNAME res = true ->
  matchesAny (domains (containerInfo res)) name = false.
Proof.
  induction entries as [|ci rest IH]; simpl; [discriminate|].
  destruct (matchesAny (domains ci) name) eqn:Hp.
  - intros [= <-]. discriminate.
  - destruct (matchesAny (cnameDomains ci) name); [|exact IH].
    now intros [= <-].
Qed.

Lemma iteration_of_lookup dd entries ci :
  iteration_of dd entries ->
  In ci entries <-> exists k, containerInfoMap dd !! k = Some ci.
Proof.
  unfold iteration_of. intros Hp. rewrite <- list_elem_of_In, Hp.
  rewrite list_elem_of_fmap. split.
  - intros ([k ci'] & -> & Hin). exists k. now apply elem_of_map_to_list.
  - intros (k & Hk). exists (k, ci). split; [reflexivity|].
    now apply elem_of_map_to_list.
Qed.

(** X11.  From registration to answer: once a container with an IPv4 address
    is registered, an A query for any domain its resolvers gave it, with the
    final dot, gets a reply whose answer section is one A record with that
    address and the configured TTL, provided no other registered container
    holds that domain. *)
Theorem registered_domain_is_served w fuel dd c d ip err dd' spawned entries r :
  getContainerAddress w fuel c false = Some (Some ip, err) ->
  In d (resolveDomainsByContainer w dd c).1 ->
  (forall k ci, k <> ID c -> containerInfoMap dd !! k = Some ci ->
                ~ In d (domains ci) /\ ~ In d (cnameDomains ci)) ->
  updateContainerInfo w fuel dd c = Some (dd', spawned) ->
  iteration_of dd' entries ->
  QType r = TypeA -> QName r = d +:+ "." ->
  buildsReply (ServeDNS dd' entries r) [RR_A (ReqName r) (ttl dd) (Some ip)].
Proof.
  intros H4 Hd Hother Hup Hit Hq Hn.
  assert (Httl : ttl dd' = ttl dd).
  { unfold updateContainerInfo in Hup.
    destruct (resolveDomainsByContainer w dd c) as [dn cn].
    destruct (getContainerAddress w fuel c false) as [[a e]|]; [|discriminate].
    destruct (match a with Some _ => _ | None => _ end) as [[a6 e6]|];
      [|discriminate].
    destruct (_ || _); inversion Hup; reflexivity. }
  destruct (update_result _ _ _ _ _ _ Hup) as (a & err' & a6 & H4' & _ & Hmap).
  rewrite H4 in H4'. inversion H4'. subst a err'. clear H4'.
  assert (Hne : (0 <? length (domains (entryFor w dd c (Some ip) a6)))%nat = true).
  { change (domains (entryFor w dd c (Some ip) a6))
      with (resolveDomainsByContainer w dd c).1.
    destruct (resolveDomainsByContainer w dd c).1; [destruct Hd|reflexivity]. }
  rewrite Hne in Hmap. simpl orb in Hmap. cbv iota in Hmap.
  set (info := entryFor w dd c (Some ip) a6) in *.
  assert (Hlook : containerInfoByDomain entries (QName r)
                  = Some {| containerInfo := info; isCNAME := false |}).
  { destruct (containerInfoByDomain entries (QName r)) as [res|] eqn:Hres.
    - destruct (containerInfoByDomain_Some _ _ _ Hres) as (Hin & d' & Hd' & Hin').
      rewrite Hn in Hd'. apply append_dot_inj in Hd'. subst d'.
      apply (iteration_of_lookup dd' entries _ Hit) in Hin as (k & Hk).
      rewrite Hmap in Hk.
      destruct (decide (k = ID c)) as [->|Hkc].
      + rewrite lookup_insert_eq in Hk. inversion Hk as [Hci].
        destruct res as [ci [|]]; simpl in *; subst ci; [|reflexivity].
        exfalso.
        pose proof (containerInfoByDomain_redirect _ _ _ Hres eq_refl) as Hno.
        simpl in Hno. rewrite matchesAny_false in Hno.
        exact (Hno d Hd (eq_sym Hn)).
      + rewrite lookup_insert_ne, lookup_delete_ne in Hk by congruence.
        destruct (Hother k _ Hkc Hk) as [Hn1 Hn2].
        destruct (isCNAME res); contradiction.
    - exfalso. rewrite containerInfoByDomain_None in Hres.
      apply (Hres info d); [| now left | now symmetry].
      apply (iteration_of_lookup dd' entries _ Hit). exists (ID c).
      rewrite Hmap. apply lookup_insert_eq. }
  unfold buildsReply, ServeDNS, collectAnswers. rewrite Hlook, Hq, Httl.
  eexists. split; [reflexivity|]. reflexivity.
Qed.

Lemma registered_domain_is_served_witness :
  buildsReply
    (ServeDNS registeredCompose [composeInfo]
              (queryFor TypeA "cservice.cproject.compose.loc."))
    [RR_A "cservice.cproject.compose.loc." 3600 (Some sampleIP4)].
Proof.
  refine (registered_domain_is_served sampleExtern 1 composePlugin
            composeContainer "cservice.cproject.compose.loc" sampleIP4 None
            registeredCompose None [composeInfo]
            (queryFor TypeA "cservice.cproject.compose.loc.")
            _ _ _ _ _ eq_refl eq_refl).
  - vm_compute. reflexivity.
  - vm_compute. now left.
  - intros k ci _ H. simpl in H. rewrite lookup_empty in H. discriminate H.
  - vm_compute. reflexivity.
  - unfold iteration_of. vm_compute. reflexivity.
Defined.

(** ** The plain resolvers *)

Lemma HasPrefix_slash a t :
  GoString.HasPrefix (String a t) "/" = Ascii.eqb a "/".
Proof.
  unfold GoString.HasPrefix. cbn [String.prefix].
  destruct (ascii_dec "/" a) as [<-|Hne].
  - now destruct t.
  - symmetry. apply Ascii.eqb_neq. congruence.
Qed.

Lemma trimLeftSlash_spec s :
  exists n, s = slashes n +:+ trimLeftSlash s
            /\ GoString.HasPrefix (trimLeftSlash s) "/" = false.
Proof.
  induction s as [|a s (n & Hs & Hp)]; [now exists 0|]. simpl.
  destruct (Ascii.eqb_spec a "/") as [->|Hne].
  - exists (S n). split; [|exact Hp].
    change (slashes (S n) +:+ trimLeftSlash s)
      with (String "/" (slashes n +:+ trimLeftSlash s)).
    now rewrite <- Hs.
  - exists 0. split; [reflexivity|].
    rewrite HasPrefix_slash. now apply Ascii.eqb_neq.
Qed.

(** X12.  [normalizeContainerName] removes exactly the leading slashes of the
    container name: the name is some slashes followed by the result, and the
    result does not start with a slash; hence no domain of
    [SubDomainContainerNameResolver] starts with a slash. *)
Theorem normalized_name_strips_slashes w o c domain :
  exists n,
    Name c = slashes n +:+ normalizeContainerName c
    /\ GoString.HasPrefix (normalizeContainerName c) "/" = false
    /\ forall d, In d (SubDomainContainerNameResolver domain w o c).1 ->
                 GoString.HasPrefix d "/" = false.
Proof.
  unfold normalizeContainerName.
  destruct (trimLeftSlash_spec (Name c)) as (n & Hs & Hp).
  exists n. split; [exact Hs|]. split; [exact Hp|].
  intros d [<- | []]. unfold normalizeContainerName.
  revert Hp. destruct (trimLeftSlash (Name c)) as [|a t]; [reflexivity|].
  change (String a t +:+ "." +:+ domain) with (String a (t +:+ "." +:+ domain)).
  now rewrite !HasPrefix_slash.
Qed.

(** X13.  An alias is among the domains of [NetworkAliasesResolver] exactly
    when an attached network carries it and, if a network is configured,
    that network is the configured one, whatever the order in which the
    attachments are visited. *)
Theorem network_aliases_membership network w o c a :
  In a (NetworkAliasesResolver network w o c).1 <->
  exists name n,
    NetworkSettings_Networks c !! name = Some n
    /\ In a (net_Aliases n)
    /\ (network = "" \/ name = network).
Proof.
  unfold NetworkAliasesResolver.
  destruct (GoString.is_empty network) eqn:He; simpl.
  - apply is_empty_true in He. subst network. rewrite in_flat_map. split.
    + intros ([name n] & Hin & Ha). exists name, n.
      apply list_elem_of_In in Hin. rewrite (rangeNetworks_perm o) in Hin.
      apply elem_of_map_to_list in Hin. auto.
    + intros (name & n & Hl & Ha & _). exists (name, n). split; [|exact Ha].
      apply list_elem_of_In. rewrite (rangeNetworks_perm o).
      now apply elem_of_map_to_list.
  - apply is_empty_false in He.
    destruct (NetworkSettings_Networks c !! network) as [n|] eqn:Hl; simpl.
    + split.
      * intros Ha. exists network, n. auto.
      * intros (name & n' & Hl' & Ha & [E | ->]); [contradiction|].
        rewrite Hl in Hl'. now inversion Hl'.
    + split; [intros []|].
      intros (name & n' & Hl' & _ & [E | ->]); [contradiction|].
      rewrite Hl in Hl'. discriminate Hl'.
Qed.

(** ** Removing records from the in-memory provider *)

Lemma NoDup_map_filter {A B} (f : A -> B) (p : A -> bool) (l : list A) :
  NoDup (map f l) -> NoDup (map f (List.filter p l)).
Proof.
  induction l as [|a l IH]; simpl; [auto|].
  intros Hnd. apply NoDup_cons in Hnd as [Hnotin Hnd'].
  rewrite list_elem_of_In in Hnotin.
  destruct (p a); [|auto]. simpl. apply NoDup_cons. split; [|auto].
  rewrite list_elem_of_In. intros Hin. apply Hnotin. apply in_map_iff in Hin as (x & Hx & Hin).
  apply filter_In in Hin as [Hin _]. apply in_map_iff. now exists x.
Qed.

Lemma filter_negb_or {A} (p q : A -> bool) (l : list A) :
  List.filter (fun x => negb (q x)) (List.filter (fun x => negb (p x)) l)
  = List.filter (fun x => negb (p x || q x)) l.
Proof.
  induction l as [|a l IH]; simpl; [reflexivity|].
  destruct (p a); simpl; [exact IH|]. destruct (q a); simpl; [exact IH|].
  now rewrite IH.
Qed.

Lemma removeByID_unique recordID recs :
  NoDup (map rec_ID recs) -> In recordID (map rec_ID recs) ->
  removeByID recordID recs
  = Some (List.filter (fun r => negb (String.eqb (rec_ID r) recordID)) recs).
Proof.
  induction recs as [|r recs IH]; simpl; [intros _ []|].
  intros Hnd Hin. apply NoDup_cons in Hnd as [Hnotin Hnd'].
  rewrite list_elem_of_In in Hnotin.
  destruct (String.eqb_spec (rec_ID r) recordID) as [<-|Hne]; simpl.
  - f_equal. symmetry. apply forallb_filter_id. apply forallb_forall.
    intros x Hx. apply negb_true_iff, String.eqb_neq. intros E.
    apply Hnotin. rewrite <- E. now apply in_map.
  - destruct Hin as [E|Hin]; [contradiction|]. now rewrite (IH Hnd' Hin).
Qed.

Lemma zoneRecords_set m recs zoneID zoneID' :
  zoneRecords (set_records m (<[zoneID := recs]> (records m))) zoneID'
  = if decide (zoneID = zoneID') then recs else zoneRecords m zoneID'.
Proof. unfold set_records. apply zoneRecords_insert. Qed.

(** Deleting, one by one, records that are all present. *)
Lemma deleteEach_mock zoneID listed : forall m,
  NoDup (map rec_ID (zoneRecords m zoneID)) ->
  NoDup (map rec_ID listed) ->
  incl (map rec_ID listed) (map rec_ID (zoneRecords m zoneID)) ->
  (deleteEach zoneID listed m).1 = None
  /\ zoneRecords (deleteEach zoneID listed m).2 zoneID
     = List.filter (fun r => negb (existsb (String.eqb (rec_ID r))
                                           (map rec_ID listed)))
                   (zoneRecords m zoneID)
  /\ (forall z, z <> zoneID ->
        zoneRecords (deleteEach zoneID listed m).2 z = zoneRecords m z)
  /\ tunnelIngress (deleteEach zoneID listed m).2 = tunnelIngress m.
Proof.
  induction listed as [|rec rest IH]; intros m Hnd Hl Hincl.
  - simpl. split; [reflexivity|]. split; [|auto].
    symmetry. apply forallb_filter_id. now apply forallb_forall.
  - simpl in Hl. apply NoDup_cons in Hl as [Hnotin Hl'].
    rewrite list_elem_of_In in Hnotin.
    assert (Hin : In (rec_ID rec) (map rec_ID (zoneRecords m zoneID)))
      by (apply Hincl; now left).
    cbn [deleteEach]. unfold bind. cbn [DeleteDNSRecord mockAPI].
    rewrite (removeByID_unique _ _ Hnd Hin).
    set (kept := List.filter _ (zoneRecords m zoneID)).
    set (m1 := set_records m (<[zoneID := kept]> (records m))).
    assert (Hz1 : zoneRecords m1 zoneID = kept).
    { unfold m1. rewrite zoneRecords_set. now destruct (decide _). }
    destruct (IH m1) as (E1 & E2 & E3 & E4).
    + rewrite Hz1. now apply NoDup_map_filter.
    + exact Hl'.
    + rewrite Hz1. intros x Hx.
      assert (Hx' : In x (map rec_ID (zoneRecords m zoneID)))
        by (apply Hincl; now right).
      apply in_map_iff in Hx' as (r & <- & Hr). apply in_map_iff.
      exists r. split; [reflexivity|]. apply filter_In. split; [exact Hr|].
      apply negb_true_iff, String.eqb_neq. intros E. apply Hnotin.
      now rewrite <- E.
    + split; [exact E1|]. split; [|split].
      * rewrite E2, Hz1. unfold kept.
        rewrite (filter_negb_or
                   (fun r => String.eqb (rec_ID r) (rec_ID rec))
                   (fun r => existsb (String.eqb (rec_ID r)) (map rec_ID rest))).
        reflexivity.
      * intros z Hz. rewrite (E3 z Hz). unfold m1. rewrite zoneRecords_set.
        destruct (decide _); [congruence | reflexivity].
      * rewrite E4. reflexivity.
Qed.

Lemma deleteRecord_mock zoneID domain m :
  uniqueIDs m ->
  zoneRecords (deleteRecord zoneID domain m).2 zoneID
  = List.filter (fun r => negb (filterMatches (cnameFilter domain) r))
                (zoneRecords m zoneID)
  /\ (forall z, z <> zoneID ->
        zoneRecords (deleteRecord zoneID domain m).2 z = zoneRecords m z)
  /\ tunnelIngress (deleteRecord zoneID domain m).2 = tunnelIngress m.
Proof.
  intros Hu. unfold deleteRecord, bind. cbn [ListDNSRecords mockAPI].
  set (listed := List.filter _ (zoneRecords m zoneID)).
  destruct (deleteEach_mock zoneID listed m (Hu zoneID)) as (_ & E2 & E3 & E4).
  - now apply NoDup_map_filter.
  - intros x Hx. apply in_map_iff in Hx as (r & <- & Hr).
    apply filter_In in Hr as [Hr _]. now apply in_map.
  - split; [|split; assumption]. rewrite E2. apply filter_ext_in.
    intros r Hr. f_equal.
    destruct (filterMatches (cnameFilter domain) r) eqn:Hm.
    + apply existsb_exists. exists (rec_ID r). split; [|apply String.eqb_refl].
      apply in_map. apply filter_In. now split.
    + apply not_true_iff_false. intros Hex.
      apply existsb_exists in Hex as (x & Hx & Heq).
      apply String.eqb_eq in Heq. subst x.
      apply in_map_iff in Hx as (r' & Hid & Hr').
      apply filter_In in Hr' as [Hr' Hm'].
      rewrite (unique_by_ID _ r' r (Hu zoneID) Hr' Hr Hid) in Hm'. congruence.
Qed.

Lemma removeDomain_mock config d m :
  uniqueIDs m ->
  (forall zoneID,
     zoneRecords (removeDomain config d m).2 zoneID
     = List.filter (fun r => negb (removes config zoneID r d))
                   (zoneRecords m zoneID))
  /\ tunnelIngress (removeDomain config d m).2 = tunnelIngress m.
Proof.
  intros Hu. unfold removeDomain, removes.
  assert (Hid : forall l : list DNSRecord,
                  l = List.filter (fun _ => negb false) l).
  { intros l. symmetry. apply forallb_filter_id. now apply forallb_forall. }
  destruct (mapBool (ExcludeDomains config) d); simpl; [split; auto|].
  destruct (GoString.is_empty (findZoneForDomain config d)); simpl;
    [split; auto|].
  unfold bind.
  destruct (deleteRecord (findZoneForDomain config d) d m) as [err m'] eqn:Hd.
  destruct (deleteRecord_mock (findZoneForDomain config d) d m Hu)
    as (E1 & E2 & E3).
  rewrite Hd in E1, E2, E3. simpl in *. split; [|exact E3].
  intros zoneID.
  destruct (String.eqb_spec (findZoneForDomain config d) zoneID) as [<-|Hne].
  - exact E1.
  - rewrite E2 by congruence. apply Hid.
Qed.


Lemma twoRecordsMock_unique : uniqueIDs twoRecordsMock.
Proof.
  intros zoneID. unfold zoneRecords. simpl.
  destruct (decide (zoneID = "zone_1")) as [->|Hne].
  - rewrite lookup_singleton_eq. simpl.
    apply NoDup_cons. split; [|apply NoDup_singleton].
    intros H. apply list_elem_of_singleton in H. discriminate H.
  - rewrite lookup_singleton_ne by congruence. simpl. apply NoDup_nil_2.
Qed.


(** ** Failures of the tunnel endpoints *)

(** X15.  When the tunnel configuration cannot be fetched, [AddRoutes] and
    [RemoveRoutes] stop there: the fetch is the only call they make, so no
    configuration is pushed and no DNS record is touched. *)
Theorem fetch_failure_stops {St} `{CloudflareAPI St} tunnel cf hs svc
    (s : St) log e :
  (GetTunnelConfiguration (AccountID tunnel) (TunnelID tunnel) s).1 = inr e ->
  let s1 := (GetTunnelConfiguration (AccountID tunnel) (TunnelID tunnel) s).2 in
  let call := CallGetTunnel (AccountID tunnel) (TunnelID tunnel) (inr e) in
  AddRoutes tunnel cf hs svc (s, log) = (tt, (s1, log ++ [call]))
  /\ RemoveRoutes tunnel cf hs (s, log) = (tt, (s1, log ++ [call])).
Proof.
  intros He. unfold AddRoutes, RemoveRoutes, bind. cbn.
  destruct (GetTunnelConfiguration _ _ s) as [[fetched|err] s1]; simpl in *;
    [discriminate He|].
  inversion He. subst err. now split.
Qed.

Lemma fetch_failure_stops_witness :
  AddRoutes testTunnel testTunnelCf ["app.homelab.net"] "http://localhost:8080"
    (({| getDown := true; putDown := false |}, seededMock), [])
  = (tt, (({| getDown := true; putDown := false |}, seededMock),
          [CallGetTunnel "test-account-id" "test-tunnel-uuid"
             (inr "connection refused")])).
Proof.
  assert (Hdown :
    (GetTunnelConfiguration (AccountID testTunnel) (TunnelID testTunnel)
       ({| getDown := true; putDown := false |}, seededMock)).1
    = inr "connection refused") by reflexivity.
  destruct (fetch_failure_stops testTunnel testTunnelCf ["app.homelab.net"]
              "http://localhost:8080"
              ({| getDown := true; putDown := false |}, seededMock) []
              "connection refused" Hdown) as [Hadd _].
  exact Hadd.
Defined.

(** X16.  When the modified tunnel configuration cannot be pushed,
    [AddRoutes] and [RemoveRoutes] stop after the push: the fetch and the
    failed push are the only calls, so no DNS record is created, updated or
    deleted for a route that is not in place. *)
Theorem push_failure_stops {St} `{CloudflareAPI St} tunnel cf hs svc
    (s : St) log fetched :
  (GetTunnelConfiguration (AccountID tunnel) (TunnelID tunnel) s).1
  = inl fetched ->
  let s1 := (GetTunnelConfiguration (AccountID tunnel) (TunnelID tunnel) s).2 in
  let get := CallGetTunnel (AccountID tunnel) (TunnelID tunnel) (inl fetched) in
  let push := fun ingress =>
    UpdateTunnelConfiguration (AccountID tunnel) (TunnelID tunnel)
      (withIngress fetched ingress) s1 in
  let put := fun ingress =>
    CallPutTunnel (AccountID tunnel) (TunnelID tunnel)
                  (withIngress fetched ingress) in
  (forall e,
     (addIngress cf hs svc (Ingress fetched)).2 = true ->
     (push (addIngress cf hs svc (Ingress fetched)).1).1 = inr e ->
     AddRoutes tunnel cf hs svc (s, log)
     = (tt, ((push (addIngress cf hs svc (Ingress fetched)).1).2,
             log ++ [get; put (addIngress cf hs svc (Ingress fetched)).1])))
  /\ (forall e,
        (removeIngress cf hs (Ingress fetched)).2 = true ->
        (push (removeIngress cf hs (Ingress fetched)).1).1 = inr e ->
        RemoveRoutes tunnel cf hs (s, log)
        = (tt, ((push (removeIngress cf hs (Ingress fetched)).1).2,
                log ++ [get; put (removeIngress cf hs (Ingress fetched)).1]))).
Proof.
  intros Hget. unfold AddRoutes, RemoveRoutes, pushIfModified, withIngress, bind.
  cbn.
  destruct (GetTunnelConfiguration _ _ s) as [[fetched'|err] s1]; simpl in *;
    [|discriminate Hget].
  inversion Hget. subst fetched'. split.
  - intros e Hmod Hput.
    destruct (addIngress cf hs svc (Ingress fetched)) as [ingress modified].
    simpl in *. subst modified. cbn.
    destruct (UpdateTunnelConfiguration _ _ _ s1) as [[ok|err] s2]; simpl in *;
      [discriminate Hput|].
    now rewrite <- app_assoc.
  - intros e Hmod Hput.
    destruct (removeIngress cf hs (Ingress fetched)) as [ingress modified].
    simpl in *. subst modified. cbn.
    destruct (UpdateTunnelConfiguration _ _ _ s1) as [[ok|err] s2]; simpl in *;
      [discriminate Hput|].
    now rewrite <- app_assoc.
Qed.

Lemma push_failure_stops_witness :
  AddRoutes testTunnel testTunnelCf ["app.homelab.net"] "http://localhost:8080"
    (({| getDown := false; putDown := true |}, seededMock), [])
  = (tt, (({| getDown := false; putDown := true |}, seededMock),
          [CallGetTunnel "test-account-id" "test-tunnel-uuid"
             (inl (mockTunnelConfig seededMock "test-tunnel-uuid"));
           CallPutTunnel "test-account-id" "test-tunnel-uuid"
             (withIngress (mockTunnelConfig seededMock "test-tunnel-uuid")
                [{| Hostname := "app.homelab.net";
                    Service := "http://localhost:8080" |}; catchAllRule])])).
Proof.
  assert (Hup :
    (GetTunnelConfiguration (AccountID testTunnel) (TunnelID testTunnel)
       ({| getDown := false; putDown := true |}, seededMock)).1
    = inl (mockTunnelConfig seededMock "test-tunnel-uuid")) by reflexivity.
  destruct (push_failure_stops testTunnel testTunnelCf ["app.homelab.net"]
              "http://localhost:8080"
              ({| getDown := false; putDown := true |}, seededMock) []
              (mockTunnelConfig seededMock "test-tunnel-uuid") Hup)
    as [Hadd _].
  apply (Hadd "connection refused"); reflexivity.
Defined.
